(** * AgentFi backend: the chat and dashboard endpoints of [index.js]

    A shallow embedding of [AgentFi-backend/index.js] and the properties of
    its two request handlers.

    The handlers talk to two external services (the generative model and the
    Go tool server) and keep one piece of state (the [chatSessions] map).  The
    embedding threads a store through the handlers, records every outbound
    call in a trace, and takes the answers of the two services from a [World]
    that the theorems quantify over.  Console logging is not modelled. *)

From Stdlib Require Import ZArith NArith Ascii String Bool Lia DecimalString.
From stdpp Require Import base list.

Local Open Scope list_scope.
Set Warnings "-register-all".

(** ** JavaScript strings

    A JavaScript string is a sequence of UTF-16 code units. *)

Definition jsstring := list N.

(** The code units of an ASCII literal of the source. *)
Definition js (s : string) : jsstring :=
  (fun a => N_of_ascii a) <$> list_ascii_of_string s.

(** [WhiteSpace] and [LineTerminator] of ECMAScript: what [trim] and the
    argument scan of [parseInt] skip. *)
Definition is_white_space (c : N) : bool :=
  ((9 <=? c) && (c <=? 13) || (c =? 32) || (c =? 160) || (c =? 5760)
   || (8192 <=? c) && (c <=? 8202) || (c =? 8232) || (c =? 8233)
   || (c =? 8239) || (c =? 8287) || (c =? 12288) || (c =? 65279))%N.

Fixpoint trimStart (s : jsstring) : jsstring :=
  match s with
  | c :: s' => if is_white_space c then trimStart s' else s
  | [] => []
  end.

Definition trimEnd (s : jsstring) : jsstring := rev (trimStart (rev s)).

(** [String.prototype.trim] *)
Definition trim (s : jsstring) : jsstring := trimEnd (trimStart s).

(** [String.prototype.startsWith] *)
Fixpoint startsWith (s pat : jsstring) {struct pat} : bool :=
  match pat with
  | [] => true
  | p :: pat' =>
      match s with
      | c :: s' => (c =? p)%N && startsWith s' pat'
      | [] => false
      end
  end.

(** [String.prototype.replace] with a string pattern and a replacement
    without [$]: only the first occurrence is replaced. *)
Fixpoint replace (s pat rep : jsstring) : jsstring :=
  if startsWith s pat then rep ++ drop (length pat) s
  else match s with
       | c :: s' => c :: replace s' pat rep
       | [] => []
       end.

(** [s.replace(/```json\n|```/g, "")]: the global scan of the regular
    expression.  At each position the first alternative is tried before the
    second; a match is deleted and the scan resumes after it.  [skip] counts
    the code units of the current match still to delete. *)
Definition fence : jsstring := Eval cbv in js "```".
Definition fence_json : jsstring := Eval cbv in js "```json" ++ [10%N].

Fixpoint replace_fences_from (skip : nat) (s : jsstring) : jsstring :=
  match s with
  | [] => []
  | c :: s' =>
      match skip with
      | S k => replace_fences_from k s'
      | O =>
          if startsWith s fence_json then replace_fences_from 7 s'
          else if startsWith s fence then replace_fences_from 2 s'
          else c :: replace_fences_from 0 s'
      end
  end.

Definition replace_fences (s : jsstring) : jsstring := replace_fences_from 0 s.

(** [const cleanedReply = finalReplyText.replace(/```json\n|```/g, "").trim();] *)
Definition cleanedReply (finalReplyText : jsstring) : jsstring :=
  trim (replace_fences finalReplyText).

(** ** JavaScript numbers

    The handlers produce numbers only through [parseInt], so a number is
    [NaN], an infinity, or an integer-valued double.  Negative zero is
    identified with zero (both are serialised as [0] by [res.json]).  A
    number with a fractional part, which [JSON.parse] can produce, has no
    representation here; the handlers read a number they are given only
    through its conversion to a string, which is left to the [World]. *)

Inductive number :=
  | NaN
  | Infinity (negative : bool)
  | Num (z : Z).

(** The double nearest to a non-negative integer: 53 significant bits, ties
    to even, overflow to infinity at [2^1024]. *)
Definition round53 (m : Z) : Z :=
  let e := (Z.log2 m - 52)%Z in
  if (e <=? 0)%Z then m
  else
    let q := Z.shiftr m e in
    let r := Z.land m (Z.ones e) in
    let half := Z.shiftl 1 (e - 1) in
    let q' := if (half <? r)%Z || ((r =? half)%Z && Z.odd q) then (q + 1)%Z else q in
    Z.shiftl q' e.

Definition to_Number (negative : bool) (m : Z) : number :=
  let r := round53 m in
  if (2 ^ 1024 <=? r)%Z then Infinity negative
  else Num (if negative then (- r)%Z else r).

(** The value of a code unit as a digit in the given radix. *)
Definition digit_value (radix : Z) (c : N) : option Z :=
  let d :=
    if ((48 <=? c) && (c <=? 57))%N then Some (Z.of_N c - 48)%Z
    else if ((97 <=? c) && (c <=? 122))%N then Some (Z.of_N c - 87)%Z
    else if ((65 <=? c) && (c <=? 90))%N then Some (Z.of_N c - 55)%Z
    else None in
  match d with
  | Some v => if (v <? radix)%Z then Some v else None
  | None => None
  end.

(** The longest prefix of digits, accumulated left to right; [None] when the
    prefix is empty. *)
Fixpoint parse_digits (radix : Z) (acc : option Z) (s : jsstring) : option Z :=
  match s with
  | c :: s' =>
      match digit_value radix c with
      | Some v => parse_digits radix (Some (default 0%Z acc * radix + v)%Z) s'
      | None => acc
      end
  | [] => acc
  end.

(** [parseInt(string)] with the radix left out: leading white space, an
    optional sign, an optional [0x] or [0X] prefix, then digits. *)
Definition parseInt_string (inputString : jsstring) : number :=
  let S0 := trimStart inputString in
  let negative := startsWith S0 [45%N] in
  let S1 := if negative || startsWith S0 [43%N] then drop 1 S0 else S0 in
  let hex := startsWith S1 [48%N; 120%N] || startsWith S1 [48%N; 88%N] in
  let R := if hex then 16%Z else 10%Z in
  let S2 := if hex then drop 2 S1 else S1 in
  match parse_digits R None S2 with
  | None => NaN
  | Some mathInt => to_Number negative mathInt
  end.

(** ** JavaScript values as they come out of [JSON.parse] and go into
    [res.json] *)

Inductive value :=
  | VUndefined
  | VNull
  | VBool (b : bool)
  | VNum (n : number)
  | VStr (s : jsstring)
  | VArr (elements : list value)
  | VObj (fields : list (jsstring * value)).

(** Abrupt completion: a JavaScript expression either yields a value or
    throws.  The thrown value is dropped: both [catch] blocks only log it. *)
Inductive completion (A : Type) :=
  | Normal (a : A)
  | Throw.
Arguments Normal {A} a.
Arguments Throw {A}.

#[export] Instance completion_ret : MRet completion := @Normal.
#[export] Instance completion_bind : MBind completion :=
  fun A B f c => match c with Normal a => f a | Throw => Throw end.

(** Conversion to boolean, as [!x] and [||] apply it. *)
Definition truthy (v : value) : bool :=
  match v with
  | VUndefined | VNull => false
  | VBool b => b
  | VNum (Num z) => negb (z =? 0)%Z
  | VNum NaN => false
  | VNum (Infinity _) => true
  | VStr s => negb (bool_decide (s = []))
  | VArr _ | VObj _ => true
  end.

(** Own property of an object, [undefined] when absent.  The fields of an
    object carry distinct keys, in insertion order. *)
Fixpoint lookup_field (k : jsstring) (fields : list (jsstring * value)) : value :=
  match fields with
  | [] => VUndefined
  | (k', v) :: rest => if bool_decide (k = k') then v else lookup_field k rest
  end.

(** [v.k] for the property names of the source, none of which is inherited
    from a prototype: reading a property of [undefined] or [null] throws a
    [TypeError]; a primitive or an array has no such property. *)
Definition get (v : value) (k : string) : completion value :=
  match v with
  | VUndefined | VNull => Throw
  | VObj fields => Normal (lookup_field (js k) fields)
  | VBool _ | VNum _ | VStr _ | VArr _ => Normal VUndefined
  end.

(** [v[0]] *)
Definition get0 (v : value) : completion value :=
  match v with
  | VUndefined | VNull => Throw
  | VArr elements => Normal (default VUndefined (head elements))
  | VStr s => Normal (match s with c :: _ => VStr [c] | [] => VUndefined end)
  | VObj fields => Normal (lookup_field (js "0") fields)
  | VBool _ | VNum _ => Normal VUndefined
  end.

(** [x.startsWith(pat)] and [x.replace(pat, rep)] on a value read from parsed
    JSON: only a string has these methods; on anything else the call throws a
    [TypeError]. *)
Definition call_startsWith (x : value) (pat : jsstring) : completion bool :=
  match x with
  | VStr s => Normal (startsWith s pat)
  | _ => Throw
  end.

Definition call_replace (x : value) (pat rep : jsstring) : completion jsstring :=
  match x with
  | VStr s => Normal (replace s pat rep)
  | _ => Throw
  end.

(** [Array.prototype.filter] and [Array.prototype.map] with a callback that
    may throw; on a value that is not an array the method call throws. *)
Fixpoint filter_elements (f : value -> completion bool) (l : list value)
  : completion (list value) :=
  match l with
  | [] => Normal []
  | x :: rest =>
      keep ← f x;
      rest' ← filter_elements f rest;
      Normal (if keep : bool then x :: rest' else rest')
  end.

Fixpoint map_elements (f : value -> completion value) (l : list value)
  : completion (list value) :=
  match l with
  | [] => Normal []
  | x :: rest =>
      y ← f x;
      rest' ← map_elements f rest;
      Normal (y :: rest')
  end.

Definition call_filter (x : value) (f : value -> completion bool)
  : completion (list value) :=
  match x with
  | VArr elements => filter_elements f elements
  | _ => Throw
  end.

(** ** The HTTP surface *)

Record HttpResponse := { status : nat; body : value }.

(** [res.json(x)] answers with status 200 unless [res.status] was called. *)
Definition res_json (x : value) : HttpResponse := {| status := 200; body := x |}.
Definition res_status_json (code : nat) (x : value) : HttpResponse :=
  {| status := code; body := x |}.

Definition error_body (msg : string) : value := VObj [(js "error", VStr (js msg))].

(** ** The model and the tool server *)

(** A tool invocation requested by the model. *)
Record FunctionCall := { fc_name : jsstring; fc_args : value }.

(** [result.response] of the model SDK: [functionCalls()] yields [undefined]
    or an array, [text()] a string; either may throw. *)
Record GenerateContentResponse := {
  functionCalls : completion (option (list FunctionCall));
  text : completion jsstring
}.

(** One entry of the array sent back to the model. *)
Record FunctionResponse := { fr_name : jsstring; fr_response : value }.

(** The argument of [chat.sendMessage]. *)
Inductive ChatMessage :=
  | UserMessage (message : value)
  | FunctionResponses (functionResponses : list FunctionResponse).

(** An entry of a chat history.  [systemInstruction] is the fixed persona
    prompt of the source; no handler inspects it. *)
Inductive Content :=
  | systemInstruction
  | FromUser (m : ChatMessage)
  | FromModel (r : GenerateContentResponse).

(** The second and third argument of [axios.post], and what it resolves to. *)
Record AxiosRequest := {
  post_url : jsstring;
  post_data : value;
  post_headers : list (string * value)
}.

Record AxiosResponse := { data : value }.

Definition GO_ADK_URL : string := "http://localhost:8080".

(** The names declared to the model in [tools]. *)
Definition tools : list jsstring :=
  [js "fetch_net_worth"; js "fetch_credit_report"; js "fetch_epf_details";
   js "fetch_mf_transactions"; js "fetch_bank_transactions";
   js "fetch_stock_transactions"].

(** Everything outside [index.js].  The two services answer a call by its
    sequence number (the number of outbound calls made before it) and its
    argument, so an answer may depend on anything that happened earlier.
    [JSON_parse] and [Number_toString] are the built-ins of the runtime that
    the embedding does not re-implement. *)
Record World := {
  generateContent : nat -> list Content -> completion GenerateContentResponse;
  go_adk : nat -> AxiosRequest -> completion AxiosResponse;
  JSON_parse : jsstring -> completion value;
  Number_toString : number -> jsstring
}.

(** Whether an object has an own field [k]; a field of a parsed value
    never holds [undefined]. *)
Definition has_field (k : jsstring) (fields : list (jsstring * value)) : bool :=
  match lookup_field k fields with
  | VUndefined => false
  | _ => true
  end.

(** [ToString] of a value that came out of [JSON.parse]; it may throw.  An
    object prints as [[object Object]] through the [toString] it inherits;
    an own field of that name hides the inherited method and, not being a
    function, leaves the conversion without a result: a [TypeError].  An
    array is joined with commas, its elements converted in turn, [undefined]
    and [null] elements printing as nothing. *)
Fixpoint ToString (w : World) (v : value) : completion jsstring :=
  match v with
  | VUndefined => Normal (js "undefined")
  | VNull => Normal (js "null")
  | VBool true => Normal (js "true")
  | VBool false => Normal (js "false")
  | VNum n => Normal (Number_toString w n)
  | VStr s => Normal s
  | VArr elements =>
      let element x :=
        match x with
        | VUndefined | VNull => Normal []
        | _ => ToString w x
        end in
      (fix join (l : list value) : completion jsstring :=
         match l with
         | [] => Normal []
         | [x] => element x
         | x :: rest =>
             match element x with
             | Normal s =>
                 match join rest with
                 | Normal t => Normal (s ++ js "," ++ t)
                 | Throw => Throw
                 end
             | Throw => Throw
             end
         end) elements
  | VObj fields =>
      if has_field (js "toString") fields then Throw else Normal (js "[object Object]")
  end.

(** A template literal [`... ${x}`] handed to [console.log]: [x] is
    converted to a string, which may throw; what is printed is dropped. *)
Definition template_literal (w : World) (x : value) : completion unit :=
  _ ← ToString w x; Normal tt.

(** [parseInt(v)] and [JSON.parse(v)] convert their argument to a string
    first, and throw when the conversion throws. *)
Definition parseInt (w : World) (v : value) : completion number :=
  inputString ← ToString w v;
  Normal (parseInt_string inputString).

Definition JSON_parse_value (w : World) (v : value) : completion value :=
  txt ← ToString w v;
  JSON_parse w txt.

(** ** The store

    [chatSessions] is a [Map] from session identifiers to chat objects.  A
    chat object is mutable and the map holds a reference to it, so the store
    keeps the objects in [chats] and the map holds indices into it.  [trace]
    lists the outbound calls in the order they were issued, each with the
    way it settles. *)

Inductive Event :=
  | ModelCall (chat : nat) (contents : list Content)
      (reply : completion GenerateContentResponse)
  | RelayCall (request : AxiosRequest) (reply : completion AxiosResponse).

Record Store := {
  chatSessions : list (value * nat);
  chats : list (list Content);
  trace : list Event
}.

(** Key equality of [Map] ([SameValueZero]).  Objects and arrays are equal
    only to themselves; a key read from a request is a freshly parsed object,
    never identical with a key stored by an earlier request. *)
Definition same_value_zero (x y : value) : bool :=
  match x, y with
  | VUndefined, VUndefined | VNull, VNull => true
  | VBool a, VBool b => Bool.eqb a b
  | VNum NaN, VNum NaN => true
  | VNum (Infinity a), VNum (Infinity b) => Bool.eqb a b
  | VNum (Num a), VNum (Num b) => (a =? b)%Z
  | VStr a, VStr b => bool_decide (a = b)
  | _, _ => false
  end.

Fixpoint Map_get {V} (m : list (value * V)) (k : value) : option V :=
  match m with
  | [] => None
  | (k', v) :: rest => if same_value_zero k' k then Some v else Map_get rest k
  end.

Definition Map_has {V} (m : list (value * V)) (k : value) : bool :=
  match Map_get m k with
  | Some _ => true
  | None => false
  end.

Fixpoint Map_set {V} (m : list (value * V)) (k : value) (v : V) : list (value * V) :=
  match m with
  | [] => [(k, v)]
  | (k', v') :: rest =>
      if same_value_zero k' k then (k', v) :: rest else (k', v') :: Map_set rest k v
  end.

(** ** Handlers as store transformers

    A computation runs on a store and either completes (normally or by a
    throw) with the store it leaves, or does not finish within the fuel. *)

Definition M (A : Type) : Type := Store -> option (completion A * Store).

#[export] Instance M_ret : MRet M := fun A a st => Some (Normal a, st).
#[export] Instance M_bind : MBind M := fun A B f m st =>
  match m st with
  | Some (Normal a, st') => f a st'
  | Some (Throw, st') => Some (Throw, st')
  | None => None
  end.

Definition lift {A} (c : completion A) : M A := fun st => Some (c, st).

Definition out_of_fuel {A} : M A := fun _ => None.

(** [try { body } catch (error) { handler }] *)
Definition try_catch {A} (body handler : M A) : M A := fun st =>
  match body st with
  | Some (Throw, st') => handler st'
  | r => r
  end.

(** The store after further outbound calls. *)
Definition add_events (st : Store) (evs : list Event) : Store :=
  {| chatSessions := chatSessions st; chats := chats st; trace := trace st ++ evs |}.

Definition emit (e : Event) : M unit := fun st => Some (Normal tt, add_events st [e]).

Definition sequence_number : M nat := fun st => Some (Normal (length (trace st)), st).

(** [axios.post(url, data, config)]: the request goes out and a promise comes
    back, represented by the way it settles. *)
Definition axios_post (w : World) (request : AxiosRequest)
  : M (completion AxiosResponse) :=
  n ← sequence_number;
  let promise := go_adk w n request in
  _ ← emit (RelayCall request promise);
  mret promise.

(** [requests.map(r => axios.post(...))] *)
Fixpoint post_each (w : World) (requests : list AxiosRequest)
  : M (list (completion AxiosResponse)) :=
  match requests with
  | [] => mret []
  | r :: rest =>
      p ← axios_post w r;
      ps ← post_each w rest;
      mret (p :: ps)
  end.

(** [await Promise.all(promises)]: all the values, or a throw as soon as one
    promise is rejected. *)
Fixpoint Promise_all {A} (promises : list (completion A)) : completion (list A) :=
  match promises with
  | [] => Normal []
  | p :: rest =>
      a ← p;
      l ← Promise_all rest;
      Normal (a :: l)
  end.

(** The call both handlers make for a tool ([index.js] lines 90-104 and
    165-169). *)
Definition tools_call (sessionId : value) (toolName : jsstring) : AxiosRequest :=
  {| post_url := js GO_ADK_URL ++ js "/mcp/stream";
     post_data :=
       VObj [(js "jsonrpc", VStr (js "2.0"));
             (js "id", VNum (Num 1));
             (js "method", VStr (js "tools/call"));
             (js "params", VObj [(js "name", VStr toolName);
                                 (js "arguments", VObj [])])];
     post_headers :=
       [("Content-Type"%string, VStr (js "application/json"));
        ("Mcp-Session-Id"%string, sessionId)] |}.

(** ** The chat session of the model SDK *)

(** [model.startChat({ history: [systemInstruction] })]: a new chat object. *)
Definition startChat : M nat := fun st =>
  Some (Normal (length (chats st)),
        {| chatSessions := chatSessions st;
           chats := chats st ++ [[systemInstruction]];
           trace := trace st |}).

(** Modelled from the spec: the chat session of the model SDK, an external
    collaborator whose code is not part of the repository (sections 3 and
    4.3: a conversational state that is the ordered history of exchanged
    messages).  [chat.sendMessage(request)] calls the model with the history
    followed by the new message; when the call succeeds the message and the
    answer are appended to the history of that chat object, when it fails
    the history is left as it was and the failure is thrown. *)
Definition sendMessage (w : World) (chat : nat) (request : ChatMessage)
  : M GenerateContentResponse := fun st =>
  match chats st !! chat with
  | None => Some (Throw, st)
  | Some history =>
      let contents := history ++ [FromUser request] in
      let reply := generateContent w (length (trace st)) contents in
      let tr := trace st ++ [ModelCall chat contents reply] in
      match reply with
      | Normal r =>
          Some (Normal r,
                {| chatSessions := chatSessions st;
                   chats := <[chat := contents ++ [FromModel r]]> (chats st);
                   trace := tr |})
      | Throw =>
          Some (Throw,
                {| chatSessions := chatSessions st; chats := chats st; trace := tr |})
      end
  end.

Definition chatSessions_set (sessionId : value) (chat : nat) : M unit := fun st =>
  Some (Normal tt,
        {| chatSessions := Map_set (chatSessions st) sessionId chat;
           chats := chats st;
           trace := trace st |}).

Definition chatSessions_has (sessionId : value) : M bool := fun st =>
  Some (Normal (Map_has (chatSessions st) sessionId), st).

(** [chatSessions.get(sessionId)]; the handler calls it only after [has]
    answered [true]. *)
Definition chatSessions_get (sessionId : value) : M nat := fun st =>
  match Map_get (chatSessions st) sessionId with
  | Some chat => Some (Normal chat, st)
  | None => Some (Throw, st)
  end.

(** ** [app.post('/api/chat', ...)] *)

(** [toolResponses.map((toolResponse, i) => ({ functionResponse: { name:
    functionCalls[i].name, response: toolResponse.data } }))] *)
Fixpoint functionResponses_of (calls : list FunctionCall) (toolResponses : list AxiosResponse)
  : list FunctionResponse :=
  match toolResponses, calls with
  | toolResponse :: rest, call :: calls' =>
      {| fr_name := fc_name call; fr_response := data toolResponse |}
        :: functionResponses_of calls' rest
  | _, _ => []
  end.

(** The [while (true)] loop of the handler; one unit of fuel per iteration. *)
Fixpoint reasoning_loop (fuel : nat) (w : World) (sessionId : value) (chat : nat)
    (result : GenerateContentResponse) : M GenerateContentResponse :=
  match fuel with
  | O => out_of_fuel
  | S fuel' =>
      calls ← lift (functionCalls result);
      match calls with
      | None | Some [] => mret result
      | Some calls =>
          toolPromises ← post_each w (map (fun call => tools_call sessionId (fc_name call)) calls);
          toolResponses ← lift (Promise_all toolPromises);
          let functionResponses := functionResponses_of calls toolResponses in
          result' ← sendMessage w chat (FunctionResponses functionResponses);
          reasoning_loop fuel' w sessionId chat result'
      end
  end.

(** Lines 62-70: the chat of the session, created on first use, after the
    log line of line 66 has printed the identifier. *)
Definition session_chat (w : World) (sessionId : value) : M nat :=
  known ← chatSessions_has sessionId;
  if known : bool then chatSessions_get sessionId
  else
    _ ← lift (template_literal w sessionId);
    chat ← startChat;
    _ ← chatSessions_set sessionId chat;
    mret chat.

Definition chat_handler (fuel : nat) (w : World) (req_body : value) : M HttpResponse :=
  try_catch
    (message ← lift (get req_body "message");
     sessionId ← lift (get req_body "sessionId");
     if negb (truthy message) || negb (truthy sessionId) then
       mret (res_status_json 400 (error_body "Message and sessionId are required."))
     else
       chat ← session_chat w sessionId;
       result ← sendMessage w chat (UserMessage message);
       result ← reasoning_loop fuel w sessionId chat result;
       finalReplyText ← lift (text result);
       mret (res_json (VObj [(js "reply", VStr (cleanedReply finalReplyText))])))
    (mret (res_status_json 500 (error_body "An internal server error occurred."))).

(** ** [app.get('/api/dashboard', ...)] *)

Definition toolsToFetch : list jsstring :=
  [js "fetch_net_worth"; js "fetch_credit_report"].

(** [JSON.parse(toolResponse.data.result.content[0].text)] *)
Definition parse_tool_text (w : World) (toolResponse : option AxiosResponse)
  : completion value :=
  match toolResponse with
  | None => Throw
  | Some toolResponse =>
      result ← get (data toolResponse) "result";
      content ← get result "content";
      first ← get0 content;
      txt ← get first "text";
      JSON_parse_value w txt
  end.

(** [item => !item.netWorthAttribute.startsWith("LIABILITY_TYPE")] *)
Definition is_not_liability (item : value) : completion bool :=
  attribute ← get item "netWorthAttribute";
  liability ← call_startsWith attribute (js "LIABILITY_TYPE");
  Normal (negb liability).

(** [asset => ({ type: asset.netWorthAttribute.replace("ASSET_TYPE_",
    "").replace("_", " "), value: parseInt(asset.value.units) })] *)
Definition shape_asset (w : World) (asset : value) : completion value :=
  attribute ← get asset "netWorthAttribute";
  stripped ← call_replace attribute (js "ASSET_TYPE_") (js "");
  let type := replace stripped (js "_") (js " ") in
  val ← get asset "value";
  units ← get val "units";
  parsed ← parseInt w units;
  Normal (VObj [(js "type", VStr type); (js "value", VNum parsed)]).

Definition dashboardData (w : World) (netWorthRaw creditReportRaw : value)
  : completion value :=
  netWorthResponse ← get netWorthRaw "netWorthResponse";
  totalNetWorthValue ← get netWorthResponse "totalNetWorthValue";
  units ← get totalNetWorthValue "units";
  netWorthValue ← parseInt w units;
  netWorthResponse ← get netWorthRaw "netWorthResponse";
  assetValues ← get netWorthResponse "assetValues";
  kept ← call_filter assetValues is_not_liability;
  assetsArray ← map_elements (shape_asset w) kept;
  creditReports ← get creditReportRaw "creditReports";
  report ← get0 creditReports;
  creditReportData ← get report "creditReportData";
  score ← get creditReportData "score";
  bureauScore ← get score "bureauScore";
  creditScoreValue ← parseInt w bureauScore;
  Normal (VObj [(js "netWorth", VNum netWorthValue);
                (js "assets", VArr assetsArray);
                (js "creditScore", VNum creditScoreValue)]).

(** The handler; the log line of line 158 prints the identifier before the
    first relay call goes out. *)
Definition dashboard_handler (w : World) (req_query : value) : M HttpResponse :=
  try_catch
    (sessionId ← lift (get req_query "sessionId");
     if negb (truthy sessionId) then
       mret (res_status_json 400 (error_body "sessionId is required."))
     else
       _ ← lift (template_literal w sessionId);
       toolPromises ← post_each w (map (tools_call sessionId) toolsToFetch);
       toolResponses ← lift (Promise_all toolPromises);
       netWorthRaw ← lift (parse_tool_text w (toolResponses !! 0));
       creditReportRaw ← lift (parse_tool_text w (toolResponses !! 1));
       shaped ← lift (dashboardData w netWorthRaw creditReportRaw);
       mret (res_json shaped))
    (mret (res_status_json 500 (error_body "Failed to fetch dashboard data."))).

(** ** The server: requests handled one after the other *)

Inductive Request :=
  | PostChat (req_body : value)
  | GetDashboard (req_query : value).

Definition handle (fuel : nat) (w : World) (r : Request) : M HttpResponse :=
  match r with
  | PostChat req_body => chat_handler fuel w req_body
  | GetDashboard req_query => dashboard_handler w req_query
  end.

(** The store of a server that has just started. *)
Definition initial : Store := {| chatSessions := []; chats := []; trace := [] |}.

(** ** Notions used to state the properties *)

(** [pat] occurs in [s] as a substring. *)
Definition occurs (pat s : jsstring) : Prop :=
  exists pre post, s = pre ++ pat ++ post.

(** A boolean search for [pat], position by position. *)
Fixpoint occursb (pat s : jsstring) : bool :=
  startsWith s pat ||
  match s with
  | [] => false
  | _ :: s' => occursb pat s'
  end.

(** The relay calls of one batch, numbered from [n], and the promises they
    return. *)
Fixpoint batch_events (w : World) (n : nat) (requests : list AxiosRequest) : list Event :=
  match requests with
  | [] => []
  | r :: rest => RelayCall r (go_adk w n r) :: batch_events w (S n) rest
  end.

Fixpoint batch_promises (w : World) (n : nat) (requests : list AxiosRequest)
  : list (completion AxiosResponse) :=
  match requests with
  | [] => []
  | r :: rest => go_adk w n r :: batch_promises w (S n) rest
  end.

(** A model response that asks for no tool. *)
Definition no_calls (r : GenerateContentResponse) : Prop :=
  functionCalls r = Normal None \/ functionCalls r = Normal (Some []).

(** The history a chat request on [sessionId] starts from: that of the
    registered chat, or the initial one of a chat about to be created. *)
Definition session_history (st : Store) (sessionId : value) : option (list Content) :=
  match Map_get (chatSessions st) sessionId with
  | Some chat => chats st !! chat
  | None => Some [systemInstruction]
  end.

(** The chat object a chat request on [sessionId] talks to. *)
Definition session_index (st : Store) (sessionId : value) : nat :=
  match Map_get (chatSessions st) sessionId with
  | Some chat => chat
  | None => length (chats st)
  end.

(** The relay calls for the tool invocations [calls], one per invocation and
    in their order, each with the promise it returned. *)
Definition relay_calls (sessionId : value) (calls : list FunctionCall)
    (promises : list (completion AxiosResponse)) : list Event :=
  zip_with (fun call p => RelayCall (tools_call sessionId (fc_name call)) p) calls promises.

(** The protocol of section 4.1, written from the words of the spec: what
    follows a model call that settled as [reply].  While the response asks
    for one or more tools, one relay call per request is issued, all results
    are awaited and sent back in one combined message, and the answer to that
    message is treated the same way.  The last index is how the exchange ends:
    with the first response that asks for no tool, or with a failure. *)
Inductive rounds (sessionId : value) (chat : nat)
  : completion GenerateContentResponse -> list Event
    -> completion GenerateContentResponse -> Prop :=
  | rounds_model_failed :
      rounds sessionId chat Throw [] Throw
  | rounds_malformed r :
      functionCalls r = Throw ->
      rounds sessionId chat (Normal r) [] Throw
  | rounds_final r :
      no_calls r ->
      rounds sessionId chat (Normal r) [] (Normal r)
  | rounds_relay_failed r calls promises :
      functionCalls r = Normal (Some calls) -> calls <> [] ->
      length promises = length calls ->
      Promise_all promises = Throw ->
      rounds sessionId chat (Normal r) (relay_calls sessionId calls promises) Throw
  | rounds_next r calls promises toolResponses contents reply evs out :
      functionCalls r = Normal (Some calls) -> calls <> [] ->
      length promises = length calls ->
      Promise_all promises = Normal toolResponses ->
      last contents
        = Some (FromUser (FunctionResponses (functionResponses_of calls toolResponses))) ->
      rounds sessionId chat reply evs out ->
      rounds sessionId chat (Normal r)
        (relay_calls sessionId calls promises ++ ModelCall chat contents reply :: evs) out.

(** The calls [evs], the first of which has the sequence number [n], are
    settled as the world answers them: each model call with the answer of the
    model to the contents it sent, each relay call with the answer of the
    tool server to its request. *)
Fixpoint answered (w : World) (n : nat) (evs : list Event) : Prop :=
  match evs with
  | [] => True
  | e :: rest =>
      match e with
      | ModelCall _ contents reply => reply = generateContent w n contents
      | RelayCall request reply => reply = go_adk w n request
      end /\ answered w (S n) rest
  end.

(** A model response that asks for at least one tool, and a model that,
    from the call number [bound] on, answers tool results without asking for
    more tools. *)
Definition asks_for_tools (r : GenerateContentResponse) : Prop :=
  exists call calls, functionCalls r = Normal (Some (call :: calls)).

Definition settles (w : World) (bound : nat) : Prop :=
  forall n contents functionResponses r,
    bound <= n ->
    last contents = Some (FromUser (FunctionResponses functionResponses)) ->
    generateContent w n contents = Normal r ->
    ~ asks_for_tools r.

(** The value of a header of a request. *)
Fixpoint header (name : string) (headers : list (string * value)) : option value :=
  match headers with
  | [] => None
  | (k, v) :: rest => if String.eqb k name then Some v else header name rest
  end.

(** The number of tool invocations a settled model call asks for. *)
Definition requested (e : Event) : nat :=
  match e with
  | ModelCall _ _ (Normal r) =>
      match functionCalls r with
      | Normal (Some calls) => length calls
      | _ => 0
      end
  | _ => 0
  end.

Definition is_relay (e : Event) : bool :=
  match e with
  | RelayCall _ _ => true
  | ModelCall _ _ _ => false
  end.

(** The number of relay calls in a trace. *)
Definition relay_count (evs : list Event) : nat := length (List.filter is_relay evs).

(** An outbound call that failed. *)
Definition failed (e : Event) : bool :=
  match e with
  | ModelCall _ _ Throw | RelayCall _ Throw => true
  | _ => false
  end.

(** [st'] continues [st]: calls were added to the trace, entries to the
    registry, chat objects to the store, and messages to histories; nothing
    was removed. *)
Definition extends (st st' : Store) : Prop :=
  (exists added, chatSessions st' = chatSessions st ++ added) /\
  (exists evs, trace st' = trace st ++ evs) /\
  (forall chat h, chats st !! chat = Some h ->
     exists h', chats st' !! chat = Some (h ++ h')).

(** Every chat the registry leads to is in the store. *)
Definition well_formed (st : Store) : Prop :=
  forall sessionId chat,
    Map_get (chatSessions st) sessionId = Some chat -> is_Some (chats st !! chat).

(** A sequence of requests, each with the fuel it runs on, handled one after
    the other; [None] when one of them does not finish. *)
Fixpoint serve (w : World) (requests : list (nat * Request)) (st : Store) : option Store :=
  match requests with
  | [] => Some st
  | (fuel, r) :: rest =>
      match handle fuel w r st with
      | Some (_, st') => serve w rest st'
      | None => None
      end
  end.

(** The store after the model answered [reply] to [contents] on [chat]. *)
Definition after_model_call (st : Store) (chat : nat) (contents : list Content)
    (reply : completion GenerateContentResponse) : Store :=
  {| chatSessions := chatSessions st;
     chats := match reply with
              | Normal r => <[chat := contents ++ [FromModel r]]> (chats st)
              | Throw => chats st
              end;
     trace := trace st ++ [ModelCall chat contents reply] |}.

(** The store once the session of [sessionId] has its chat. *)
Definition with_session (st : Store) (sessionId : value) : Store :=
  match Map_get (chatSessions st) sessionId with
  | Some _ => st
  | None =>
      {| chatSessions := chatSessions st ++ [(sessionId, length (chats st))];
         chats := chats st ++ [[systemInstruction]];
         trace := trace st |}
  end.

(** The three answers of the chat endpoint and the three of the dashboard
    endpoint. *)
Definition chat_bad_request : HttpResponse :=
  res_status_json 400 (error_body "Message and sessionId are required.").
Definition chat_error : HttpResponse :=
  res_status_json 500 (error_body "An internal server error occurred.").
Definition chat_reply (finalReplyText : jsstring) : HttpResponse :=
  res_json (VObj [(js "reply", VStr (cleanedReply finalReplyText))]).

Definition dashboard_bad_request : HttpResponse :=
  res_status_json 400 (error_body "sessionId is required.").
Definition dashboard_error : HttpResponse :=
  res_status_json 500 (error_body "Failed to fetch dashboard data.").

(** How the chat endpoint answers an exchange that ended as [out]. *)
Definition chat_answer (out : completion GenerateContentResponse) : HttpResponse :=
  match out with
  | Normal final =>
      match text final with
      | Normal finalReplyText => chat_reply finalReplyText
      | Throw => chat_error
      end
  | Throw => chat_error
  end.

(** How the dashboard endpoint answers once its two relay calls have
    returned their promises. *)
Definition dashboard_answer (w : World) (toolPromises : list (completion AxiosResponse))
  : HttpResponse :=
  match (toolResponses ← Promise_all toolPromises;
         netWorthRaw ← parse_tool_text w (toolResponses !! 0);
         creditReportRaw ← parse_tool_text w (toolResponses !! 1);
         dashboardData w netWorthRaw creditReportRaw) with
  | Normal shaped => res_json shaped
  | Throw => dashboard_error
  end.

(** The field of a tool response that holds the tool result:
    [data.result.content[0].text]. *)
Definition nested_text (toolResponse : AxiosResponse) : completion value :=
  result ← get (data toolResponse) "result";
  content ← get result "content";
  first ← get0 content;
  get first "text".

(** [v.k1.k2...] *)
Fixpoint path (v : value) (keys : list string) : completion value :=
  match keys with
  | [] => Normal v
  | k :: rest => x ← get v k; path x rest
  end.

(** What [parseInt] reads in the field of [item] at [keys]. *)
Definition reads (w : World) (item : value) (keys : list string) (n : number) : Prop :=
  exists field, path item keys = Normal field /\ parseInt w field = Normal n.

(** An entry of [assetValues] as the dashboard reads it: its type tag and
    the number [parseInt] reads in the [units] of its value. *)
Definition describes (w : World) (item : value) (entry : jsstring * number) : Prop :=
  get item "netWorthAttribute" = Normal (VStr (fst entry)) /\
  reads w item ["value"; "units"]%string (snd entry).

(** An entry tagged as a liability. *)
Definition is_liability (entry : jsstring * number) : bool :=
  startsWith (fst entry) (js "LIABILITY_TYPE").

(** The label the dashboard gives a type tag: the first [ASSET_TYPE_] is
    removed, then the first underscore left becomes a space. *)
Definition label (tag : jsstring) : jsstring :=
  replace (replace tag (js "ASSET_TYPE_") (js "")) (js "_") (js " ").

(** The label as the spec words it: the tag with the fixed prefix stripped. *)
Definition strip_prefix (pre tag : jsstring) : jsstring :=
  if startsWith tag pre then drop (length pre) tag else tag.

(** The asset the dashboard reports for an entry. *)
Definition asset_of (entry : jsstring * number) : value :=
  VObj [(js "type", VStr (label (fst entry)));
        (js "value", VNum (snd entry))].

(** A decimal numeral and the integer it denotes. *)
Definition is_digit (c : N) : bool := ((48 <=? c) && (c <=? 57))%N.

Fixpoint numeral_value (acc : Z) (s : jsstring) : Z :=
  match s with
  | [] => acc
  | c :: s' => numeral_value (acc * 10 + (Z.of_N c - 48))%Z s'
  end.

(** Reading a property of [undefined] or [null] throws. *)
Definition nullish (v : value) : Prop := v = VUndefined \/ v = VNull.

(** The session identifier a request carries. *)
Definition request_session (r : Request) : value :=
  let carrier :=
    match r with
    | PostChat req_body => req_body
    | GetDashboard req_query => req_query
    end in
  match get carrier "sessionId" with
  | Normal sessionId => sessionId
  | Throw => VUndefined
  end.

(** A chat request that passes the input check of line 58, with the two
    fields it carries. *)
Definition chat_request (req_body message sessionId : value) : Prop :=
  get req_body "message" = Normal message /\
  get req_body "sessionId" = Normal sessionId /\
  truthy message = true /\ truthy sessionId = true.

(** A value whose conversion to a string cannot throw: neither an object
    with an own [toString] field nor an array that holds one.  Strings,
    numbers and the objects of a parsed query string are of this kind. *)
Fixpoint printable (v : value) : bool :=
  match v with
  | VObj fields => negb (has_field (js "toString") fields)
  | VArr elements =>
      (fix all (l : list value) : bool :=
         match l with
         | [] => true
         | x :: rest => printable x && all rest
         end) elements
  | _ => true
  end.

(** An identifier that gets a chat request past the log line of line 66:
    its session exists, so that the line is not reached, or the identifier
    can be printed. *)
Definition admitted (st : Store) (sessionId : value) : Prop :=
  Map_get (chatSessions st) sessionId = None -> printable sessionId = true.

(** A dashboard request that passes the input check of line 155 and whose
    identifier the log line of line 158 can print. *)
Definition dashboard_request (req_query sessionId : value) : Prop :=
  get req_query "sessionId" = Normal sessionId /\ truthy sessionId = true /\
  printable sessionId = true.

(** ** Notions for the further properties *)

(** The entries a history gains with completed exchanges: each message sent
    and the answer of the model to it. *)
Definition exchanges (turns : list (ChatMessage * GenerateContentResponse)) : list Content :=
  flat_map (fun turn => [FromUser (fst turn); FromModel (snd turn)]) turns.

(** A history as the handlers build it: the system instruction, then
    completed exchanges. *)
Definition conversation (h : list Content) : Prop :=
  exists turns, h = systemInstruction :: exchanges turns.

(** A store whose histories are conversations and whose calls to the model
    each sent a conversation followed by one new message. *)
Definition conversational (st : Store) : Prop :=
  (forall c h, chats st !! c = Some h -> conversation h) /\
  (forall c contents reply,
      ModelCall c contents reply ∈ trace st ->
      exists h m, conversation h /\ contents = h ++ [FromUser m]).

(** The [i]-th entry of the registry leads to the [i]-th chat object, and
    there are as many chat objects as entries. *)
Definition aligned (st : Store) : Prop :=
  length (chats st) = length (chatSessions st) /\
  forall i k chat, chatSessions st !! i = Some (k, chat) -> chat = i.

(** No entry of the registry has a key that an earlier entry already has. *)
Definition distinct_keys (st : Store) : Prop :=
  forall i k chat,
    chatSessions st !! i = Some (k, chat) -> Map_get (take i (chatSessions st)) k = None.

(** An entry of [assetValues] of which the dashboard reads the [units] only
    when its tag is not that of a liability. *)
Definition describes_kept (w : World) (item : value) (entry : jsstring * number) : Prop :=
  get item "netWorthAttribute" = Normal (VStr (fst entry)) /\
  (is_liability entry = false -> reads w item ["value"; "units"]%string (snd entry)).

(** ** Worlds for the examples *)

Module Examples.

(** JSON text of the examples, written with single quotes for the double
    quotes of JSON. *)
Definition jq (s : string) : jsstring :=
  (fun c => if (c =? 39)%N then 34%N else c) <$> js s.

(** [Number::toString] on the integers of the examples (below [10^21] the
    runtime prints the decimal numeral). *)
Definition number_to_string (n : number) : jsstring :=
  match n with
  | NaN => js "NaN"
  | Infinity false => js "Infinity"
  | Infinity true => js "-Infinity"
  | Num z => js (NilZero.string_of_int (Z.to_int z))
  end.

Definition is_json_space (c : N) : bool :=
  ((c =? 32) || (c =? 9) || (c =? 10) || (c =? 13))%N.

Fixpoint skip_space (s : jsstring) : jsstring :=
  match s with
  | c :: s' => if is_json_space c then skip_space s' else s
  | [] => []
  end.

(** The characters of a string literal up to its closing quote; no escape
    sequences. *)
Fixpoint json_string (s acc : jsstring) : option (jsstring * jsstring) :=
  match s with
  | [] => None
  | c :: s' =>
      if (c =? 34)%N then Some (rev acc, s')
      else if (c =? 92)%N || (c <? 32)%N then None
      else json_string s' (c :: acc)
  end.

Fixpoint json_digits (s : jsstring) (acc : Z) : Z * jsstring :=
  match s with
  | c :: s' =>
      if ((48 <=? c) && (c <=? 57))%N then json_digits s' (acc * 10 + (Z.of_N c - 48))%Z
      else (acc, s)
  | [] => (acc, [])
  end.

(** An integer literal; fractions and exponents are outside the fragment. *)
Definition json_number (negative : bool) (s : jsstring) : option (value * jsstring) :=
  match s with
  | c :: _ =>
      if ((48 <=? c) && (c <=? 57))%N then
        let '(z, rest) := json_digits s 0%Z in
        match rest with
        | 46%N :: _ | 101%N :: _ | 69%N :: _ => None
        | _ => Some (VNum (Num (if negative then (- z)%Z else z)), rest)
        end
      else None
  | [] => None
  end.

(** A repeated key keeps its place and takes the last value. *)
Fixpoint set_field (k : jsstring) (v : value) (fields : list (jsstring * value))
  : list (jsstring * value) :=
  match fields with
  | [] => [(k, v)]
  | (k', v') :: rest =>
      if bool_decide (k = k') then (k', v) :: rest else (k', v') :: set_field k v rest
  end.

Fixpoint json_value (fuel : nat) (s : jsstring) : option (value * jsstring) :=
  match fuel with
  | O => None
  | S fuel' =>
      match skip_space s with
      | 123%N :: rest =>
          match skip_space rest with
          | 125%N :: rest' => Some (VObj [], rest')
          | _ => json_members fuel' rest []
          end
      | 91%N :: rest =>
          match skip_space rest with
          | 93%N :: rest' => Some (VArr [], rest')
          | _ => json_elements fuel' rest []
          end
      | 34%N :: rest =>
          match json_string rest [] with
          | Some (str, rest') => Some (VStr str, rest')
          | None => None
          end
      | 45%N :: rest => json_number true rest
      | 116%N :: 114%N :: 117%N :: 101%N :: rest => Some (VBool true, rest)
      | 102%N :: 97%N :: 108%N :: 115%N :: 101%N :: rest => Some (VBool false, rest)
      | 110%N :: 117%N :: 108%N :: 108%N :: rest => Some (VNull, rest)
      | s' => json_number false s'
      end
  end
with json_elements (fuel : nat) (s : jsstring) (acc : list value)
  : option (value * jsstring) :=
  match fuel with
  | O => None
  | S fuel' =>
      match json_value fuel' s with
      | Some (v, rest) =>
          match skip_space rest with
          | 44%N :: rest' => json_elements fuel' rest' (v :: acc)
          | 93%N :: rest' => Some (VArr (rev (v :: acc)), rest')
          | _ => None
          end
      | None => None
      end
  end
with json_members (fuel : nat) (s : jsstring) (acc : list (jsstring * value))
  : option (value * jsstring) :=
  match fuel with
  | O => None
  | S fuel' =>
      match skip_space s with
      | 34%N :: rest =>
          match json_string rest [] with
          | Some (k, rest1) =>
              match skip_space rest1 with
              | 58%N :: rest2 =>
                  match json_value fuel' rest2 with
                  | Some (v, rest3) =>
                      match skip_space rest3 with
                      | 44%N :: rest4 => json_members fuel' rest4 (set_field k v acc)
                      | 125%N :: rest4 => Some (VObj (set_field k v acc), rest4)
                      | _ => None
                      end
                  | None => None
                  end
              | _ => None
              end
          | None => None
          end
      | _ => None
      end
  end.

(** [JSON.parse] on the fragment of JSON without escapes, fractions and
    exponents; a [SyntaxError] otherwise. *)
Definition json_parse (s : jsstring) : completion value :=
  match json_value (S (length s)) s with
  | Some (v, rest) =>
      match skip_space rest with
      | [] => Normal v
      | _ => Throw
      end
  | None => Throw
  end.

(** The tool a relay call asks for. *)
Definition requested_tool (request : AxiosRequest) : value :=
  match post_data request with
  | VObj fields =>
      match lookup_field (js "params") fields with
      | VObj params => lookup_field (js "name") params
      | _ => VUndefined
      end
  | _ => VUndefined
  end.

(** The envelope the tool server wraps a result in. *)
Definition tool_result (txt : jsstring) : AxiosResponse :=
  {| data :=
       VObj [(js "jsonrpc", VStr (js "2.0"));
             (js "id", VNum (Num 1));
             (js "result",
              VObj [(js "content",
                     VArr [VObj [(js "type", VStr (js "text"));
                                 (js "text", VStr txt)]])])] |}.

Definition net_worth_text : jsstring :=
  jq ("{'netWorthResponse': {'assetValues': ["
      ++ "{'netWorthAttribute': 'ASSET_TYPE_MUTUAL_FUND', 'value': {'currencyCode': 'INR', 'units': '84613'}}, "
      ++ "{'netWorthAttribute': 'ASSET_TYPE_EPF', 'value': {'currencyCode': 'INR', 'units': '211111'}}, "
      ++ "{'netWorthAttribute': 'LIABILITY_TYPE_VEHICLE_LOAN', 'value': {'currencyCode': 'INR', 'units': '5000'}}], "
      ++ "'totalNetWorthValue': {'currencyCode': 'INR', 'units': '658305'}}}").

Definition credit_report_text : jsstring :=
  jq ("{'creditReports': [{'creditReportData': {'score': "
      ++ "{'bureauScore': '746', 'bureauScoreConfidenceLevel': 'H'}}}]}").

(** A net worth result whose total has no [units] field. *)
Definition net_worth_without_units : jsstring :=
  jq ("{'netWorthResponse': {'assetValues': [], "
      ++ "'totalNetWorthValue': {'currencyCode': 'INR'}}}").

(** A net worth result whose total is not a numeral. *)
Definition net_worth_unknown_total : jsstring :=
  jq ("{'netWorthResponse': {'assetValues': [], "
      ++ "'totalNetWorthValue': {'currencyCode': 'INR', 'units': 'N/A'}}}").

(** A tool server that knows the two tools of the dashboard. *)
Definition tool_server (net_worth : jsstring) (n : nat) (request : AxiosRequest)
  : completion AxiosResponse :=
  if same_value_zero (requested_tool request) (VStr (js "fetch_net_worth"))
  then Normal (tool_result net_worth)
  else if same_value_zero (requested_tool request) (VStr (js "fetch_credit_report"))
  then Normal (tool_result credit_report_text)
  else Throw.

Definition asks_for (names : list string) : GenerateContentResponse :=
  {| functionCalls :=
       Normal (Some ((fun name => {| fc_name := js name; fc_args := VObj [] |}) <$> names));
     text := Normal [] |}.

Definition says (txt : jsstring) : GenerateContentResponse :=
  {| functionCalls := Normal None; text := Normal txt |}.

Definition fenced_answer : jsstring :=
  fence_json ++ jq "{'type': 'chart'}" ++ [10%N] ++ fence ++ [10%N].

(** A model that asks for the two tools when the user asks for a chart and
    answers everything else with a fenced text. *)
Definition model (n : nat) (contents : list Content)
  : completion GenerateContentResponse :=
  match last contents with
  | Some (FromUser (UserMessage (VStr s))) =>
      Normal (if bool_decide (s = js "chart my net worth")
              then asks_for ["fetch_net_worth"; "fetch_credit_report"]%string
              else says fenced_answer)
  | _ => Normal (says fenced_answer)
  end.

Definition world : World :=
  {| generateContent := model;
     go_adk := tool_server net_worth_text;
     JSON_parse := json_parse;
     Number_toString := number_to_string |}.

(** The same with a net worth result that lacks a field. *)
Definition world_without_units : World :=
  {| generateContent := generateContent world;
     go_adk := tool_server net_worth_without_units;
     JSON_parse := json_parse;
     Number_toString := number_to_string |}.

(** The same with a net worth result whose total is not a numeral. *)
Definition world_unknown_total : World :=
  {| generateContent := generateContent world;
     go_adk := tool_server net_worth_unknown_total;
     JSON_parse := json_parse;
     Number_toString := number_to_string |}.

(** A model and a tool server that are both unreachable. *)
Definition world_down : World :=
  {| generateContent := fun _ _ => Throw;
     go_adk := fun _ _ => Throw;
     JSON_parse := json_parse;
     Number_toString := number_to_string |}.

(** A model that is reachable while the tool server is not. *)
Definition world_tools_down : World :=
  {| generateContent := generateContent world;
     go_adk := fun _ _ => Throw;
     JSON_parse := json_parse;
     Number_toString := number_to_string |}.

(** A model that answers with a text without fence that has white space
    around it. *)
Definition padded_answer : jsstring := js " hello" ++ [10%N].

Definition world_padded : World :=
  {| generateContent := fun _ _ => Normal (says padded_answer);
     go_adk := go_adk world;
     JSON_parse := json_parse;
     Number_toString := number_to_string |}.

Definition chat_body (message sessionId : string) : value :=
  VObj [(js "message", VStr (js message)); (js "sessionId", VStr (js sessionId))].

Definition dashboard_query (sessionId : string) : value :=
  VObj [(js "sessionId", VStr (js sessionId))].

(** The store a computation leaves. *)
Definition store_after {A} (r : option (completion A * Store)) : Store :=
  match r with
  | Some (_, st) => st
  | None => initial
  end.

(** The store after a first message on session [s1], and after a dashboard
    request and a message on another session have followed. *)
Definition after_hello : Store :=
  Eval vm_compute in store_after (chat_handler 1 world (chat_body "hello" "s1") initial).

Definition after_others : Store :=
  Eval vm_compute in
    default initial
      (serve world [(1, GetDashboard (dashboard_query "s1"));
                    (1, PostChat (chat_body "hello" "s2"))] after_hello).

End Examples.

(** * Properties *)

(** ** Strings *)

Section Strings.

Implicit Types s t pat : jsstring.

Lemma startsWith_spec s pat :
  startsWith s pat = true <-> exists post, s = pat ++ post.
Proof.
  revert s; induction pat as [|p pat IH]; intros s; simpl.
  - split; [intros _; exists s; reflexivity | reflexivity].
  - destruct s as [|c s]; simpl.
    + split; [discriminate | intros [post H]; discriminate].
    + rewrite andb_true_iff, N.eqb_eq, IH. split.
      * intros [-> [post ->]]. exists post. reflexivity.
      * intros [post H]. injection H as -> ->. eauto.
Qed.

Lemma occursb_spec pat s : occursb pat s = true <-> occurs pat s.
Proof.
  induction s as [|c s IH]; cbn [occursb].
  - rewrite orb_false_r, startsWith_spec. split.
    + intros [post H]. exists [], post. exact H.
    + intros [pre [post H]]. destruct pre; simpl in H.
      * exists post. exact H.
      * discriminate.
  - rewrite orb_true_iff, startsWith_spec, IH. split.
    + intros [[post H] | [pre [post H]]].
      * exists [], post. exact H.
      * exists (c :: pre), post. simpl. congruence.
    + intros [pre [post H]]. destruct pre as [|c' pre]; simpl in H.
      * left. exists post. exact H.
      * right. injection H as -> ->. exists pre, post. reflexivity.
Qed.

Lemma occurs_app pat pre s post : occurs pat s -> occurs pat (pre ++ s ++ post).
Proof.
  intros [a [b ->]]. exists (pre ++ a), (b ++ post).
  now rewrite <- !app_assoc.
Qed.

(** *** [trim] *)

Lemma last_rev_head s : last (rev s) = head s.
Proof. destruct s as [|c s]; [reflexivity|]. simpl. apply last_snoc. Qed.

Lemma head_rev_last s : head (rev s) = last s.
Proof. rewrite <- (rev_involutive s) at 2. symmetry. apply last_rev_head. Qed.

Lemma trimStart_suffix s : exists pre, s = pre ++ trimStart s.
Proof.
  induction s as [|c s [pre IH]]; simpl.
  - exists []. reflexivity.
  - destruct (is_white_space c).
    + exists (c :: pre). simpl. congruence.
    + exists []. reflexivity.
Qed.

Lemma trimStart_head s c : head (trimStart s) = Some c -> is_white_space c = false.
Proof.
  induction s as [|d s IH]; simpl; [discriminate|].
  destruct (is_white_space d) eqn:E; [exact IH|].
  simpl. intros [= <-]. exact E.
Qed.

Lemma trimEnd_prefix s : exists post, s = trimEnd s ++ post.
Proof.
  unfold trimEnd. destruct (trimStart_suffix (rev s)) as [pre H].
  exists (rev pre). rewrite <- rev_app_distr, <- H. now rewrite rev_involutive.
Qed.

Lemma trimEnd_last s c : last (trimEnd s) = Some c -> is_white_space c = false.
Proof.
  unfold trimEnd. rewrite last_rev_head. apply trimStart_head.
Qed.

Lemma trim_infix s : exists pre post, s = pre ++ trim s ++ post.
Proof.
  unfold trim. destruct (trimStart_suffix s) as [pre H].
  destruct (trimEnd_prefix (trimStart s)) as [post H'].
  exists pre, post. now rewrite <- H', <- H.
Qed.

Lemma trim_head s c : head (trim s) = Some c -> is_white_space c = false.
Proof.
  unfold trim. destruct (trimEnd_prefix (trimStart s)) as [post H].
  intros Hc. apply (trimStart_head s). rewrite H.
  destruct (trimEnd (trimStart s)); [discriminate | exact Hc].
Qed.

Lemma trim_last s c : last (trim s) = Some c -> is_white_space c = false.
Proof. apply trimEnd_last. Qed.

(** A string without outer white space is left alone. *)
Lemma trimStart_id s :
  (forall c, head s = Some c -> is_white_space c = false) -> trimStart s = s.
Proof.
  destruct s as [|c s]; simpl; [reflexivity|].
  intros H. now rewrite (H c eq_refl).
Qed.

Lemma trim_id s :
  (forall c, head s = Some c -> is_white_space c = false) ->
  (forall c, last s = Some c -> is_white_space c = false) ->
  trim s = s.
Proof.
  intros Hh Hl. unfold trim, trimEnd. rewrite (trimStart_id s Hh).
  rewrite trimStart_id, rev_involutive; [reflexivity|].
  intros c. rewrite head_rev_last. apply Hl.
Qed.

(** *** Fence removal *)

Lemma fence_json_fence s : startsWith s fence_json = true -> startsWith s fence = true.
Proof.
  rewrite !startsWith_spec. intros [post ->]. exists (js "json" ++ [10%N] ++ post).
  reflexivity.
Qed.

Lemma startsWith_fence_cons s :
  startsWith (96%N :: s) fence = startsWith s [96%N; 96%N].
Proof. reflexivity. Qed.

Lemma startsWith_ticks_cons s :
  startsWith (96%N :: s) [96%N; 96%N] = startsWith s [96%N].
Proof. reflexivity. Qed.

(** Where the scan keeps a code unit, the output starts with no more
    backticks than the input. *)
Lemma replace_fences_ticks s :
  startsWith s fence = false ->
  (startsWith (replace_fences s) [96%N] = true -> startsWith s [96%N] = true) /\
  (startsWith (replace_fences s) [96%N; 96%N] = true ->
   startsWith s [96%N; 96%N] = true).
Proof.
  unfold replace_fences.
  induction s as [|c s IH]; intros HF; [split; intros H; exact H|].
  cbn [replace_fences_from].
  destruct (startsWith (c :: s) fence_json) eqn:EJ.
  { apply fence_json_fence in EJ. congruence. }
  rewrite HF. split.
  - destruct (replace_fences_from 0 s), s; intros H; exact H.
  - destruct (N.eqb_spec c 96) as [->|Hc].
    + rewrite !startsWith_ticks_cons. rewrite startsWith_fence_cons in HF.
      apply IH. destruct s as [|d s]; [reflexivity|].
      destruct (N.eqb_spec d 96) as [->|Hd].
      * rewrite startsWith_fence_cons. rewrite startsWith_ticks_cons in HF.
        destruct s as [|d' s]; [reflexivity|]. cbn in HF |- *.
        destruct (d' =? 96)%N; [discriminate | reflexivity].
      * cbn. apply N.eqb_neq in Hd. now rewrite Hd.
    + cbn. apply N.eqb_neq in Hc. rewrite Hc. cbn. discriminate.
Qed.

Lemma replace_fences_from_no_fence s :
  forall skip, occursb fence (replace_fences_from skip s) = false.
Proof.
  induction s as [|c s IH]; intros skip; [reflexivity|].
  cbn [replace_fences_from]. destruct skip as [|k]; [|apply IH].
  destruct (startsWith (c :: s) fence_json) eqn:EJ; [apply IH|].
  destruct (startsWith (c :: s) fence) eqn:EF; [apply IH|].
  cbn [occursb]. rewrite IH, orb_false_r.
  destruct (N.eqb_spec c 96) as [->|Hc].
  - rewrite startsWith_fence_cons in EF |- *.
    destruct (startsWith (replace_fences_from 0 s) [96%N; 96%N]) eqn:E; [|reflexivity].
    assert (HFs : startsWith s fence = false).
    { destruct s as [|d s]; [reflexivity|].
      destruct (N.eqb_spec d 96) as [->|Hd].
      - rewrite startsWith_fence_cons. rewrite startsWith_ticks_cons in EF.
        destruct s as [|d' s]; [reflexivity|]. cbn in EF |- *.
        destruct (d' =? 96)%N; [discriminate | reflexivity].
      - cbn. apply N.eqb_neq in Hd. now rewrite Hd. }
    destruct (replace_fences_ticks s HFs) as [_ H2].
    rewrite <- EF. symmetry. apply H2, E.
  - cbn. apply N.eqb_neq in Hc. now rewrite Hc.
Qed.

(** Text without a fence goes through the scan unchanged. *)
Lemma replace_fences_id s : occursb fence s = false -> replace_fences s = s.
Proof.
  unfold replace_fences. induction s as [|c s IH]; [reflexivity|].
  cbn [occursb replace_fences_from]. intros H. apply orb_false_iff in H as [HF Hs].
  destruct (startsWith (c :: s) fence_json) eqn:EJ.
  { apply fence_json_fence in EJ. congruence. }
  rewrite HF. f_equal. apply IH, Hs.
Qed.

Lemma cleanedReply_no_fence t : ~ occurs fence (cleanedReply t).
Proof.
  intros H. unfold cleanedReply in H.
  destruct (trim_infix (replace_fences t)) as [pre [post E]].
  apply (occurs_app _ pre _ post) in H. rewrite <- E in H.
  apply occursb_spec in H. unfold replace_fences in H.
  now rewrite replace_fences_from_no_fence in H.
Qed.

Lemma cleanedReply_id t :
  ~ occurs fence t ->
  (forall c, head t = Some c -> is_white_space c = false) ->
  (forall c, last t = Some c -> is_white_space c = false) ->
  cleanedReply t = t.
Proof.
  intros H Hh Hl. unfold cleanedReply. rewrite replace_fences_id.
  - now apply trim_id.
  - destruct (occursb fence t) eqn:E; [|reflexivity].
    apply occursb_spec in E. contradiction.
Qed.

End Strings.

(** ** The store and the registry *)

(** ** Conversion to a string *)

Lemma ToString_printable w :
  forall v,
    if printable v then exists s, ToString w v = Normal s else ToString w v = Throw.
Proof.
  fix IH 1. intros [| | b | n | s | elements | fields]; try (simpl; eauto; fail).
  - destruct b; simpl; eauto.
  - cbn [printable ToString].
    induction elements as [|x rest IHrest]; [simpl; eauto|].
    assert (Hx : if printable x
                 then exists s, match x with
                                | VUndefined | VNull => Normal []
                                | _ => ToString w x
                                end = Normal s
                 else match x with
                      | VUndefined | VNull => Normal []
                      | _ => ToString w x
                      end = Throw).
    { pose proof (IH x) as H. destruct x; try exact H; simpl; eauto. }
    destruct rest as [|y rest].
    + destruct (printable x); simpl; [exact Hx|exact Hx].
    + destruct (printable x).
      * destruct Hx as [s Hs]. rewrite Hs. cbn [andb].
        match type of IHrest with
        | if ?c then _ else _ => destruct c
        end.
        -- destruct IHrest as [t Ht]. rewrite Ht. eauto.
        -- now rewrite IHrest.
      * now rewrite Hx.
  - simpl. destruct (has_field (js "toString") fields); simpl; eauto.
Qed.

Lemma template_literal_printable w v :
  printable v = true -> template_literal w v = Normal tt.
Proof.
  intros H. pose proof (ToString_printable w v) as Hs. rewrite H in Hs.
  destruct Hs as [s Hs]. unfold template_literal. now rewrite Hs.
Qed.

Lemma template_literal_unprintable w v :
  printable v = false -> template_literal w v = Throw.
Proof.
  intros H. pose proof (ToString_printable w v) as Hs. rewrite H in Hs.
  unfold template_literal. now rewrite Hs.
Qed.

Lemma printable_string s : printable (VStr s) = true.
Proof. reflexivity. Qed.

Section Store.

Lemma add_events_nil st : add_events st [] = st.
Proof. destruct st. unfold add_events. simpl. now rewrite app_nil_r. Qed.

Lemma Map_get_app {V} (m m' : list (value * V)) k :
  Map_get (m ++ m') k =
  match Map_get m k with
  | Some v => Some v
  | None => Map_get m' k
  end.
Proof.
  induction m as [|[k' v'] m IH]; simpl; [reflexivity|].
  destruct (same_value_zero k' k); [reflexivity | exact IH].
Qed.

(** [set] on a key the map does not have appends an entry. *)
Lemma Map_set_fresh {V} (m : list (value * V)) k v :
  Map_get m k = None -> Map_set m k v = m ++ [(k, v)].
Proof.
  induction m as [|[k' v'] m IH]; simpl; [reflexivity|].
  destruct (same_value_zero k' k); [discriminate|].
  intros H. now rewrite IH.
Qed.

Lemma extends_refl st : extends st st.
Proof.
  repeat split.
  - exists []. now rewrite app_nil_r.
  - exists []. now rewrite app_nil_r.
  - intros chat h H. exists []. now rewrite app_nil_r.
Qed.

Lemma extends_trans st1 st2 st3 : extends st1 st2 -> extends st2 st3 -> extends st1 st3.
Proof.
  intros ([a1 Ha1] & [e1 He1] & Hc1) ([a2 Ha2] & [e2 He2] & Hc2). repeat split.
  - exists (a1 ++ a2). now rewrite Ha2, Ha1, app_assoc.
  - exists (e1 ++ e2). now rewrite He2, He1, app_assoc.
  - intros chat h H. destruct (Hc1 _ _ H) as [h1 H1].
    destruct (Hc2 _ _ H1) as [h2 H2]. exists (h1 ++ h2). now rewrite H2, app_assoc.
Qed.

Lemma extends_add_events st evs : extends st (add_events st evs).
Proof.
  repeat split; simpl.
  - exists []. now rewrite app_nil_r.
  - now exists evs.
  - intros chat h H. exists []. now rewrite app_nil_r.
Qed.

End Store.

(** ** Outbound calls *)

Section Calls.

Context (w : World).

Lemma post_each_run requests st :
  post_each w requests st =
  Some (Normal (batch_promises w (length (trace st)) requests),
        add_events st (batch_events w (length (trace st)) requests)).
Proof.
  revert st. induction requests as [|r rest IH]; intros st.
  - simpl. now rewrite add_events_nil.
  - cbn [post_each batch_promises batch_events].
    unfold mbind, M_bind, axios_post, sequence_number, emit, mret, M_ret; simpl.
    rewrite IH. simpl. rewrite length_app, Nat.add_1_r. simpl.
    unfold add_events at 2. simpl.
    f_equal. f_equal. unfold add_events. simpl. now rewrite <- app_assoc.
Qed.

Lemma batch_promises_length n requests :
  length (batch_promises w n requests) = length requests.
Proof. revert n; induction requests; intros n; simpl; [reflexivity | now rewrite IHrequests]. Qed.

Lemma batch_events_length n requests :
  length (batch_events w n requests) = length requests.
Proof. revert n; induction requests; intros n; simpl; [reflexivity | now rewrite IHrequests]. Qed.

Lemma batch_events_relay_calls sessionId n calls :
  batch_events w n (map (fun call => tools_call sessionId (fc_name call)) calls) =
  relay_calls sessionId calls
    (batch_promises w n (map (fun call => tools_call sessionId (fc_name call)) calls)).
Proof.
  revert n; induction calls as [|c calls IH]; intros n; simpl; [reflexivity|].
  unfold relay_calls in *. simpl. now rewrite IH.
Qed.

(** A batch fails as soon as one of its promises is rejected, and then
    yields no result at all. *)
Lemma Promise_all_Throw {A} (promises : list (completion A)) :
  Promise_all promises = Throw <-> Throw ∈ promises.
Proof.
  induction promises as [|p rest IH]; simpl.
  - split; [discriminate | intros H; inversion H].
  - destruct p as [a|]; simpl.
    + destruct (Promise_all rest) as [l|]; simpl.
      * split; [discriminate|]. intros H. apply elem_of_cons in H as [H|H]; [discriminate|].
        apply IH in H. discriminate.
      * split; [|reflexivity]. intros _. apply elem_of_cons. right. now apply IH.
    + split; [|reflexivity]. intros _. apply elem_of_cons. now left.
Qed.

Lemma Promise_all_Normal {A} (promises : list (completion A)) l :
  Promise_all promises = Normal l <-> promises = Normal <$> l.
Proof.
  revert l. induction promises as [|p rest IH]; intros l; simpl.
  - split.
    + intros [= <-]. reflexivity.
    + destruct l; [reflexivity | discriminate].
  - destruct p as [a|]; simpl.
    + destruct (Promise_all rest) as [l'|] eqn:E; simpl.
      * split.
        -- intros [= <-]. simpl. f_equal. now apply IH.
        -- destruct l as [|b l]; [discriminate|]. simpl. intros [= -> H].
           apply IH in H. now injection H as ->.
      * split; [discriminate|]. destruct l as [|b l]; [discriminate|].
        simpl. intros [= -> H]. apply IH in H. discriminate.
    + split; [discriminate|]. destruct l; discriminate.
Qed.

End Calls.

(** ** The chat session *)

Section Chat.

Context (w : World).

Lemma sendMessage_run chat request st h :
  chats st !! chat = Some h ->
  let contents := h ++ [FromUser request] in
  let reply := generateContent w (length (trace st)) contents in
  sendMessage w chat request st = Some (reply, after_model_call st chat contents reply).
Proof.
  intros H. unfold sendMessage, after_model_call. rewrite H. simpl.
  destruct (generateContent w (length (trace st)) (h ++ [FromUser request]));
    reflexivity.
Qed.

Lemma after_model_call_trace st chat contents reply :
  trace (after_model_call st chat contents reply)
  = trace st ++ [ModelCall chat contents reply].
Proof. reflexivity. Qed.

Lemma after_model_call_extends st chat contents reply h x :
  chats st !! chat = Some h -> contents = h ++ x ->
  extends st (after_model_call st chat contents reply).
Proof.
  intros H ->. repeat split; simpl.
  - exists []. now rewrite app_nil_r.
  - eexists. reflexivity.
  - intros c h0 H0. destruct reply as [r|]; [|exists []; now rewrite app_nil_r].
    destruct (decide (c = chat)) as [->|Hne].
    + rewrite list_lookup_insert_eq by (eapply lookup_lt_Some; eauto).
      exists (x ++ [FromModel r]). rewrite app_assoc. congruence.
    + rewrite list_lookup_insert_ne by congruence. exists []. now rewrite app_nil_r.
Qed.

Lemma session_chat_run sessionId st :
  admitted st sessionId ->
  session_chat w sessionId st =
  Some (Normal (session_index st sessionId), with_session st sessionId).
Proof.
  intros Hlog.
  unfold session_chat, session_index, with_session, chatSessions_has, chatSessions_get,
    Map_has, mbind, M_bind.
  destruct (Map_get (chatSessions st) sessionId) as [chat|] eqn:E.
  - now rewrite E.
  - rewrite (template_literal_printable w sessionId (Hlog E)).
    unfold lift, startChat, chatSessions_set, mret, M_ret. simpl.
    now rewrite Map_set_fresh.
Qed.

(** A new session whose identifier cannot be printed is not created. *)
Lemma session_chat_throws sessionId st :
  Map_get (chatSessions st) sessionId = None -> printable sessionId = false ->
  session_chat w sessionId st = Some (Throw, st).
Proof.
  intros Hnew Hlog.
  unfold session_chat, chatSessions_has, Map_has, mbind, M_bind. rewrite Hnew.
  now rewrite (template_literal_unprintable w sessionId Hlog).
Qed.

Lemma with_session_history st sessionId :
  chats (with_session st sessionId) !! session_index st sessionId
  = session_history st sessionId.
Proof.
  unfold with_session, session_index, session_history.
  destruct (Map_get (chatSessions st) sessionId); [reflexivity|].
  simpl. rewrite lookup_app_r by lia. now rewrite Nat.sub_diag.
Qed.

Lemma with_session_extends st sessionId : extends st (with_session st sessionId).
Proof.
  unfold with_session. destruct (Map_get (chatSessions st) sessionId).
  - apply extends_refl.
  - repeat split; simpl.
    + eexists. reflexivity.
    + exists []. now rewrite app_nil_r.
    + intros c h H. exists []. rewrite app_nil_r.
      rewrite lookup_app_l; [exact H | eapply lookup_lt_Some; eauto].
Qed.

Lemma with_session_trace st sessionId : trace (with_session st sessionId) = trace st.
Proof. unfold with_session. now destruct (Map_get (chatSessions st) sessionId). Qed.

(** The loop follows the protocol of the spec, leaves the registry alone
    and only adds to the history of its own chat. *)
Lemma reasoning_loop_rounds sessionId chat fuel :
  forall result st res st' h,
    chats st !! chat = Some h ->
    reasoning_loop fuel w sessionId chat result st = Some (res, st') ->
    chatSessions st' = chatSessions st /\
    (exists evs, trace st' = trace st ++ evs /\
                 rounds sessionId chat (Normal result) evs res) /\
    extends st st'.
Proof.
  induction fuel as [|fuel IH]; intros result st res st' h Hh Hrun; [discriminate|].
  cbn [reasoning_loop] in Hrun. unfold mbind at 1, M_bind at 1, lift at 1 in Hrun.
  destruct (functionCalls result) as [calls|] eqn:Ecalls.
  2:{ injection Hrun as <- <-. split; [reflexivity|]. split; [|apply extends_refl].
      exists []. rewrite app_nil_r. split; [reflexivity|]. now constructor. }
  assert (Hquiet : no_calls result ->
            Some (Normal result, st) = Some (res, st') ->
            chatSessions st' = chatSessions st /\
            (exists evs, trace st' = trace st ++ evs /\
                         rounds sessionId chat (Normal result) evs res) /\
            extends st st').
  { intros Hq [= <- <-]. split; [reflexivity|]. split; [|apply extends_refl].
    exists []. rewrite app_nil_r. split; [reflexivity|]. now constructor. }
  destruct calls as [[|call calls]|].
  { apply Hquiet; [now right | exact Hrun]. }
  2:{ apply Hquiet; [now left | exact Hrun]. }
  clear Hquiet. set (cs := call :: calls) in *.
  unfold mbind at 1, M_bind at 1 in Hrun. rewrite post_each_run in Hrun.
  set (reqs := map (fun c => tools_call sessionId (fc_name c)) cs) in *.
  set (n := length (trace st)) in *.
  assert (Hlen : length (batch_promises w n reqs) = length cs).
  { rewrite batch_promises_length. unfold reqs. now rewrite length_map. }
  assert (Hbatch : batch_events w n reqs
                   = relay_calls sessionId cs (batch_promises w n reqs)).
  { apply batch_events_relay_calls. }
  assert (Hcs : cs <> []) by discriminate.
  unfold mbind at 1, M_bind at 1, lift at 1 in Hrun.
  destruct (Promise_all (batch_promises w n reqs)) as [toolResponses|] eqn:Eall.
  2:{ injection Hrun as <- <-. split; [reflexivity|]. split; [|apply extends_add_events].
      exists (batch_events w n reqs). split; [reflexivity|]. rewrite Hbatch.
      now apply rounds_relay_failed. }
  unfold mbind at 1, M_bind at 1 in Hrun.
  rewrite (sendMessage_run _ _ _ h) in Hrun by exact Hh.
  cbv zeta in Hrun.
  set (contents := h ++ [FromUser (FunctionResponses (functionResponses_of cs toolResponses))]) in *.
  set (st1 := add_events st (batch_events w n reqs)) in *.
  set (reply := generateContent w (length (trace st1)) contents) in *.
  assert (Hext1 : extends st (after_model_call st1 chat contents reply)).
  { eapply extends_trans; [apply extends_add_events|].
    eapply after_model_call_extends; [exact Hh | reflexivity]. }
  assert (Hlast : last contents
            = Some (FromUser (FunctionResponses (functionResponses_of cs toolResponses)))).
  { unfold contents. apply last_snoc. }
  destruct reply as [result'|] eqn:Ereply.
  - assert (Hh' : chats (after_model_call st1 chat contents (Normal result')) !! chat
                  = Some (contents ++ [FromModel result'])).
    { simpl. apply list_lookup_insert_eq. eapply lookup_lt_Some; eauto. }
    destruct (IH _ _ _ _ _ Hh' Hrun) as (Hreg & (evs & Htr & Hr) & Hext).
    split; [exact Hreg|]. split; [|eapply extends_trans; eauto].
    exists (batch_events w n reqs ++ ModelCall chat contents (Normal result') :: evs).
    split.
    + rewrite Htr. simpl. now rewrite <- !app_assoc.
    + rewrite Hbatch. eapply rounds_next; eauto.
  - injection Hrun as <- <-. split; [reflexivity|]. split; [|exact Hext1].
    exists (batch_events w n reqs ++ [ModelCall chat contents Throw]).
    split.
    + simpl. now rewrite <- !app_assoc.
    + rewrite Hbatch. eapply rounds_next; eauto. constructor.
Qed.

(** One iteration of the loop. *)
Lemma reasoning_loop_step sessionId chat fuel result st h :
  chats st !! chat = Some h ->
  reasoning_loop (S fuel) w sessionId chat result st =
  match functionCalls result with
  | Throw => Some (Throw, st)
  | Normal None | Normal (Some []) => Some (Normal result, st)
  | Normal (Some calls) =>
      let requests := map (fun call => tools_call sessionId (fc_name call)) calls in
      let st1 := add_events st (batch_events w (length (trace st)) requests) in
      match Promise_all (batch_promises w (length (trace st)) requests) with
      | Throw => Some (Throw, st1)
      | Normal toolResponses =>
          let contents :=
            h ++ [FromUser (FunctionResponses (functionResponses_of calls toolResponses))] in
          let reply := generateContent w (length (trace st1)) contents in
          match reply with
          | Throw => Some (Throw, after_model_call st1 chat contents reply)
          | Normal result' =>
              reasoning_loop fuel w sessionId chat result'
                (after_model_call st1 chat contents reply)
          end
      end
  end.
Proof.
  intros Hh. cbn [reasoning_loop]. unfold mbind at 1, M_bind at 1, lift at 1.
  destruct (functionCalls result) as [[[|call calls]|]|]; try reflexivity.
  unfold mbind at 1, M_bind at 1. rewrite post_each_run.
  unfold mbind at 1, M_bind at 1, lift at 1. cbv zeta.
  destruct (Promise_all _) as [toolResponses|]; [|reflexivity].
  unfold mbind at 1, M_bind at 1.
  rewrite (sendMessage_run _ _ _ h) by exact Hh. cbv zeta.
  destruct (generateContent w _ _); reflexivity.
Qed.

(** Once the model has stopped asking for tools the loop ends: with a bound
    on the call number from which the model settles, fuel is enough as soon
    as it covers the calls left up to the bound. *)
Lemma reasoning_loop_terminates sessionId chat bound :
  settles w bound ->
  forall k result st h,
    chats st !! chat = Some h ->
    (bound < length (trace st) -> ~ asks_for_tools result) ->
    bound + 1 - length (trace st) <= k ->
    exists res st', reasoning_loop (S k) w sessionId chat result st = Some (res, st').
Proof.
  intros Hsettles. induction k as [|k IH]; intros result st h Hh Hres Hk;
    rewrite (reasoning_loop_step _ _ _ _ _ h Hh).
  - destruct (functionCalls result) as [[[|call calls]|]|] eqn:E; eauto.
    exfalso. apply Hres; [lia | now exists call, calls].
  - destruct (functionCalls result) as [[[|call calls]|]|] eqn:E; eauto.
    cbv zeta.
    set (requests := map _ (call :: calls)).
    destruct (Promise_all _) as [toolResponses|]; eauto.
    set (st1 := add_events st _). set (contents := h ++ _).
    destruct (generateContent w (length (trace st1)) contents) as [result'|] eqn:Ereply; eauto.
    assert (Hlen : length (trace st1) = length (trace st) + S (length calls)).
    { change (trace st1) with (trace st ++ batch_events w (length (trace st)) requests).
      rewrite length_app, batch_events_length.
      unfold requests. simpl. now rewrite length_map. }
    eapply (IH result' _ (contents ++ [FromModel result'])).
    + simpl. apply list_lookup_insert_eq. eapply lookup_lt_Some; eauto.
    + intros Hb. eapply (Hsettles _ contents); [|apply last_snoc|exact Ereply].
      rewrite after_model_call_trace, length_app, Hlen in Hb. simpl in Hb. lia.
    + rewrite after_model_call_trace, length_app, Hlen. simpl. lia.
Qed.

Lemma reasoning_loop_finishes sessionId chat bound :
  settles w bound ->
  forall result st h,
    chats st !! chat = Some h ->
    exists res st',
      reasoning_loop (S (S bound)) w sessionId chat result st = Some (res, st').
Proof.
  intros Hsettles result st h Hh. rewrite (reasoning_loop_step _ _ _ _ _ h Hh).
  destruct (functionCalls result) as [[[|call calls]|]|] eqn:E; eauto.
  cbv zeta. set (requests := map _ (call :: calls)).
  destruct (Promise_all _) as [toolResponses|]; eauto.
  set (st1 := add_events st _). set (contents := h ++ _).
  destruct (generateContent w (length (trace st1)) contents) as [result'|] eqn:Ereply; eauto.
  assert (Hlen : length (trace st1) = length (trace st) + S (length calls)).
  { change (trace st1) with (trace st ++ batch_events w (length (trace st)) requests).
    rewrite length_app, batch_events_length.
    unfold requests. simpl. now rewrite length_map. }
  eapply (reasoning_loop_terminates _ _ _ Hsettles bound result' _
            (contents ++ [FromModel result'])).
  - simpl. apply list_lookup_insert_eq. eapply lookup_lt_Some; eauto.
  - intros Hb. eapply (Hsettles _ contents); [|apply last_snoc|exact Ereply].
    rewrite after_model_call_trace, length_app, Hlen in Hb. simpl in Hb. lia.
  - rewrite after_model_call_trace, length_app, Hlen. simpl. lia.
Qed.

(** A chat request that passes the input check and the log line, step by
    step. *)
Lemma chat_handler_run fuel req_body message sessionId st h :
  chat_request req_body message sessionId ->
  admitted st sessionId ->
  session_history st sessionId = Some h ->
  let chat := session_index st sessionId in
  let contents := h ++ [FromUser (UserMessage message)] in
  let reply := generateContent w (length (trace st)) contents in
  let st1 := after_model_call (with_session st sessionId) chat contents reply in
  chat_handler fuel w req_body st =
  match reply with
  | Throw => Some (Normal chat_error, st1)
  | Normal result =>
      match reasoning_loop fuel w sessionId chat result st1 with
      | None => None
      | Some (Throw, st2) => Some (Normal chat_error, st2)
      | Some (Normal final, st2) =>
          Some (Normal match text final with
                       | Normal finalReplyText => chat_reply finalReplyText
                       | Throw => chat_error
                       end, st2)
      end
  end.
Proof.
  intros (Hm & Hs & Htm & Hts) Hlog Hh. cbv zeta.
  unfold chat_handler, try_catch.
  unfold mbind at 1, M_bind at 1, lift at 1. rewrite Hm.
  unfold mbind at 1, M_bind at 1, lift at 1. rewrite Hs.
  rewrite Htm, Hts. cbn [negb orb].
  unfold mbind at 1, M_bind at 1. rewrite session_chat_run by exact Hlog.
  unfold mbind at 1, M_bind at 1.
  rewrite (sendMessage_run _ _ _ h) by (now rewrite with_session_history).
  cbv zeta. rewrite with_session_trace.
  destruct (generateContent w (length (trace st)) (h ++ [FromUser (UserMessage message)]))
    as [result|]; [|reflexivity].
  unfold mbind at 1, M_bind at 1.
  destruct (reasoning_loop fuel w sessionId _ result _) as [[[final|] st2]|];
    [|reflexivity|reflexivity].
  unfold mbind, M_bind, lift. destruct (text final); reflexivity.
Qed.

(** Every call is settled as the world answers it. *)
Lemma answered_app n evs evs' :
  answered w n evs -> answered w (n + length evs) evs' -> answered w n (evs ++ evs').
Proof.
  revert n. induction evs as [|e evs IH]; intros n H H'; simpl in *.
  - now rewrite Nat.add_0_r in H'.
  - destruct H as [He H]. split; [exact He|]. apply IH; [exact H|].
    now rewrite Nat.add_succ_r in H'.
Qed.

Lemma batch_events_answered n requests : answered w n (batch_events w n requests).
Proof.
  revert n. induction requests as [|r rest IH]; intros n; simpl; [exact I|].
  split; [reflexivity | apply IH].
Qed.

Lemma reasoning_loop_answered sessionId chat fuel :
  forall result st res st' h,
    chats st !! chat = Some h ->
    reasoning_loop fuel w sessionId chat result st = Some (res, st') ->
    exists evs, trace st' = trace st ++ evs /\ answered w (length (trace st)) evs.
Proof.
  induction fuel as [|fuel IH]; intros result st res st' h Hh Hrun; [discriminate|].
  rewrite (reasoning_loop_step sessionId chat fuel result st h Hh) in Hrun.
  destruct (functionCalls result) as [[[|call calls]|]|];
    try (injection Hrun as _ <-; exists []; now rewrite app_nil_r).
  cbv zeta in Hrun.
  set (requests := map (fun call => tools_call sessionId (fc_name call)) (call :: calls)) in *.
  set (batch := batch_events w (length (trace st)) requests) in *.
  assert (Hbatch : answered w (length (trace st)) batch) by apply batch_events_answered.
  assert (Hlen : length (trace (add_events st batch)) = length (trace st) + length batch).
  { simpl. apply length_app. }
  destruct (Promise_all _) as [toolResponses|].
  2:{ injection Hrun as _ <-. exists batch. now split. }
  set (contents := h ++ [FromUser (FunctionResponses
                                     (functionResponses_of (call :: calls) toolResponses))])
    in *.
  destruct (generateContent w (length (trace (add_events st batch))) contents)
    as [result'|] eqn:Ereply.
  - eapply IH in Hrun as (evs & Htr & Hevs).
    2:{ simpl. apply list_lookup_insert_eq. eapply lookup_lt_Some; eauto. }
    rewrite after_model_call_trace in Htr, Hevs.
    exists (batch ++ ModelCall chat contents (Normal result') :: evs). split.
    + rewrite Htr. simpl. now rewrite <- !app_assoc.
    + apply answered_app; [exact Hbatch|]. split.
      * rewrite <- Hlen. now rewrite Ereply.
      * rewrite length_app, Hlen in Hevs. simpl in Hevs.
        now rewrite Nat.add_1_r in Hevs.
  - injection Hrun as _ <-. rewrite after_model_call_trace.
    exists (batch ++ [ModelCall chat contents Throw]). split.
    + simpl. now rewrite <- app_assoc.
    + apply answered_app; [exact Hbatch|]. split; [|exact I].
      rewrite <- Hlen. now rewrite Ereply.
Qed.

Lemma chat_handler_answered fuel req_body message sessionId st h res st' :
  chat_request req_body message sessionId ->
  admitted st sessionId ->
  session_history st sessionId = Some h ->
  chat_handler fuel w req_body st = Some (res, st') ->
  exists evs, trace st' = trace st ++ evs /\ answered w (length (trace st)) evs.
Proof.
  intros Hreq Hlog Hh Hrun.
  rewrite (chat_handler_run fuel _ _ _ _ _ Hreq Hlog Hh) in Hrun. cbv zeta in Hrun.
  set (chat := session_index st sessionId) in *.
  set (contents := h ++ [FromUser (UserMessage message)]) in *.
  destruct (generateContent w (length (trace st)) contents) as [result|] eqn:Ereply.
  - destruct (reasoning_loop fuel w sessionId chat result _) as [[out st2]|] eqn:Eloop;
      [|discriminate].
    assert (st' = st2) as -> by (destruct out; now injection Hrun).
    eapply reasoning_loop_answered in Eloop as (evs & Htr & Hevs).
    2:{ simpl. apply list_lookup_insert_eq. eapply lookup_lt_Some.
        unfold chat. rewrite with_session_history. exact Hh. }
    rewrite after_model_call_trace, with_session_trace in Htr, Hevs.
    exists (ModelCall chat contents (Normal result) :: evs). split.
    + rewrite Htr. now rewrite <- app_assoc.
    + split; [now rewrite Ereply|].
      rewrite length_app in Hevs. simpl in Hevs. now rewrite Nat.add_1_r in Hevs.
  - injection Hrun as _ <-. rewrite after_model_call_trace, with_session_trace.
    exists [ModelCall chat contents Throw]. split; [reflexivity|].
    split; [now rewrite Ereply | exact I].
Qed.

(** A chat request that passes the input check and is stopped by the log
    line: it is answered with the 500 error before anything happened. *)
Lemma chat_handler_unprintable fuel req_body message sessionId st :
  chat_request req_body message sessionId ->
  Map_get (chatSessions st) sessionId = None -> printable sessionId = false ->
  chat_handler fuel w req_body st = Some (Normal chat_error, st).
Proof.
  intros (Hm & Hs & Htm & Hts) Hnew Hlog.
  unfold chat_handler, try_catch.
  unfold mbind at 1, M_bind at 1, lift at 1. rewrite Hm.
  unfold mbind at 1, M_bind at 1, lift at 1. rewrite Hs.
  rewrite Htm, Hts. cbn [negb orb].
  unfold mbind at 1, M_bind at 1. now rewrite session_chat_throws.
Qed.

Lemma admitted_or_not st sessionId :
  admitted st sessionId \/
  (Map_get (chatSessions st) sessionId = None /\ printable sessionId = false).
Proof.
  unfold admitted. destruct (Map_get (chatSessions st) sessionId); [left; discriminate|].
  destruct (printable sessionId); [now left | now right].
Qed.

Lemma printable_admitted st sessionId : printable sessionId = true -> admitted st sessionId.
Proof. intros H _. exact H. Qed.

End Chat.

(** ** What the protocol implies *)

Section Rounds.

Context (sessionId : value) (chat : nat).

Lemma relay_calls_count calls promises :
  length promises = length calls ->
  relay_count (relay_calls sessionId calls promises) = length calls.
Proof.
  unfold relay_count, relay_calls. revert promises.
  induction calls as [|c calls IH]; intros [|p promises] H; try discriminate; simpl.
  - reflexivity.
  - f_equal. apply IH. now injection H.
Qed.

Lemma relay_calls_requested calls promises :
  sum_list (requested <$> relay_calls sessionId calls promises) = 0.
Proof.
  unfold relay_calls. revert promises.
  induction calls as [|c calls IH]; intros [|p promises]; simpl; auto.
Qed.

Lemma relay_calls_request calls promises request p :
  RelayCall request p ∈ relay_calls sessionId calls promises ->
  exists call, call ∈ calls /\ request = tools_call sessionId (fc_name call).
Proof.
  unfold relay_calls. revert promises.
  induction calls as [|c calls IH]; intros [|q promises] H; simpl in H;
    try (now inversion H).
  apply elem_of_cons in H as [H|H].
  - injection H as -> ->. exists c. split; [left | reflexivity].
  - destruct (IH _ H) as [call [Hin ->]]. exists call. split; [now right | reflexivity].
Qed.

(** The combined message carries one result per requested tool, each under
    the name of the tool it answers. *)
Lemma functionResponses_of_all calls (promises : list (completion AxiosResponse))
    toolResponses :
  length promises = length calls ->
  Promise_all promises = Normal toolResponses ->
  length (functionResponses_of calls toolResponses) = length calls /\
  forall i call toolResponse,
    calls !! i = Some call -> toolResponses !! i = Some toolResponse ->
    functionResponses_of calls toolResponses !! i
    = Some {| fr_name := fc_name call; fr_response := data toolResponse |}.
Proof.
  intros Hlen Hall. apply Promise_all_Normal in Hall. subst promises.
  rewrite length_fmap in Hlen. clear chat. revert calls Hlen.
  induction toolResponses as [|a rest IH]; intros [|c calls] Hlen; try discriminate.
  - split; [reflexivity|]. intros i ? ? H. destruct i; discriminate.
  - simpl in Hlen. injection Hlen as Hlen. destruct (IH calls Hlen) as [IH1 IH2].
    split; [simpl; now rewrite IH1|].
    intros [|i] call toolResponse Hc Ha; simpl in *.
    + now injection Hc as <-; injection Ha as <-.
    + now apply IH2.
Qed.

Lemma relay_count_app evs evs' :
  relay_count (evs ++ evs') = relay_count evs + relay_count evs'.
Proof. unfold relay_count. now rewrite List.filter_app, length_app. Qed.

(** As many relay calls as the model asked for, response by response. *)
Lemma rounds_relay_count reply evs out :
  rounds sessionId chat reply evs out ->
  forall contents,
    relay_count evs = sum_list (requested <$> (ModelCall chat contents reply :: evs)).
Proof.
  induction 1 as [ | r Hr | r Hr | r calls promises Hr Hne Hlen Hall
                   | r calls promises toolResponses contents' reply evs out
                       Hr Hne Hlen Hall Hlast Hrounds IH ]; intros contents; simpl.
  - reflexivity.
  - now rewrite Hr.
  - destruct Hr as [-> | ->]; reflexivity.
  - rewrite Hr, relay_calls_requested, relay_calls_count by exact Hlen. lia.
  - rewrite Hr, fmap_app, sum_list_with_app, relay_count_app.
    fold (sum_list (requested <$> relay_calls sessionId calls promises)).
    rewrite relay_calls_requested, relay_calls_count by exact Hlen.
    change (ModelCall chat contents' reply :: evs)
      with ([ModelCall chat contents' reply] ++ evs).
    rewrite relay_count_app. change (relay_count [ModelCall chat contents' reply]) with 0.
    simpl. rewrite (IH contents'). simpl. lia.
Qed.

(** Every relay call is the call for one of the requested tools, made for
    the session of the request. *)
Lemma rounds_relay_request reply evs out :
  rounds sessionId chat reply evs out ->
  forall request p,
    RelayCall request p ∈ evs ->
    exists toolName, request = tools_call sessionId toolName.
Proof.
  induction 1 as [ | | | r calls promises Hr Hne Hlen Hall
                   | r calls promises toolResponses contents' reply evs out
                       Hr Hne Hlen Hall Hlast Hrounds IH ]; intros request p Hin;
    try (now inversion Hin).
  - apply relay_calls_request in Hin as [call [_ ->]]. eauto.
  - apply elem_of_app in Hin as [Hin|Hin].
    + apply relay_calls_request in Hin as [call [_ ->]]. eauto.
    + apply elem_of_cons in Hin as [Hin|Hin]; [discriminate | eauto].
Qed.

(** An exchange that ends well ends with a response that asks for no tool,
    and nothing in it failed. *)
Lemma rounds_success reply evs final :
  rounds sessionId chat reply evs (Normal final) ->
  no_calls final /\
  (exists first, reply = Normal first) /\
  (forall e, e ∈ evs -> failed e = false) /\
  (forall c contents r, ModelCall c contents (Normal r) ∈ evs -> functionCalls r <> Throw).
Proof.
  remember (Normal final) as out eqn:Eout. induction 1 as
      [ | | r Hr | | r calls promises toolResponses contents' reply evs out
                       Hr Hne Hlen Hall Hlast Hrounds IH ]; try discriminate.
  - injection Eout as ->. repeat split; eauto; intros; exfalso; eapply not_elem_of_nil; eauto.
  - destruct (IH Eout) as (Hq & [first ->] & Hok & Hwf). split; [exact Hq|].
    split; [eauto|]. apply Promise_all_Normal in Hall. split.
    + intros e Hin. apply elem_of_app in Hin as [Hin|Hin].
      * unfold relay_calls in Hin. apply elem_of_lookup_zip_with in Hin
          as (i & call & p & -> & _ & Hp).
        rewrite Hall, list_lookup_fmap in Hp.
        destruct (toolResponses !! i); [|discriminate]. now injection Hp as <-.
      * apply elem_of_cons in Hin as [->|Hin]; [reflexivity | auto].
    + intros c contents r' Hin. apply elem_of_app in Hin as [Hin|Hin].
      * unfold relay_calls in Hin. apply elem_of_lookup_zip_with in Hin
          as (i & call & p & Hcontra & _). discriminate.
      * apply elem_of_cons in Hin as [Hin|Hin]; [|eauto].
        injection Hin as -> -> ->. inversion Hrounds; subst; try congruence.
        match goal with
        | Hq' : no_calls _ |- _ => destruct Hq' as [Hq' | Hq']; rewrite Hq'; discriminate
        end.
Qed.

End Rounds.

(** ** A chat request from end to end *)

Lemma chat_handler_rounds w fuel req_body message sessionId st h res st' :
  chat_request req_body message sessionId ->
  admitted st sessionId ->
  session_history st sessionId = Some h ->
  chat_handler fuel w req_body st = Some (res, st') ->
  exists evs out,
    let chat := session_index st sessionId in
    let contents := h ++ [FromUser (UserMessage message)] in
    let reply := generateContent w (length (trace st)) contents in
    res = Normal (chat_answer out) /\
    trace st' = trace st ++ ModelCall chat contents reply :: evs /\
    rounds sessionId chat reply evs out /\
    chatSessions st' = chatSessions (with_session st sessionId) /\
    extends (after_model_call (with_session st sessionId) chat contents reply) st'.
Proof.
  intros Hreq Hlog Hh Hrun.
  rewrite (chat_handler_run w fuel _ _ _ _ _ Hreq Hlog Hh) in Hrun.
  cbv zeta in *.
  set (chat := session_index st sessionId) in *.
  set (contents := h ++ [FromUser (UserMessage message)]) in *.
  set (st0 := with_session st sessionId) in *.
  assert (Hh0 : chats st0 !! chat = Some h) by (now rewrite <- Hh, <- with_session_history).
  assert (Hext1 : forall reply, extends st (after_model_call st0 chat contents reply)).
  { intros reply. eapply extends_trans; [apply with_session_extends|].
    eapply after_model_call_extends; [exact Hh0 | reflexivity]. }
  assert (Htr1 : forall reply, trace (after_model_call st0 chat contents reply)
                               = trace st ++ [ModelCall chat contents reply]).
  { intros reply. rewrite after_model_call_trace. unfold st0.
    now rewrite with_session_trace. }
  destruct (generateContent w (length (trace st)) contents) as [result|] eqn:Ereply.
  - destruct (reasoning_loop fuel w sessionId chat result _) as [[out st2]|] eqn:Eloop.
    2:{ discriminate. }
    eapply (reasoning_loop_rounds w) in Eloop as (Hreg & (evs & Htr & Hrounds) & Hext).
    2:{ simpl. apply list_lookup_insert_eq. eapply lookup_lt_Some; eauto. }
    assert (st' = st2) as -> by (destruct out; now injection Hrun).
    exists evs, out. split; [|split; [|split; [|split]]].
    + destruct out as [final|]; injection Hrun as <-; reflexivity.
    + rewrite Htr, Htr1. now rewrite <- app_assoc.
    + exact Hrounds.
    + rewrite Hreg. reflexivity.
    + exact Hext.
  - injection Hrun as <- <-. exists [], Throw. split; [|split; [|split; [|split]]].
    + reflexivity.
    + apply Htr1.
    + constructor.
    + reflexivity.
    + apply extends_refl.
Qed.

Lemma first_model_call_extends w st sessionId h message :
  session_history st sessionId = Some h ->
  extends st
    (after_model_call (with_session st sessionId) (session_index st sessionId)
       (h ++ [FromUser (UserMessage message)])
       (generateContent w (length (trace st)) (h ++ [FromUser (UserMessage message)]))).
Proof.
  intros Hh. eapply extends_trans; [apply with_session_extends|].
  eapply after_model_call_extends; [|reflexivity].
  now rewrite with_session_history.
Qed.

(** Every way a chat request can go: refused before anything happened, by
    the input check or by the log line of a new session; stopped by a session
    whose chat object is missing from the store (which no sequence of
    requests brings about); or an exchange with the model. *)
Lemma chat_handler_cases w fuel req_body st res st' :
  chat_handler fuel w req_body st = Some (res, st') ->
  (st' = st /\ (res = Normal chat_bad_request \/ res = Normal chat_error) /\
   ~ exists message sessionId,
       chat_request req_body message sessionId /\ admitted st sessionId) \/
  (exists message sessionId,
      (chat_request req_body message sessionId /\ admitted st sessionId) /\
      session_history st sessionId = None /\
      res = Normal chat_error /\ st' = with_session st sessionId) \/
  (exists message sessionId h evs out,
      let chat := session_index st sessionId in
      let contents := h ++ [FromUser (UserMessage message)] in
      let reply := generateContent w (length (trace st)) contents in
      (chat_request req_body message sessionId /\ admitted st sessionId) /\
      session_history st sessionId = Some h /\
      res = Normal (chat_answer out) /\
      trace st' = trace st ++ ModelCall chat contents reply :: evs /\
      rounds sessionId chat reply evs out /\
      chatSessions st' = chatSessions (with_session st sessionId) /\
      extends (after_model_call (with_session st sessionId) chat contents reply) st').
Proof.
  intros Hrun.
  destruct (get req_body "message") as [message|] eqn:Em.
  2:{ left. unfold chat_handler, try_catch, mbind, M_bind, lift in Hrun.
      rewrite Em in Hrun. injection Hrun as <- <-. split; [reflexivity|].
      split; [now right|]. intros (m & s & (H & _) & _). congruence. }
  destruct (get req_body "sessionId") as [sessionId|] eqn:Es.
  2:{ left. unfold chat_handler, try_catch, mbind, M_bind, lift in Hrun.
      rewrite Em, Es in Hrun. injection Hrun as <- <-. split; [reflexivity|].
      split; [now right|]. intros (m & s & (_ & H & _) & _). congruence. }
  destruct (truthy message && truthy sessionId) eqn:Et.
  2:{ left. unfold chat_handler, try_catch, mbind, M_bind, lift in Hrun.
      rewrite Em, Es in Hrun.
      assert (Hf : negb (truthy message) || negb (truthy sessionId) = true).
      { destruct (truthy message), (truthy sessionId); auto. }
      rewrite Hf in Hrun. injection Hrun as <- <-. split; [reflexivity|].
      split; [now left|]. intros (m & s & (Hm & Hs & Htm & Hts) & _).
      rewrite Em in Hm. rewrite Es in Hs. injection Hm as <-. injection Hs as <-.
      now rewrite Htm, Hts in Et. }
  apply andb_true_iff in Et as [Htm Hts].
  assert (Hreq : chat_request req_body message sessionId) by (now repeat split).
  destruct (admitted_or_not st sessionId) as [Hlog | [Hnew Hlog]].
  2:{ left. rewrite (chat_handler_unprintable w fuel _ _ _ _ Hreq Hnew Hlog) in Hrun.
      injection Hrun as <- <-. split; [reflexivity|]. split; [now right|].
      intros (m & s & (_ & Hs & _) & Hadm). rewrite Es in Hs. injection Hs as <-.
      rewrite (Hadm Hnew) in Hlog. discriminate. }
  right. destruct (session_history st sessionId) as [h|] eqn:Eh.
  - right. destruct (chat_handler_rounds _ _ _ _ _ _ _ _ _ Hreq Hlog Eh Hrun)
      as (evs & out & H). exists message, sessionId, h, evs, out. cbv zeta in *.
    tauto.
  - left. exists message, sessionId. split; [now split|]. split; [exact Eh|].
    unfold chat_handler, try_catch in Hrun.
    unfold mbind at 1, M_bind at 1, lift at 1 in Hrun. rewrite Em in Hrun.
    unfold mbind at 1, M_bind at 1, lift at 1 in Hrun. rewrite Es in Hrun.
    rewrite Htm, Hts in Hrun. cbn [negb orb] in Hrun.
    unfold mbind at 1, M_bind at 1 in Hrun.
    rewrite session_chat_run in Hrun by exact Hlog.
    unfold mbind at 1, M_bind at 1, sendMessage at 1 in Hrun.
    rewrite with_session_history, Eh in Hrun. now injection Hrun as <- <-.
Qed.

(** ** A dashboard request from end to end *)

(** Past the input check and the log line: the two relay calls, then the
    answer built from what they return. *)
Lemma dashboard_handler_run w req_query sessionId st :
  dashboard_request req_query sessionId ->
  let requests := map (tools_call sessionId) toolsToFetch in
  let n := length (trace st) in
  dashboard_handler w req_query st =
  Some (Normal (dashboard_answer w (batch_promises w n requests)),
        add_events st (batch_events w n requests)).
Proof.
  intros (Hs & Ht & Hlog). cbv zeta. unfold dashboard_handler, try_catch.
  unfold mbind at 1, M_bind at 1, lift at 1. rewrite Hs, Ht. cbn [negb].
  unfold mbind at 1, M_bind at 1, lift at 1.
  rewrite (template_literal_printable w sessionId Hlog).
  unfold mbind at 1, M_bind at 1. rewrite post_each_run.
  unfold dashboard_answer, mbind, M_bind, lift, completion_bind, mret, M_ret.
  destruct (Promise_all _) as [toolResponses|]; [|reflexivity].
  destruct (parse_tool_text w (toolResponses !! 0)) as [netWorthRaw|]; [|reflexivity].
  destruct (parse_tool_text w (toolResponses !! 1)) as [creditReportRaw|]; [|reflexivity].
  destruct (dashboardData w netWorthRaw creditReportRaw); reflexivity.
Qed.

Lemma dashboard_handler_cases w req_query st res st' :
  dashboard_handler w req_query st = Some (res, st') ->
  (st' = st /\ (res = Normal dashboard_bad_request \/ res = Normal dashboard_error) /\
   ~ exists sessionId, dashboard_request req_query sessionId) \/
  (exists sessionId,
      let requests := map (tools_call sessionId) toolsToFetch in
      let n := length (trace st) in
      dashboard_request req_query sessionId /\
      res = Normal (dashboard_answer w (batch_promises w n requests)) /\
      st' = add_events st (batch_events w n requests)).
Proof.
  intros Hrun. destruct (get req_query "sessionId") as [sessionId|] eqn:Es.
  2:{ left. unfold dashboard_handler, try_catch, mbind, M_bind, lift in Hrun.
      rewrite Es in Hrun. injection Hrun as <- <-. split; [reflexivity|].
      split; [now right|]. intros (s & H & _). congruence. }
  destruct (truthy sessionId) eqn:Et.
  - destruct (printable sessionId) eqn:Elog.
    + right. exists sessionId. cbv zeta.
      rewrite (dashboard_handler_run w _ sessionId) in Hrun by (now repeat split).
      injection Hrun as <- <-. repeat split; assumption.
    + left. unfold dashboard_handler, try_catch, mbind, M_bind, lift in Hrun.
      rewrite Es, Et in Hrun. cbn [negb] in Hrun.
      rewrite (template_literal_unprintable w sessionId Elog) in Hrun.
      injection Hrun as <- <-. split; [reflexivity|].
      split; [now right|]. intros (s & Hs & _ & Hlog). congruence.
  - left. unfold dashboard_handler, try_catch, mbind, M_bind, lift in Hrun.
    rewrite Es, Et in Hrun. injection Hrun as <- <-. split; [reflexivity|].
    split; [now left|]. intros (s & Hs & Hts & _). congruence.
Qed.

(** ** Consequences for whole requests *)

Lemma reasoning_loop_quiet fuel w sessionId chat result st :
  no_calls result ->
  reasoning_loop (S fuel) w sessionId chat result st = Some (Normal result, st).
Proof.
  intros H. cbn [reasoning_loop]. unfold mbind, M_bind, lift.
  destruct H as [-> | ->]; reflexivity.
Qed.

(** A failed call anywhere in the exchange makes it end with a failure. *)
Lemma rounds_failed_event sessionId chat contents reply evs out e :
  rounds sessionId chat reply evs out ->
  e ∈ ModelCall chat contents reply :: evs ->
  failed e = true ->
  out = Throw.
Proof.
  intros Hrounds Hin Hfailed. destruct out as [final|]; [|reflexivity].
  destruct (rounds_success _ _ _ _ _ Hrounds) as (_ & [first ->] & Hok & _).
  apply elem_of_cons in Hin as [-> | Hin]; [discriminate|].
  rewrite (Hok _ Hin) in Hfailed. discriminate.
Qed.

(** An exchange that ends well saw no malformed response. *)
Lemma rounds_well_formed sessionId chat contents reply evs final c contents' r :
  rounds sessionId chat reply evs (Normal final) ->
  ModelCall c contents' (Normal r) ∈ ModelCall chat contents reply :: evs ->
  functionCalls r <> Throw.
Proof.
  intros Hrounds Hin. apply elem_of_cons in Hin as [Hin|Hin].
  - injection Hin as _ _ <-. inversion Hrounds; subst; try congruence.
    match goal with
    | Hq : no_calls _ |- _ => destruct Hq as [Hq | Hq]; rewrite Hq; discriminate
    end.
  - eapply rounds_success; eauto.
Qed.

Lemma batch_events_request w n requests request p :
  RelayCall request p ∈ batch_events w n requests -> request ∈ requests.
Proof.
  revert n. induction requests as [|r rest IH]; intros n H; simpl in H.
  - inversion H.
  - apply elem_of_cons in H as [H|H].
    + injection H as -> _. now left.
    + right. eauto.
Qed.

Lemma parse_tool_text_nested w toolResponse :
  parse_tool_text w (Some toolResponse)
  = (txt ← nested_text toolResponse; JSON_parse_value w txt).
Proof.
  unfold parse_tool_text, nested_text, mbind, completion_bind.
  destruct (get (data toolResponse) "result") as [result|]; [|reflexivity].
  destruct (get result "content") as [content|]; [|reflexivity].
  destruct (get0 content) as [first|]; [|reflexivity].
  destruct (get first "text"); reflexivity.
Qed.

Lemma dashboard_answer_texts w netWorth creditReport netWorthText creditReportText :
  nested_text netWorth = Normal (VStr netWorthText) ->
  nested_text creditReport = Normal (VStr creditReportText) ->
  dashboard_answer w [Normal netWorth; Normal creditReport] =
  match (netWorthRaw ← JSON_parse w netWorthText;
         creditReportRaw ← JSON_parse w creditReportText;
         dashboardData w netWorthRaw creditReportRaw) with
  | Normal shaped => res_json shaped
  | Throw => dashboard_error
  end.
Proof.
  intros Ht0 Ht1. unfold dashboard_answer.
  cbn -[parse_tool_text dashboardData].
  rewrite !parse_tool_text_nested, Ht0, Ht1. reflexivity.
Qed.

(** The relay calls of a request are calls for tools, made for the session
    of the request. *)
Lemma handle_relay_calls fuel w r st res st' :
  handle fuel w r st = Some (res, st') ->
  exists evs,
    trace st' = trace st ++ evs /\
    forall request p,
      RelayCall request p ∈ evs ->
      exists toolName, request = tools_call (request_session r) toolName.
Proof.
  destruct r as [req_body | req_query]; simpl; intros Hrun.
  - destruct (chat_handler_cases _ _ _ _ _ _ Hrun)
      as [(-> & _) | [(m & sid & _ & _ & _ & ->)
                     | (m & sid & h & evs & out & ((_ & Hs & _) & _) & _ & _ & Htr & Hr & _)]].
    + exists []. rewrite app_nil_r. split; [reflexivity|]. intros ? ? H. inversion H.
    + exists []. rewrite app_nil_r, with_session_trace. split; [reflexivity|].
      intros ? ? H. inversion H.
    + eexists. split; [exact Htr|]. intros request p Hin.
      unfold request_session. rewrite Hs.
      apply elem_of_cons in Hin as [Hin|Hin]; [discriminate|].
      eapply rounds_relay_request; eauto.
  - destruct (dashboard_handler_cases _ _ _ _ _ Hrun)
      as [(-> & _) | (sid & (Hs & _) & _ & ->)].
    + exists []. rewrite app_nil_r. split; [reflexivity|]. intros ? ? H. inversion H.
    + eexists. split; [reflexivity|]. intros request p Hin.
      unfold request_session. rewrite Hs.
      apply batch_events_request in Hin. apply list_elem_of_fmap in Hin as [name [-> _]].
      eauto.
Qed.

(** No request removes anything from the store. *)
Lemma handle_extends fuel w r st res st' :
  handle fuel w r st = Some (res, st') -> extends st st'.
Proof.
  destruct r as [req_body | req_query]; simpl; intros Hrun.
  - destruct (chat_handler_cases _ _ _ _ _ _ Hrun)
      as [(-> & _) | [(m & sid & _ & _ & _ & ->)
                     | (m & sid & h & evs & out & _ & Hh & _ & _ & _ & _ & Hext)]].
    + apply extends_refl.
    + apply with_session_extends.
    + eapply extends_trans; [|exact Hext]. now apply first_model_call_extends.
  - destruct (dashboard_handler_cases _ _ _ _ _ Hrun) as [(-> & _) | (sid & _ & _ & ->)].
    + apply extends_refl.
    + apply extends_add_events.
Qed.

(** The registry never leads to a missing chat object: the stores the server
    reaches from its start are well formed, so every session has a history
    there. *)
Lemma well_formed_history st sessionId :
  well_formed st -> exists h, session_history st sessionId = Some h.
Proof.
  intros Hwf. unfold session_history.
  destruct (Map_get (chatSessions st) sessionId) as [chat|] eqn:E; [|eauto].
  destruct (Hwf _ _ E) as [h Hh]. eauto.
Qed.

Lemma well_formed_with_session st sessionId :
  well_formed st -> well_formed (with_session st sessionId).
Proof.
  intros Hwf. unfold with_session.
  destruct (Map_get (chatSessions st) sessionId) eqn:E; [exact Hwf|].
  intros k chat. simpl. rewrite Map_get_app.
  destruct (Map_get (chatSessions st) k) as [c|] eqn:Ek.
  - intros [= <-]. destruct (Hwf _ _ Ek) as [h Hh]. exists h.
    rewrite lookup_app_l; [exact Hh | eapply lookup_lt_Some; eauto].
  - simpl. destruct (same_value_zero sessionId k); [|discriminate].
    intros [= <-]. exists [systemInstruction].
    rewrite lookup_app_r by lia. now rewrite Nat.sub_diag.
Qed.

Lemma well_formed_extends st st' :
  well_formed st -> chatSessions st' = chatSessions st -> extends st st' ->
  well_formed st'.
Proof.
  intros Hwf Hreg (_ & _ & Hchats) k chat Hk. rewrite Hreg in Hk.
  destruct (Hwf _ _ Hk) as [h Hh]. destruct (Hchats _ _ Hh) as [h' Hh']. eauto.
Qed.

Lemma handle_well_formed fuel w r st res st' :
  well_formed st -> handle fuel w r st = Some (res, st') -> well_formed st'.
Proof.
  intros Hwf. destruct r as [req_body | req_query]; simpl; intros Hrun.
  - destruct (chat_handler_cases _ _ _ _ _ _ Hrun)
      as [(-> & _) | [(m & sid & _ & _ & _ & ->)
                     | (m & sid & h & evs & out & _ & Hh & _ & _ & _ & Hreg & Hext)]].
    + exact Hwf.
    + now apply well_formed_with_session.
    + apply (well_formed_extends (with_session st sid));
        [now apply well_formed_with_session | exact Hreg |].
      eapply extends_trans; [|exact Hext].
      eapply after_model_call_extends; [|reflexivity].
      now rewrite with_session_history.
  - destruct (dashboard_handler_cases _ _ _ _ _ Hrun) as [(-> & _) | (sid & _ & _ & ->)].
    + exact Hwf.
    + exact Hwf.
Qed.

Lemma serve_well_formed w requests :
  forall st st', well_formed st -> serve w requests st = Some st' -> well_formed st'.
Proof.
  induction requests as [|[fuel r] rest IH]; intros st st' Hwf H; simpl in H.
  - now injection H as <-.
  - destruct (handle fuel w r st) as [[res st1]|] eqn:E; [|discriminate].
    eapply IH; [|exact H]. eapply handle_well_formed; eauto.
Qed.

Lemma reachable_history w requests st sessionId :
  serve w requests initial = Some st -> exists h, session_history st sessionId = Some h.
Proof.
  intros H. apply well_formed_history. eapply serve_well_formed; [|exact H].
  intros k chat Hk. discriminate.
Qed.

Lemma serve_extends w requests :
  forall st st', serve w requests st = Some st' -> extends st st'.
Proof.
  induction requests as [|[fuel r] rest IH]; intros st st' H; simpl in H.
  - injection H as <-. apply extends_refl.
  - destruct (handle fuel w r st) as [[res st1]|] eqn:E; [|discriminate].
    eapply extends_trans; [eapply handle_extends; eauto | eauto].
Qed.

Lemma get_nullish v k : nullish v -> get v k = Throw.
Proof. now intros [-> | ->]. Qed.

(** ** Reshaping the tool results *)

Section Shape.

Context (w : World).

Lemma is_not_liability_entry item entry :
  describes w item entry -> is_not_liability item = Normal (negb (is_liability entry)).
Proof. intros [Htag _]. unfold is_not_liability. now rewrite Htag. Qed.

Lemma shape_asset_entry item entry :
  describes w item entry -> shape_asset w item = Normal (asset_of entry).
Proof.
  intros [Htag (units & Hunits & Hparse)]. unfold shape_asset. rewrite Htag.
  unfold path, mbind, completion_bind in *. cbn [call_replace].
  destruct (get item "value") as [val|]; [|discriminate].
  destruct (get val "units") as [u|]; [|discriminate].
  injection Hunits as ->. now rewrite Hparse.
Qed.

Lemma assets_of_entries elements entries :
  Forall2 (describes w) elements entries ->
  (kept ← filter_elements is_not_liability elements; map_elements (shape_asset w) kept)
  = Normal (asset_of <$> List.filter (fun e => negb (is_liability e)) entries).
Proof.
  induction 1 as [|item entry elements entries Hitem _ IH]; [reflexivity|].
  cbn [filter_elements List.filter].
  rewrite (is_not_liability_entry _ _ Hitem).
  unfold mbind, completion_bind in IH |- *.
  destruct (filter_elements is_not_liability elements) as [kept|]; [|discriminate].
  destruct (is_liability entry); cbn [negb]; [exact IH|].
  cbn [map_elements]. rewrite (shape_asset_entry _ _ Hitem).
  unfold mbind, completion_bind.
  destruct (map_elements (shape_asset w) kept) as [shaped|]; [|discriminate].
  injection IH as ->. reflexivity.
Qed.

Lemma digit_not_white_space c : is_digit c = true -> is_white_space c = false.
Proof.
  unfold is_digit, is_white_space. rewrite andb_true_iff, !N.leb_le. intros [H1 H2].
  repeat match goal with
         | |- context [(?a <=? ?b)%N] =>
             destruct (N.leb_spec a b); try lia
         | |- context [(?a =? ?b)%N] =>
             destruct (N.eqb_spec a b); try lia
         end; reflexivity.
Qed.

Lemma digit_value_digit c :
  is_digit c = true -> digit_value 10 c = Some (Z.of_N c - 48)%Z.
Proof.
  unfold is_digit, digit_value. intros H. rewrite H.
  apply andb_true_iff in H as [H1 H2]. apply N.leb_le in H1, H2.
  destruct (Z.ltb_spec (Z.of_N c - 48) 10); [reflexivity | lia].
Qed.

Lemma parse_digits_numeral s :
  forallb is_digit s = true ->
  forall acc,
    parse_digits 10 acc s =
    match s with
    | [] => acc
    | _ => Some (numeral_value (default 0%Z acc) s)
    end.
Proof.
  induction s as [|c s IH]; [reflexivity|]. simpl. intros H acc.
  apply andb_true_iff in H as [Hc Hs]. rewrite (digit_value_digit c Hc), (IH Hs).
  destruct s; reflexivity.
Qed.

Lemma to_Number_exact m :
  (0 <= m < 2 ^ 53)%Z -> to_Number false m = Num m.
Proof.
  intros [H0 H53]. unfold to_Number, round53.
  assert (Hlog : (Z.log2 m - 52 <= 0)%Z).
  { destruct (Z.eq_dec m 0%Z) as [->|Hne]; [simpl; lia|].
    assert (Z.log2 m < 53)%Z by (apply Z.log2_lt_pow2; lia). lia. }
  destruct (Z.leb_spec (Z.log2 m - 52) 0); [|lia].
  destruct (Z.leb_spec (2 ^ 1024) m) as [Hbig|]; [|reflexivity].
  exfalso. assert (2 ^ 53 < 2 ^ 1024)%Z by (apply Z.pow_lt_mono_r; lia). lia.
Qed.

Lemma parseInt_VStr s : parseInt w (VStr s) = Normal (parseInt_string s).
Proof. reflexivity. Qed.

(** [parseInt] reads a decimal numeral below [2^53] as the integer it
    denotes. *)
Lemma parseInt_string_numeral s :
  s <> [] -> forallb is_digit s = true -> (numeral_value 0 s < 2 ^ 53)%Z ->
  parseInt_string s = Num (numeral_value 0 s).
Proof.
  intros Hne Hdigits Hsmall. unfold parseInt_string.
  destruct s as [|c s]; [contradiction|]. simpl in Hdigits.
  apply andb_true_iff in Hdigits as [Hc Hs].
  cbn [trimStart]. rewrite (digit_not_white_space c Hc).
  assert (Hc' := Hc). unfold is_digit in Hc'.
  apply andb_true_iff in Hc' as [H1 H2]. apply N.leb_le in H1, H2.
  assert (E45 : (c =? 45)%N = false) by (apply N.eqb_neq; lia).
  assert (E43 : (c =? 43)%N = false) by (apply N.eqb_neq; lia).
  cbn [startsWith]. rewrite E45, E43. cbn [andb orb].
  assert (Ehex : forall x, (c =? 48)%N && match s with
                                           | [] => false
                                           | d :: _ => (d =? x)%N && true
                                           end = true -> (x < 48 \/ 57 < x)%N -> False).
  { intros x H Hx. apply andb_true_iff in H as [_ H]. destruct s as [|d s']; [discriminate|].
    simpl in Hs. apply andb_true_iff in Hs as [Hd _]. unfold is_digit in Hd.
    apply andb_true_iff in Hd as [Hd1 Hd2]. apply N.leb_le in Hd1, Hd2.
    rewrite andb_true_r in H. apply N.eqb_eq in H. lia. }
  destruct ((c =? 48)%N && match s with [] => false | d :: _ => (d =? 120)%N && true end)
    eqn:E1; [exfalso; apply (Ehex _ E1); lia|].
  destruct ((c =? 48)%N && match s with [] => false | d :: _ => (d =? 88)%N && true end)
    eqn:E2; [exfalso; apply (Ehex _ E2); lia|].
  cbn [orb]. rewrite parse_digits_numeral by (simpl; now rewrite Hc, Hs).
  simpl default. apply to_Number_exact. split; [|exact Hsmall].
  assert (Hpos : forall t acc, (0 <= acc)%Z -> forallb is_digit t = true ->
                               (0 <= numeral_value acc t)%Z).
  { induction t as [|d t IH]; intros acc Hacc Ht; [exact Hacc|]. simpl in Ht |- *.
    apply andb_true_iff in Ht as [Hd Ht]. apply IH; [|exact Ht].
    unfold is_digit in Hd. apply andb_true_iff in Hd as [Hd1 _]. apply N.leb_le in Hd1. lia. }
  apply Hpos; [lia | simpl; now rewrite Hc, Hs].
Qed.

Lemma parseInt_numeral s :
  s <> [] -> forallb is_digit s = true -> (numeral_value 0 s < 2 ^ 53)%Z ->
  parseInt w (VStr s) = Normal (Num (numeral_value 0 s)).
Proof.
  intros Hne Hdigits Hsmall. rewrite parseInt_VStr. f_equal.
  now apply parseInt_string_numeral.
Qed.

(** What the reshaping makes of tool results that have every field it
    reads. *)
Lemma dashboardData_fields netWorthRaw creditReportRaw netWorth kept report creditScore :
  reads w netWorthRaw ["netWorthResponse"; "totalNetWorthValue"; "units"]%string netWorth ->
  (netWorthResponse ← get netWorthRaw "netWorthResponse";
   assetValues ← get netWorthResponse "assetValues";
   kept ← call_filter assetValues is_not_liability;
   map_elements (shape_asset w) kept) = Normal kept ->
  (creditReports ← get creditReportRaw "creditReports"; get0 creditReports)
    = Normal report ->
  reads w report ["creditReportData"; "score"; "bureauScore"]%string creditScore ->
  dashboardData w netWorthRaw creditReportRaw =
  Normal (VObj [(js "netWorth", VNum netWorth);
                (js "assets", VArr kept);
                (js "creditScore", VNum creditScore)]).
Proof.
  intros (total & Htotal & Hnet) Hkept Hreport (bureauScore & Hscore & Hcredit).
  unfold dashboardData. unfold path, mbind, completion_bind in *.
  destruct (get netWorthRaw "netWorthResponse") as [netWorthResponse|]; [|discriminate].
  destruct (get netWorthResponse "totalNetWorthValue") as [totalNetWorthValue|];
    [|discriminate].
  destruct (get totalNetWorthValue "units") as [units|]; [|discriminate].
  injection Htotal as ->. rewrite Hnet.
  destruct (get netWorthResponse "assetValues") as [assetValues|]; [|discriminate].
  destruct (call_filter assetValues is_not_liability) as [filtered|]; [|discriminate].
  rewrite Hkept.
  destruct (get creditReportRaw "creditReports") as [creditReports|]; [|discriminate].
  rewrite Hreport.
  destruct (get report "creditReportData") as [creditReportData|]; [|discriminate].
  destruct (get creditReportData "score") as [score|]; [|discriminate].
  destruct (get score "bureauScore") as [b|]; [|discriminate].
  injection Hscore as ->. now rewrite Hcredit.
Qed.

Lemma dashboardData_shape netWorthRaw creditReportRaw netWorth elements entries report
    creditScore :
  reads w netWorthRaw ["netWorthResponse"; "totalNetWorthValue"; "units"]%string netWorth ->
  path netWorthRaw ["netWorthResponse"; "assetValues"]%string = Normal (VArr elements) ->
  Forall2 (describes w) elements entries ->
  (creditReports ← get creditReportRaw "creditReports"; get0 creditReports)
    = Normal report ->
  reads w report ["creditReportData"; "score"; "bureauScore"]%string creditScore ->
  dashboardData w netWorthRaw creditReportRaw =
  Normal (VObj [(js "netWorth", VNum netWorth);
                (js "assets",
                 VArr (asset_of <$> List.filter (fun e => negb (is_liability e)) entries));
                (js "creditScore", VNum creditScore)]).
Proof.
  intros Htotal Hassets Hentries Hreport Hscore.
  apply (dashboardData_fields _ _ _ _ report); try assumption.
  pose proof (assets_of_entries _ _ Hentries) as Hkept.
  unfold path, mbind, completion_bind in *.
  destruct (get netWorthRaw "netWorthResponse") as [netWorthResponse|]; [|discriminate].
  destruct (get netWorthResponse "assetValues") as [assetValues|]; [|discriminate].
  injection Hassets as ->. exact Hkept.
Qed.

End Shape.

(** ** The examples *)

Import Examples.

Lemma world_settles : settles world 0.
Proof.
  intros n contents functionResponses r _ Hlast Hgen [call [calls H]].
  simpl in Hgen. unfold model in Hgen. rewrite Hlast in Hgen.
  injection Hgen as <-. discriminate H.
Qed.

(** The dashboard request of the examples, on the tool results of the mock
    data: the asset tagged [ASSET_TYPE_MUTUAL_FUND] is reported under the
    label [MUTUAL FUND]. *)
Lemma dashboard_on_mock_data :
  dashboard_handler world (dashboard_query "s1") initial =
  Some (Normal
          (res_json
             (VObj [(js "netWorth", VNum (Num 658305));
                    (js "assets",
                     VArr [VObj [(js "type", VStr (js "MUTUAL FUND"));
                                 (js "value", VNum (Num 84613))];
                           VObj [(js "type", VStr (js "EPF"));
                                 (js "value", VNum (Num 211111))]]);
                    (js "creditScore", VNum (Num 746))])),
        add_events initial
          [RelayCall (tools_call (VStr (js "s1")) (js "fetch_net_worth"))
             (Normal (tool_result net_worth_text));
           RelayCall (tools_call (VStr (js "s1")) (js "fetch_credit_report"))
             (Normal (tool_result credit_report_text))]).
Proof. vm_compute. reflexivity. Qed.

Example parseInt_examples :
  parseInt_string (js "658305") = Num 658305 /\
  parseInt_string (js " -12abc") = Num (-12) /\
  parseInt_string (js "0x1f") = Num 31 /\
  parseInt_string (js "9007199254740993") = Num 9007199254740992 /\
  parseInt world VUndefined = Normal NaN /\
  parseInt world (VArr [VNum (Num 7); VNull]) = Normal (Num 7) /\
  parseInt world (VObj []) = Normal NaN /\
  parseInt world (VObj [(js "toString", VNum (Num 1))]) = Throw /\
  parseInt world (VArr [VObj [(js "toString", VNull)]]) = Throw.
Proof. repeat split; reflexivity. Qed.

Example label_examples :
  label (js "ASSET_TYPE_MUTUAL_FUND") = js "MUTUAL FUND" /\
  label (js "ASSET_TYPE_EPF") = js "EPF" /\
  label (js "ASSET_TYPE_US_SECURITIES_FOREIGN") = js "US SECURITIES_FOREIGN" /\
  label (js "OTHER_ASSET_TYPE_GOLD") = js "OTHER GOLD".
Proof. repeat split; reflexivity. Qed.

(** The scan takes the leftmost match: of four backticks before [json] the
    first three are deleted as a closing fence and the rest stays. *)
Example overlapping_fence :
  cleanedReply (js "````json" ++ [10%N] ++ js "{}") = js "`json" ++ [10%N] ++ js "{}".
Proof. reflexivity. Qed.

Example interior_fences_are_removed :
  cleanedReply (js "  see ```json" ++ [10%N] ++ js "{}``` and ```x``` ")
  = js "see {} and x".
Proof. reflexivity. Qed.

(** * The endpoints *)

(** C1: in a chat request that passes the input check, with a session
    identifier that can be printed (a string, a number, an object without a
    [toString] field), the calls that follow
    the first model call obey the protocol of the spec: each response that
    asks for N >= 1 tools is followed by exactly N relay calls, one per
    requested tool; when all N are fulfilled their N results go back to the
    model in one message, and the answer is handled the same way, until a
    response asks for no tool.  So the relay calls are as many as the model
    asked for in total, each carries the session identifier of the request in
    its [Mcp-Session-Id] header, and a request answered with status 200 ended
    on a response without tool requests.  Each call is settled as the model
    or the tool server answers it, and the results that go back are those of
    the relay calls, all fulfilled, in their order.  Once the model stops
    asking for tools the handler does produce its answer.  The session is
    assumed to have a history in the store, as it has in every store the
    server reaches ([reachable_history]). *)
Theorem relay_rounds_follow_protocol :
  forall w req_body message sessionId st h,
    chat_request req_body message sessionId ->
    printable sessionId = true ->
    session_history st sessionId = Some h ->
    (forall fuel resp st',
        chat_handler fuel w req_body st = Some (Normal resp, st') ->
        exists contents reply evs out,
          let chat := session_index st sessionId in
          trace st' = trace st ++ ModelCall chat contents reply :: evs /\
          rounds sessionId chat reply evs out /\
          relay_count evs
            = sum_list (requested <$> (ModelCall chat contents reply :: evs)) /\
          (forall request p,
              RelayCall request p ∈ evs ->
              header "Mcp-Session-Id" (post_headers request) = Some sessionId) /\
          (status resp = 200 -> exists final, out = Normal final /\ no_calls final) /\
          answered w (length (trace st)) (ModelCall chat contents reply :: evs)) /\
    (forall calls (promises : list (completion AxiosResponse)) toolResponses,
        length promises = length calls ->
        Promise_all promises = Normal toolResponses ->
        promises = Normal <$> toolResponses /\
        length (functionResponses_of calls toolResponses) = length calls /\
        forall i call toolResponse,
          calls !! i = Some call -> toolResponses !! i = Some toolResponse ->
          functionResponses_of calls toolResponses !! i
          = Some {| fr_name := fc_name call; fr_response := data toolResponse |}) /\
    (forall bound,
        settles w bound ->
        exists resp st',
          chat_handler (S (S bound)) w req_body st = Some (Normal resp, st')).
Proof.
  intros w req_body message sessionId st h Hreq Hprint Hh.
  pose proof (printable_admitted st sessionId Hprint) as Hlog. split; [|split].
  2:{ intros calls promises toolResponses Hlen Hall.
      split; [now apply Promise_all_Normal|].
      exact (functionResponses_of_all calls promises toolResponses Hlen Hall). }
  - intros fuel resp st' Hrun.
    destruct (chat_handler_rounds _ _ _ _ _ _ _ _ _ Hreq Hlog Hh Hrun)
      as (evs & out & Hres & Htr & Hrounds & _). cbv zeta in *.
    eexists _, _, evs, out. split; [exact Htr|]. split; [exact Hrounds|].
    split; [eapply rounds_relay_count; eauto|]. split; [|split].
    + intros request p Hin.
      destruct (rounds_relay_request _ _ _ _ _ Hrounds _ _ Hin) as [toolName ->].
      reflexivity.
    + intros H200. injection Hres as ->. destruct out as [final|]; [|discriminate].
      exists final. split; [reflexivity|]. eapply rounds_success; eauto.
    + destruct (chat_handler_answered w _ _ _ _ _ _ _ _ Hreq Hlog Hh Hrun)
        as (evs0 & Htr0 & Hevs0).
      rewrite Htr in Htr0. apply app_inv_head in Htr0. now rewrite Htr0.
  - intros bound Hsettles.
    rewrite (chat_handler_run w _ _ _ _ _ _ Hreq Hlog Hh). cbv zeta.
    destruct (generateContent w _ _) as [result|]; [|eauto].
    edestruct (reasoning_loop_finishes w sessionId (session_index st sessionId) bound
                 Hsettles result) as (res & st2 & ->).
    + simpl. apply list_lookup_insert_eq. apply lookup_lt_is_Some.
      rewrite with_session_history, Hh. eauto.
    + destruct res; eauto.
Qed.

Lemma relay_rounds_follow_protocol_witness :
  exists resp st',
    chat_handler 2 world (chat_body "chart my net worth" "s1") initial
      = Some (Normal resp, st') /\
    status resp = 200 /\
    exists contents reply evs out,
      trace st' = ModelCall 0 contents reply :: evs /\
      rounds (VStr (js "s1")) 0 reply evs out /\
      relay_count evs = 2.
Proof.
  destruct (relay_rounds_follow_protocol world
              (chat_body "chart my net worth" "s1")
              (VStr (js "chart my net worth")) (VStr (js "s1")) initial
              [systemInstruction]) as (Hprotocol & _ & Hfinish).
  - repeat split; reflexivity.
  - reflexivity.
  - reflexivity.
  - destruct (Hfinish 0 world_settles) as (resp & st' & Hrun).
    exists resp, st'. split; [exact Hrun|].
    destruct (Hprotocol _ _ _ Hrun) as (contents & reply & evs & out & Htr & Hr & Hn & _).
    assert (E : Some (Normal resp, st')
                = chat_handler 2 world (chat_body "chart my net worth" "s1") initial)
      by (symmetry; exact Hrun).
    vm_compute in E. injection E as -> ->.
    split; [reflexivity|].
    exists contents, reply, evs, out. split; [exact Htr|]. split; [exact Hr|].
    simpl in Htr. injection Htr as <- <- <-. reflexivity.
Defined.

(** C2, as stated, fails: on well-formed tool results the label of the
    mutual fund asset is not its tag with the prefix stripped
    ([MUTUAL_FUND]) but [MUTUAL FUND]. *)
Lemma dashboard_label_is_not_the_stripped_tag :
  exists assets st',
    dashboard_handler world (dashboard_query "s1") initial
      = Some (Normal (res_json
                        (VObj [(js "netWorth", VNum (Num 658305));
                               (js "assets", VArr assets);
                               (js "creditScore", VNum (Num 746))])), st') /\
    (item ← get0 (VArr assets); get item "type") = Normal (VStr (js "MUTUAL FUND")) /\
    strip_prefix (js "ASSET_TYPE_") (js "ASSET_TYPE_MUTUAL_FUND") = js "MUTUAL_FUND" /\
    js "MUTUAL FUND" <> js "MUTUAL_FUND".
Proof.
  eexists _, _. split; [apply dashboard_on_mock_data|].
  split; [reflexivity|]. split; [reflexivity|]. discriminate.
Qed.

(** C2, amended: a dashboard request with a session identifier (one that
    the log line can print, as every identifier of a query string is) makes
    exactly two relay calls, for [fetch_net_worth] and [fetch_credit_report],
    the second one issued whatever becomes of the first; given well-formed
    responses to both it answers with [{netWorth, assets, creditScore}] where
    [assets] has one entry per asset value whose tag does not start with
    [LIABILITY_TYPE], in their order, the label of an entry is its tag with
    the first [ASSET_TYPE_] removed and then the first underscore replaced by
    a space, and [netWorth], each asset value and [creditScore] are what
    [parseInt] reads in the corresponding field: for a decimal numeral below
    [2^53], the integer it denotes.  A response is well formed only if
    [parseInt] reads something in each of these fields, which it does unless
    the field holds an object with a [toString] field of its own. *)
Theorem dashboard_snapshot :
  forall w req_query sessionId st,
    dashboard_request req_query sessionId ->
    let n := length (trace st) in
    let first := tools_call sessionId (js "fetch_net_worth") in
    let second := tools_call sessionId (js "fetch_credit_report") in
    let st' := add_events st [RelayCall first (go_adk w n first);
                              RelayCall second (go_adk w (S n) second)] in
    (exists resp, dashboard_handler w req_query st = Some (Normal resp, st')) /\
    (forall netWorth creditReport netWorthText creditReportText netWorthRaw
            creditReportRaw netWorthValue elements entries report creditScoreValue,
        go_adk w n first = Normal netWorth ->
        go_adk w (S n) second = Normal creditReport ->
        nested_text netWorth = Normal (VStr netWorthText) ->
        nested_text creditReport = Normal (VStr creditReportText) ->
        JSON_parse w netWorthText = Normal netWorthRaw ->
        JSON_parse w creditReportText = Normal creditReportRaw ->
        reads w netWorthRaw ["netWorthResponse"; "totalNetWorthValue"; "units"]%string
          netWorthValue ->
        path netWorthRaw ["netWorthResponse"; "assetValues"]%string
          = Normal (VArr elements) ->
        Forall2 (describes w) elements entries ->
        (creditReports ← get creditReportRaw "creditReports"; get0 creditReports)
          = Normal report ->
        reads w report ["creditReportData"; "score"; "bureauScore"]%string
          creditScoreValue ->
        dashboard_handler w req_query st =
        Some (Normal
                (res_json
                   (VObj [(js "netWorth", VNum netWorthValue);
                          (js "assets",
                           VArr ((fun entry =>
                                    VObj [(js "type", VStr (label (fst entry)));
                                          (js "value", VNum (snd entry))])
                                   <$> List.filter (fun e => negb (is_liability e)) entries));
                          (js "creditScore", VNum creditScoreValue)])),
              st')) /\
    (forall s,
        s <> [] -> forallb is_digit s = true -> (numeral_value 0 s < 2 ^ 53)%Z ->
        parseInt w (VStr s) = Normal (Num (numeral_value 0 s))) /\
    (forall field,
        (printable field = true -> exists n, parseInt w field = Normal n) /\
        (printable field = false -> parseInt w field = Throw)).
Proof.
  intros w req_query sessionId st Hreq n first second st'.
  pose proof (dashboard_handler_run w _ _ st Hreq) as Hrun. cbv zeta in Hrun.
  split; [|split; [|split]].
  - eexists. exact Hrun.
  - intros netWorth creditReport netWorthText creditReportText netWorthRaw
      creditReportRaw netWorthValue elements entries report creditScoreValue
      H0 H1 Ht0 Ht1 Hp0 Hp1 Htotal Hassets Hentries Hreport Hscore.
    rewrite Hrun. unfold toolsToFetch. cbn [map batch_promises].
    fold n first second. rewrite H0, H1.
    rewrite (dashboard_answer_texts w _ _ _ _ Ht0 Ht1), Hp0, Hp1.
    unfold mbind, completion_bind.
    now rewrite (dashboardData_shape w _ _ _ _ _ _ _ Htotal Hassets Hentries Hreport Hscore).
  - apply parseInt_numeral.
  - intros field. pose proof (ToString_printable w field) as H.
    unfold parseInt. split; intros Hfield; rewrite Hfield in H.
    + destruct H as [s ->]. simpl. eauto.
    + now rewrite H.
Qed.

Lemma dashboard_snapshot_witness :
  dashboard_handler world (dashboard_query "s1") initial =
  Some (Normal
          (res_json
             (VObj [(js "netWorth", VNum (Num 658305));
                    (js "assets",
                     VArr [VObj [(js "type", VStr (js "MUTUAL FUND"));
                                 (js "value", VNum (Num 84613))];
                           VObj [(js "type", VStr (js "EPF"));
                                 (js "value", VNum (Num 211111))]]);
                    (js "creditScore", VNum (Num 746))])),
        add_events initial
          [RelayCall (tools_call (VStr (js "s1")) (js "fetch_net_worth"))
             (Normal (tool_result net_worth_text));
           RelayCall (tools_call (VStr (js "s1")) (js "fetch_credit_report"))
             (Normal (tool_result credit_report_text))]) /\
  parseInt world (VStr (js "658305")) = Normal (Num 658305).
Proof.
  destruct (dashboard_snapshot world (dashboard_query "s1") (VStr (js "s1")) initial)
    as (_ & Hshape & Hint & _); [repeat split; reflexivity|]. split.
  - pose (nw := match json_parse net_worth_text with Normal v => v | Throw => VNull end).
    pose (cr := match json_parse credit_report_text with Normal v => v | Throw => VNull end).
    pose (elements := match path nw ["netWorthResponse"; "assetValues"]%string with
                      | Normal (VArr l) => l
                      | _ => []
                      end).
    pose (report := match (r ← get cr "creditReports"; get0 r) with
                    | Normal v => v
                    | Throw => VNull
                    end).
    rewrite (Hshape (tool_result net_worth_text) (tool_result credit_report_text)
               net_worth_text credit_report_text nw cr (Num 658305) elements
               [(js "ASSET_TYPE_MUTUAL_FUND", Num 84613);
                (js "ASSET_TYPE_EPF", Num 211111);
                (js "LIABILITY_TYPE_VEHICLE_LOAN", Num 5000)]
               report (Num 746));
      try (vm_compute; reflexivity).
    + exists (VStr (js "658305")). split; vm_compute; reflexivity.
    + repeat constructor; try (vm_compute; reflexivity).
      * exists (VStr (js "84613")). split; vm_compute; reflexivity.
      * exists (VStr (js "211111")). split; vm_compute; reflexivity.
      * exists (VStr (js "5000")). split; vm_compute; reflexivity.
    + exists (VStr (js "746")). split; vm_compute; reflexivity.
  - apply (Hint (js "658305")); [discriminate | reflexivity | reflexivity].
Defined.

(** C3, as stated, fails: the text is not returned unchanged apart from
    the fences.  A text without any fence that has white space around it
    comes back trimmed. *)
Lemma text_without_fence_is_trimmed :
  exists st',
    chat_handler 1 world_padded (chat_body "hello" "s1") initial
      = Some (Normal (res_json (VObj [(js "reply", VStr (js "hello"))])), st') /\
    length (trace st') = 1 /\
    ~ occurs fence padded_answer /\
    replace_fences padded_answer = padded_answer /\
    js "hello" <> padded_answer.
Proof.
  eexists. split; [vm_compute; reflexivity|]. split; [reflexivity|].
  split; [|split; [reflexivity | discriminate]].
  intros H. apply occursb_spec in H. discriminate H.
Qed.

(** C3, amended: when the first response of the model asks for no tool, in
    a chat request whose session identifier can be printed, the loop ends
    after that one model call, no relay call is made, and the endpoint
    answers with the text of that response after the cleaning step: every
    fence removed, then the white space at both ends trimmed.  A text without
    fence comes back trimmed, and a text without fence and without outer
    white space comes back as it is. *)
Theorem no_tool_request_one_model_call :
  forall fuel w req_body message sessionId st h result finalReplyText,
    chat_request req_body message sessionId ->
    printable sessionId = true ->
    session_history st sessionId = Some h ->
    generateContent w (length (trace st)) (h ++ [FromUser (UserMessage message)])
      = Normal result ->
    no_calls result ->
    text result = Normal finalReplyText ->
    exists st',
      chat_handler (S fuel) w req_body st
        = Some (Normal (res_json
                          (VObj [(js "reply",
                                  VStr (trim (replace_fences finalReplyText)))])),
                st') /\
      trace st' = trace st ++
        [ModelCall (session_index st sessionId)
           (h ++ [FromUser (UserMessage message)]) (Normal result)] /\
      (~ occurs fence finalReplyText ->
       trim (replace_fences finalReplyText) = trim finalReplyText) /\
      (~ occurs fence finalReplyText ->
       (forall c, head finalReplyText = Some c -> is_white_space c = false) ->
       (forall c, last finalReplyText = Some c -> is_white_space c = false) ->
       trim (replace_fences finalReplyText) = finalReplyText).
Proof.
  intros fuel w req_body message sessionId st h result finalReplyText
    Hreq Hprint Hh Hreply Hquiet Htext.
  rewrite (chat_handler_run w (S fuel) _ _ _ _ _ Hreq (printable_admitted _ _ Hprint) Hh).
  cbv zeta. rewrite Hreply.
  rewrite reasoning_loop_quiet by exact Hquiet. rewrite Htext.
  eexists. split; [reflexivity|]. split; [|split].
  - simpl. now rewrite with_session_trace.
  - intros Hfence. rewrite replace_fences_id; [reflexivity|].
    destruct (occursb fence finalReplyText) eqn:E; [|reflexivity].
    apply occursb_spec in E. contradiction.
  - apply cleanedReply_id.
Qed.

Lemma no_tool_request_one_model_call_witness :
  exists st',
    chat_handler 1 world (chat_body "hello" "s1") initial
      = Some (Normal (res_json (VObj [(js "reply", VStr (jq "{'type': 'chart'}"))])), st') /\
    length (trace st') = 1.
Proof.
  destruct (no_tool_request_one_model_call 0 world
              (chat_body "hello" "s1") (VStr (js "hello")) (VStr (js "s1"))
              initial [systemInstruction] (says fenced_answer) fenced_answer)
    as [st' [H1 [H2 _]]].
  - repeat split; reflexivity.
  - reflexivity.
  - reflexivity.
  - reflexivity.
  - left. reflexivity.
  - reflexivity.
  - exists st'. split; [exact H1 | now rewrite H2].
Defined.

(** C4, as stated, fails: a net worth result whose total lacks the [units]
    field is a data-shape deviation, and the dashboard answers it with status
    200 and a net worth that is not a number. *)
Lemma missing_units_is_not_an_error :
  exists st',
    (netWorthRaw ← json_parse net_worth_without_units;
     path netWorthRaw ["netWorthResponse"; "totalNetWorthValue"; "units"]%string)
      = Normal VUndefined /\
    dashboard_handler world_without_units (dashboard_query "s1") initial
      = Some (Normal {| status := 200;
                        body := VObj [(js "netWorth", VNum NaN);
                                      (js "assets", VArr []);
                                      (js "creditScore", VNum (Num 746))] |}, st') /\
    200 <> 500.
Proof.
  eexists. split; [vm_compute; reflexivity|]. split; [vm_compute; reflexivity|].
  discriminate.
Qed.

(** C4, amended: past the input check, a failure aborts the whole request
    and is answered with status 500 and the one error body of the endpoint,
    whatever the cause: in a chat request, a rejected model call, a rejected
    relay call in a batch (the batch then yields no result at all) or a
    malformed model response; in a dashboard request, a rejected relay call
    or tool results whose reading throws, which is the case when the text
    does not parse, when an object on the way to a field is missing
    ([result], [netWorthResponse], [totalNetWorthValue], [creditReports]) or
    when [assetValues] is not an array.  A leaf field that is only handed to
    [parseInt] may be missing without failing the request. *)
Theorem failures_abort_the_request :
  (forall w fuel req_body message sessionId st resp st' evs,
      chat_request req_body message sessionId ->
      chat_handler fuel w req_body st = Some (Normal resp, st') ->
      trace st' = trace st ++ evs ->
      (resp = chat_error \/ exists finalReplyText, resp = chat_reply finalReplyText) /\
      ((exists e, e ∈ evs /\ failed e = true) -> resp = chat_error) /\
      ((exists c contents r,
           ModelCall c contents (Normal r) ∈ evs /\ functionCalls r = Throw) ->
       resp = chat_error)) /\
  (forall w req_query sessionId st,
      dashboard_request req_query sessionId ->
      let promises :=
        batch_promises w (length (trace st)) (map (tools_call sessionId) toolsToFetch) in
      exists resp st',
        dashboard_handler w req_query st = Some (Normal resp, st') /\
        (resp = dashboard_error \/ exists shaped, resp = res_json shaped) /\
        (Throw ∈ promises -> resp = dashboard_error) /\
        (forall netWorth creditReport,
            promises = [Normal netWorth; Normal creditReport] ->
            resp = match (netWorthRaw ← parse_tool_text w (Some netWorth);
                          creditReportRaw ← parse_tool_text w (Some creditReport);
                          dashboardData w netWorthRaw creditReportRaw) with
                   | Normal shaped => res_json shaped
                   | Throw => dashboard_error
                   end)) /\
  (forall w,
      (forall toolResponse result,
          get (data toolResponse) "result" = Normal result -> nullish result ->
          parse_tool_text w (Some toolResponse) = Throw) /\
      (forall toolResponse txt,
          nested_text toolResponse = Normal (VStr txt) -> JSON_parse w txt = Throw ->
          parse_tool_text w (Some toolResponse) = Throw) /\
      (forall netWorthRaw creditReportRaw netWorthResponse,
          get netWorthRaw "netWorthResponse" = Normal netWorthResponse ->
          nullish netWorthResponse ->
          dashboardData w netWorthRaw creditReportRaw = Throw) /\
      (forall netWorthRaw creditReportRaw totalNetWorthValue,
          path netWorthRaw ["netWorthResponse"; "totalNetWorthValue"]%string
            = Normal totalNetWorthValue ->
          nullish totalNetWorthValue ->
          dashboardData w netWorthRaw creditReportRaw = Throw) /\
      (forall netWorthRaw creditReportRaw assetValues,
          path netWorthRaw ["netWorthResponse"; "assetValues"]%string = Normal assetValues ->
          (forall elements, assetValues <> VArr elements) ->
          dashboardData w netWorthRaw creditReportRaw = Throw) /\
      (forall netWorthRaw creditReportRaw creditReports,
          get creditReportRaw "creditReports" = Normal creditReports ->
          nullish creditReports ->
          dashboardData w netWorthRaw creditReportRaw = Throw)).
Proof.
  split; [|split].
  - intros w fuel req_body message sessionId st resp st' evs Hreq Hrun Htr.
    destruct (admitted_or_not st sessionId) as [Hlog | [Hnew Hlog]].
    2:{ rewrite (chat_handler_unprintable w fuel _ _ _ _ Hreq Hnew Hlog) in Hrun.
        injection Hrun as <- <-. split; [now left|]. split; intros _; reflexivity. }
    destruct (chat_handler_cases _ _ _ _ _ _ Hrun)
      as [(_ & _ & Hno) | [(m & sid & _ & _ & H & ->)
                          | (m & sid & h & evs' & out & _ & _ & H & Htr' & Hr & _)]].
    + exfalso. eauto.
    + injection H as ->. rewrite with_session_trace in Htr.
      assert (evs = []) as ->.
      { apply (app_inv_head (trace st)). now rewrite app_nil_r. }
      split; [now left|]. split; [reflexivity|]. reflexivity.
    + injection H as ->. rewrite Htr in Htr'. apply app_inv_head in Htr'. subst evs.
      split; [|split].
      * destruct out as [final|]; [|now left]. simpl.
        destruct (text final); [right; eauto | now left].
      * intros (e & Hin & Hf).
        now rewrite (rounds_failed_event _ _ _ _ _ _ _ Hr Hin Hf).
      * intros (c & contents & r & Hin & Hbad).
        destruct out as [final|]; [|reflexivity].
        exfalso. eapply rounds_well_formed; eauto.
  - intros w req_query sessionId st Hreq promises.
    rewrite (dashboard_handler_run w _ _ st Hreq). cbv zeta. fold promises.
    eexists _, _. split; [reflexivity|]. split; [|split].
    + unfold dashboard_answer. destruct (_ ≫= _); [right; eauto | now left].
    + intros Hin. apply Promise_all_Throw in Hin. unfold dashboard_answer.
      now rewrite Hin.
    + intros netWorth creditReport ->. reflexivity.
  - intros w. split; [|split; [|split; [|split; [|split]]]].
    + intros toolResponse result Hres Hnull. unfold parse_tool_text.
      rewrite Hres. unfold mbind, completion_bind. now rewrite (get_nullish _ _ Hnull).
    + intros toolResponse txt Htxt Hparse. rewrite parse_tool_text_nested, Htxt.
      exact Hparse.
    + intros netWorthRaw creditReportRaw netWorthResponse Hget Hnull.
      unfold dashboardData. rewrite Hget. unfold mbind, completion_bind.
      now rewrite (get_nullish _ _ Hnull).
    + intros netWorthRaw creditReportRaw totalNetWorthValue Hpath Hnull.
      unfold dashboardData. unfold path, mbind, completion_bind in *.
      destruct (get netWorthRaw "netWorthResponse") as [r|]; [|reflexivity].
      destruct (get r "totalNetWorthValue") as [t|]; [|reflexivity].
      injection Hpath as ->. now rewrite (get_nullish _ _ Hnull).
    + intros netWorthRaw creditReportRaw assetValues Hpath Hnot.
      unfold dashboardData. unfold path, mbind, completion_bind in *.
      destruct (get netWorthRaw "netWorthResponse") as [r|]; [|reflexivity].
      destruct (get r "totalNetWorthValue") as [t|]; [|reflexivity].
      destruct (get t "units"); [|reflexivity].
      destruct (parseInt w _); [|reflexivity].
      destruct (get r "assetValues") as [av|]; [|reflexivity].
      injection Hpath as ->. destruct assetValues; try reflexivity.
      exfalso. eapply Hnot. reflexivity.
    + intros netWorthRaw creditReportRaw creditReports Hget Hnull.
      unfold dashboardData. rewrite Hget. unfold mbind, completion_bind.
      destruct (get netWorthRaw "netWorthResponse") as [r|]; [|reflexivity].
      destruct (get r "totalNetWorthValue") as [t|]; [|reflexivity].
      destruct (get t "units"); [|reflexivity].
      destruct (parseInt w _); [|reflexivity].
      destruct (get r "assetValues") as [av|]; [|reflexivity].
      destruct (call_filter av is_not_liability) as [kept|]; [|reflexivity].
      destruct (map_elements (shape_asset w) kept); [|reflexivity].
      destruct Hnull as [-> | ->]; reflexivity.
Qed.

Lemma failures_abort_the_request_witness :
  (exists st' e,
      chat_handler 2 world_tools_down (chat_body "chart my net worth" "s1") initial
        = Some (Normal chat_error, st') /\
      e ∈ trace st' /\ failed e = true) /\
  (exists st',
      dashboard_handler world_tools_down (dashboard_query "s1") initial
        = Some (Normal dashboard_error, st')) /\
  dashboardData world (VObj []) (VObj []) = Throw.
Proof.
  destruct failures_abort_the_request as (Hchat & Hdash & Hshape). split; [|split].
  - destruct (chat_handler 2 world_tools_down (chat_body "chart my net worth" "s1") initial)
      as [[[resp|] st']|] eqn:Hrun; try (vm_compute in Hrun; discriminate).
    assert (Hin : RelayCall (tools_call (VStr (js "s1")) (js "fetch_net_worth")) Throw
                  ∈ trace st').
    { pose proof Hrun as E. vm_compute in E. injection E as _ <-.
      apply list_elem_of_further, list_elem_of_here. }
    destruct (Hchat world_tools_down 2 (chat_body "chart my net worth" "s1")
                (VStr (js "chart my net worth")) (VStr (js "s1")) initial resp st'
                (trace st')) as (_ & Hfailed & _);
      [repeat split; reflexivity | exact Hrun | reflexivity |].
    rewrite (Hfailed (ex_intro _ _ (conj Hin eq_refl))).
    eexists _, _. split; [reflexivity|]. split; [exact Hin | reflexivity].
  - destruct (Hdash world_tools_down (dashboard_query "s1") (VStr (js "s1")) initial)
      as (resp & st' & Hrun & _ & Hthrow & _); [repeat split; reflexivity|].
    rewrite Hthrow in Hrun by apply list_elem_of_here.
    exists st'. exact Hrun.
  - destruct (Hshape world) as (_ & _ & Hmissing & _).
    apply (Hmissing (VObj []) (VObj []) VUndefined); [reflexivity | now left].
Defined.

(** C5: the first chat request of a session identifier adds an entry for it
    to the registry, with a new chat object; whatever requests are handled
    afterwards, no entry is removed, the identifier still leads to that chat
    object, and its history has only grown; so a later chat request with the
    same identifier adds no entry and sends its message to the model after
    that history, which starts with the exchange of the first request. *)
Theorem session_is_created_once_and_reused :
  forall w fuel req_body message s st resp st1,
    chat_request req_body message (VStr s) ->
    Map_get (chatSessions st) (VStr s) = None ->
    chat_handler fuel w req_body st = Some (Normal resp, st1) ->
    let chat := length (chats st) in
    chatSessions st1 = chatSessions st ++ [(VStr s, chat)] /\
    exists h1,
      chats st1 !! chat = Some h1 /\
      (forall r1,
          generateContent w (length (trace st))
            [systemInstruction; FromUser (UserMessage message)] = Normal r1 ->
          exists more,
            h1 = [systemInstruction; FromUser (UserMessage message); FromModel r1] ++ more) /\
      forall requests st2,
        serve w requests st1 = Some st2 ->
        (exists added, chatSessions st2 = chatSessions st1 ++ added) /\
        Map_get (chatSessions st2) (VStr s) = Some chat /\
        exists h2,
          chats st2 !! chat = Some (h1 ++ h2) /\
          forall fuel' req_body' message' resp' st3,
            chat_request req_body' message' (VStr s) ->
            chat_handler fuel' w req_body' st2 = Some (Normal resp', st3) ->
            chatSessions st3 = chatSessions st2 /\
            exists reply evs,
              trace st3 = trace st2 ++
                ModelCall chat (h1 ++ h2 ++ [FromUser (UserMessage message')]) reply :: evs.
Proof.
  intros w fuel req_body message s st resp st1 Hreq Hnew Hrun chat.
  assert (Hh : session_history st (VStr s) = Some [systemInstruction]).
  { unfold session_history. now rewrite Hnew. }
  assert (Hidx : session_index st (VStr s) = chat).
  { unfold session_index. now rewrite Hnew. }
  destruct (chat_handler_rounds _ _ _ _ _ _ _ _ _ Hreq
              (printable_admitted st (VStr s) eq_refl) Hh Hrun)
    as (evs & out & _ & _ & _ & Hreg & Hext). cbv zeta in *. rewrite Hidx in Hext.
  assert (Hreg1 : chatSessions st1 = chatSessions st ++ [(VStr s, chat)]).
  { rewrite Hreg. unfold with_session. now rewrite Hnew. }
  split; [exact Hreg1|].
  set (contents := [systemInstruction] ++ [FromUser (UserMessage message)]) in *.
  set (reply := generateContent w (length (trace st)) contents) in *.
  assert (H0 : chats (with_session st (VStr s)) !! chat = Some [systemInstruction]).
  { rewrite <- Hidx, with_session_history. exact Hh. }
  assert (Hfirst : exists h0,
             chats (after_model_call (with_session st (VStr s)) chat contents reply) !! chat
             = Some h0 /\
             forall r1, reply = Normal r1 -> h0 = contents ++ [FromModel r1]).
  { destruct reply as [r|] eqn:Er; simpl.
    - eexists. split.
      + apply list_lookup_insert_eq. eapply lookup_lt_Some; eauto.
      + now intros r1 [= <-].
    - exists [systemInstruction]. split; [exact H0 | discriminate]. }
  destruct Hfirst as (h0 & Hh0 & Hr1).
  destruct Hext as (_ & _ & Hchats). destruct (Hchats _ _ Hh0) as [h' Hh1].
  exists (h0 ++ h'). split; [exact Hh1|]. split.
  { intros r1 Hr. exists h'. now rewrite (Hr1 r1 Hr). }
  intros requests st2 Hserve.
  destruct (serve_extends _ _ _ _ Hserve) as ([added Hadd] & _ & Hchats2).
  destruct (Hchats2 _ _ Hh1) as [h2 Hh2].
  assert (Hget : Map_get (chatSessions st2) (VStr s) = Some chat).
  { rewrite Hadd, Hreg1, !Map_get_app, Hnew. simpl.
    now rewrite (bool_decide_eq_true_2 _ eq_refl). }
  split; [now exists added|]. split; [exact Hget|].
  exists h2. split; [exact Hh2|].
  intros fuel' req_body' message' resp' st3 Hreq' Hrun'.
  assert (Hh' : session_history st2 (VStr s) = Some ((h0 ++ h') ++ h2)).
  { unfold session_history. now rewrite Hget. }
  destruct (chat_handler_rounds _ _ _ _ _ _ _ _ _ Hreq'
              (printable_admitted st2 (VStr s) eq_refl) Hh' Hrun')
    as (evs' & out' & _ & Htr' & _ & Hreg' & _). cbv zeta in *.
  split.
  - rewrite Hreg'. unfold with_session. now rewrite Hget.
  - unfold session_index in Htr'. rewrite Hget in Htr'.
    rewrite <- app_assoc in Htr'. eauto.
Qed.

Lemma session_is_created_once_and_reused_witness :
  chat_handler 1 world (chat_body "hello" "s1") initial
    = Some (Normal (chat_reply fenced_answer), after_hello) /\
  chatSessions after_hello = [(VStr (js "s1"), 0)] /\
  serve world [(1, GetDashboard (dashboard_query "s1"));
               (1, PostChat (chat_body "hello" "s2"))] after_hello = Some after_others /\
  Map_get (chatSessions after_others) (VStr (js "s1")) = Some 0 /\
  exists h resp st3 reply evs,
    chat_handler 1 world (chat_body "and now?" "s1") after_others
      = Some (Normal resp, st3) /\
    chatSessions st3 = chatSessions after_others /\
    trace st3 = trace after_others ++
      ModelCall 0 ([systemInstruction; FromUser (UserMessage (VStr (js "hello")));
                    FromModel (says fenced_answer)] ++ h) reply :: evs.
Proof.
  assert (Hrun : chat_handler 1 world (chat_body "hello" "s1") initial
                 = Some (Normal (chat_reply fenced_answer), after_hello))
    by (vm_compute; reflexivity).
  assert (Hserve : serve world [(1, GetDashboard (dashboard_query "s1"));
                                (1, PostChat (chat_body "hello" "s2"))] after_hello
                   = Some after_others) by (vm_compute; reflexivity).
  destruct (session_is_created_once_and_reused world 1 (chat_body "hello" "s1")
              (VStr (js "hello")) (js "s1") initial (chat_reply fenced_answer) after_hello)
    as (Hreg & h1 & Hh1 & Hfirst & Hlater);
    [repeat split; reflexivity | reflexivity | exact Hrun |].
  destruct (Hfirst (says fenced_answer) eq_refl) as [more Hmore].
  destruct (Hlater _ _ Hserve) as (_ & Hget & h2 & Hh2 & Hnext).
  split; [exact Hrun|]. split; [exact Hreg|]. split; [exact Hserve|].
  split; [exact Hget|].
  destruct (chat_handler 1 world (chat_body "and now?" "s1") after_others)
    as [[[resp|] st3]|] eqn:Hrun'; try (vm_compute in Hrun'; discriminate).
  destruct (Hnext 1 (chat_body "and now?" "s1") (VStr (js "and now?")) resp st3)
    as (Hreg3 & reply & evs & Htr); [repeat split; reflexivity | exact Hrun' |].
  exists (more ++ h2 ++ [FromUser (UserMessage (VStr (js "and now?")))]), resp, st3, reply, evs.
  split; [reflexivity|]. split; [exact Hreg3|].
  rewrite Htr, Hmore. now rewrite <- !app_assoc.
Defined.

(** C6, as stated, fails: a chat request whose body was not parsed
    ([req.body] is [undefined]) misses both fields; the destructuring of
    line 57 throws inside the [try] and the request is answered with status
    500, not 400. *)
Lemma chat_without_body_is_500 :
  get VUndefined "message" = Throw /\
  get VUndefined "sessionId" = Throw /\
  chat_handler 1 world VUndefined initial = Some (Normal chat_error, initial) /\
  status chat_error = 500 /\
  500 <> 400.
Proof. repeat split; try reflexivity. discriminate. Qed.

(** C6, amended: a chat request whose body was parsed and lacks a message
    or a session identifier, and a dashboard request without a session
    identifier, is answered with status 400 and an error body; a chat
    request whose body was not parsed at all is answered with status 500.
    In each case the store is left as it was, so no call went to the model
    or to the tool server.  A body is of one of the two kinds: either it was
    not parsed or both fields can be read in it. *)
Theorem missing_input_is_400 :
  (forall fuel w req_body message sessionId st,
      get req_body "message" = Normal message ->
      get req_body "sessionId" = Normal sessionId ->
      truthy message = false \/ truthy sessionId = false ->
      chat_handler fuel w req_body st = Some (Normal chat_bad_request, st) /\
      status chat_bad_request = 400 /\
      body chat_bad_request = error_body "Message and sessionId are required.") /\
  (forall fuel w req_body st,
      nullish req_body ->
      chat_handler fuel w req_body st = Some (Normal chat_error, st) /\
      status chat_error = 500 /\
      body chat_error = error_body "An internal server error occurred.") /\
  (forall req_body,
      nullish req_body \/
      exists message sessionId,
        get req_body "message" = Normal message /\
        get req_body "sessionId" = Normal sessionId) /\
  (forall w req_query sessionId st,
      get req_query "sessionId" = Normal sessionId ->
      truthy sessionId = false ->
      dashboard_handler w req_query st = Some (Normal dashboard_bad_request, st) /\
      status dashboard_bad_request = 400 /\
      body dashboard_bad_request = error_body "sessionId is required.").
Proof.
  split; [|split; [|split]].
  - intros fuel w req_body message sessionId st Hm Hs Hfalsy.
    split; [|split; reflexivity].
    unfold chat_handler, try_catch, mbind, M_bind, lift. rewrite Hm, Hs.
    destruct Hfalsy as [-> | ->]; [reflexivity|].
    now rewrite orb_true_r.
  - intros fuel w req_body st Hnull. split; [|split; reflexivity].
    unfold chat_handler, try_catch, mbind, M_bind, lift.
    now rewrite (get_nullish req_body "message" Hnull).
  - intros req_body. destruct req_body; try (right; eauto; fail).
    + left. now left.
    + left. now right.
  - intros w req_query sessionId st Hs Hfalsy. split; [|split; reflexivity].
    unfold dashboard_handler, try_catch, mbind, M_bind, lift. now rewrite Hs, Hfalsy.
Qed.

Lemma missing_input_is_400_witness :
  chat_handler 3 world (VObj [(js "message", VStr (js "hello"))]) initial
    = Some (Normal chat_bad_request, initial) /\
  chat_handler 3 world VNull initial = Some (Normal chat_error, initial) /\
  dashboard_handler world (VObj []) initial
    = Some (Normal dashboard_bad_request, initial).
Proof.
  destruct missing_input_is_400 as (Hchat & Hbody & _ & Hdash).
  split; [|split].
  - apply (Hchat 3 world _ (VStr (js "hello")) VUndefined initial);
      [reflexivity | reflexivity | right; reflexivity].
  - apply (Hbody 3 world VNull initial). right. reflexivity.
  - apply (Hdash world _ VUndefined initial); reflexivity.
Defined.

(** C7: a relay call, from either endpoint, posts to the tool server a
    JSON-RPC body with method [tools/call] and params [{name, arguments}]
    where [arguments] is the empty object whatever arguments the model
    attached to the invocation, and carries the session identifier of the
    request in the [Mcp-Session-Id] header; and the dashboard endpoint takes
    the tool result from the string at [result.content[0].text] of each
    response, which it parses as JSON. *)
Theorem relay_call_shape :
  (forall sessionId toolName,
      let request := tools_call sessionId toolName in
      post_url request = js "http://localhost:8080/mcp/stream" /\
      get (post_data request) "jsonrpc" = Normal (VStr (js "2.0")) /\
      get (post_data request) "method" = Normal (VStr (js "tools/call")) /\
      get (post_data request) "params"
        = Normal (VObj [(js "name", VStr toolName); (js "arguments", VObj [])]) /\
      header "Mcp-Session-Id" (post_headers request) = Some sessionId) /\
  (forall fuel w r st res st',
      handle fuel w r st = Some (res, st') ->
      exists evs,
        trace st' = trace st ++ evs /\
        forall request p,
          RelayCall request p ∈ evs ->
          exists toolName, request = tools_call (request_session r) toolName) /\
  (forall w req_query sessionId st netWorth creditReport netWorthText creditReportText,
      dashboard_request req_query sessionId ->
      go_adk w (length (trace st)) (tools_call sessionId (js "fetch_net_worth"))
        = Normal netWorth ->
      go_adk w (S (length (trace st))) (tools_call sessionId (js "fetch_credit_report"))
        = Normal creditReport ->
      nested_text netWorth = Normal (VStr netWorthText) ->
      nested_text creditReport = Normal (VStr creditReportText) ->
      exists st',
        dashboard_handler w req_query st
        = Some (Normal match (netWorthRaw ← JSON_parse w netWorthText;
                              creditReportRaw ← JSON_parse w creditReportText;
                              dashboardData w netWorthRaw creditReportRaw) with
                       | Normal shaped => res_json shaped
                       | Throw => dashboard_error
                       end, st')).
Proof.
  split; [|split].
  - intros sessionId toolName. repeat split; reflexivity.
  - apply handle_relay_calls.
  - intros w req_query sessionId st netWorth creditReport netWorthText creditReportText
      Hreq H0 H1 Ht0 Ht1.
    rewrite (dashboard_handler_run w _ _ _ Hreq). cbv zeta. eexists. f_equal. f_equal. f_equal.
    unfold toolsToFetch. cbn [map batch_promises]. rewrite H0, H1.
    now apply dashboard_answer_texts.
Qed.

Lemma relay_call_shape_witness :
  (exists res st' evs,
      handle 2 world (PostChat (chat_body "chart my net worth" "s1")) initial
        = Some (res, st') /\
      trace st' = evs /\
      forall request p, RelayCall request p ∈ evs ->
        exists toolName, request = tools_call (VStr (js "s1")) toolName) /\
  (exists resp st',
      dashboard_handler world (dashboard_query "s1") initial = Some (Normal resp, st') /\
      status resp = 200).
Proof.
  destruct relay_call_shape as (_ & Hcalls & Hread). split.
  - destruct (handle 2 world (PostChat (chat_body "chart my net worth" "s1")) initial)
      as [[res st']|] eqn:Hrun; [|vm_compute in Hrun; discriminate].
    destruct (Hcalls _ _ _ _ _ _ Hrun) as (evs & Htr & H).
    exists res, st', evs. split; [reflexivity|]. split; [exact Htr|]. exact H.
  - destruct (Hread world (dashboard_query "s1") (VStr (js "s1")) initial
                (tool_result net_worth_text) (tool_result credit_report_text)
                net_worth_text credit_report_text) as [st' Hrun];
      try reflexivity; [repeat split; reflexivity|].
    eexists _, st'. split; [exact Hrun|]. vm_compute. reflexivity.
Defined.

(** C8: when a chat request creates the session of its identifier and a
    later step fails (the model call or a relay call), the answer is the 500
    error, and the entry created for the session is still in the registry,
    which therefore differs from the registry before the request. *)
Theorem failed_request_keeps_session :
  forall w fuel req_body message sessionId st resp st' evs e,
    chat_request req_body message sessionId ->
    Map_get (chatSessions st) sessionId = None ->
    chat_handler fuel w req_body st = Some (Normal resp, st') ->
    trace st' = trace st ++ evs ->
    e ∈ evs -> failed e = true ->
    resp = chat_error /\
    status resp = 500 /\
    chatSessions st' = chatSessions st ++ [(sessionId, length (chats st))] /\
    chatSessions st' <> chatSessions st.
Proof.
  intros w fuel req_body message sessionId st resp st' evs e Hreq Hnew Hrun Htr Hin Hfailed.
  assert (Hh : session_history st sessionId = Some [systemInstruction]).
  { unfold session_history. now rewrite Hnew. }
  assert (Hlog : admitted st sessionId).
  { destruct (admitted_or_not st sessionId) as [Hlog | [_ Hlog]]; [exact Hlog|].
    rewrite (chat_handler_unprintable w fuel _ _ _ _ Hreq Hnew Hlog) in Hrun.
    injection Hrun as _ <-. rewrite <- (app_nil_r (trace st)) in Htr at 1.
    apply app_inv_head in Htr. subst evs. inversion Hin. }
  destruct (chat_handler_rounds _ _ _ _ _ _ _ _ _ Hreq Hlog Hh Hrun)
    as (evs' & out & Hres & Htr' & Hrounds & Hreg & _). cbv zeta in *.
  rewrite Htr in Htr'. apply app_inv_head in Htr'. subst evs.
  rewrite (rounds_failed_event _ _ _ _ _ _ _ Hrounds Hin Hfailed) in Hres.
  injection Hres as ->. split; [reflexivity|]. split; [reflexivity|].
  assert (Hreg' : chatSessions st' = chatSessions st ++ [(sessionId, length (chats st))]).
  { rewrite Hreg. unfold with_session. now rewrite Hnew. }
  split; [exact Hreg'|]. rewrite Hreg'. intros H.
  apply (f_equal length) in H. rewrite length_app in H. simpl in H. lia.
Qed.

Lemma failed_request_keeps_session_witness :
  exists st' e,
    chat_handler 1 world_down (chat_body "hello" "s1") initial
      = Some (Normal chat_error, st') /\
    trace st' = [e] /\ failed e = true /\
    chatSessions st' = [(VStr (js "s1"), 0)].
Proof.
  assert (Hrun : chat_handler 1 world_down (chat_body "hello" "s1") initial
                 = Some (Normal chat_error,
                         {| chatSessions := [(VStr (js "s1"), 0)];
                            chats := [[systemInstruction]];
                            trace := [ModelCall 0 [systemInstruction;
                                         FromUser (UserMessage (VStr (js "hello")))] Throw] |}))
    by reflexivity.
  eexists _, _. split; [exact Hrun|]. split; [reflexivity|]. split; [reflexivity|].
  eapply (failed_request_keeps_session world_down 1 (chat_body "hello" "s1")
            (VStr (js "hello")) (VStr (js "s1")) initial _ _ _ _).
  - repeat split; reflexivity.
  - reflexivity.
  - exact Hrun.
  - reflexivity.
  - apply list_elem_of_here.
  - reflexivity.
Defined.

(** C9: the dashboard endpoint neither reads nor writes the session
    registry: whatever the registry and the chat objects are, it gives the
    same answer and makes the same calls, and it leaves both as they were,
    whether the request succeeds or fails. *)
Theorem dashboard_leaves_registry :
  forall w req_query tr,
  exists resp evs,
    forall registry objects,
      dashboard_handler w req_query
        {| chatSessions := registry; chats := objects; trace := tr |}
      = Some (Normal resp,
              {| chatSessions := registry; chats := objects; trace := tr ++ evs |}).
Proof.
  intros w req_query tr.
  destruct (get req_query "sessionId") as [sessionId|] eqn:Es.
  2:{ exists dashboard_error, []. intros registry objects.
      unfold dashboard_handler, try_catch, mbind, M_bind, lift. rewrite Es.
      now rewrite app_nil_r. }
  destruct (truthy sessionId) eqn:Et.
  - destruct (printable sessionId) eqn:Elog.
    + exists (dashboard_answer w
                (batch_promises w (length tr) (map (tools_call sessionId) toolsToFetch))),
        (batch_events w (length tr) (map (tools_call sessionId) toolsToFetch)).
      intros registry objects.
      rewrite (dashboard_handler_run w _ sessionId) by (now repeat split). reflexivity.
    + exists dashboard_error, []. intros registry objects.
      unfold dashboard_handler, try_catch, mbind, M_bind, lift. rewrite Es, Et.
      cbn [negb]. rewrite (template_literal_unprintable w sessionId Elog).
      now rewrite app_nil_r.
  - exists dashboard_bad_request, []. intros registry objects.
    unfold dashboard_handler, try_catch, mbind, M_bind, lift. rewrite Es, Et.
    now rewrite app_nil_r.
Qed.



(** * Further properties of the code *)

(** ** Sessions and their histories *)

Lemma exchanges_app turns turns' :
  exchanges (turns ++ turns') = exchanges turns ++ exchanges turns'.
Proof. unfold exchanges. apply flat_map_app. Qed.

(** What the loop does to the store: it adds completed exchanges to the
    history of its own chat, leaves every other chat object as it was, and
    calls the model only on its own chat, each time with the history it
    started from, the exchanges completed since, and one new message. *)
Lemma reasoning_loop_frame w sessionId chat fuel :
  forall result st res st' h,
    chats st !! chat = Some h ->
    reasoning_loop fuel w sessionId chat result st = Some (res, st') ->
    length (chats st') = length (chats st) /\
    (forall c, c <> chat -> chats st' !! c = chats st !! c) /\
    (exists turns, chats st' !! chat = Some (h ++ exchanges turns)) /\
    exists evs,
      trace st' = trace st ++ evs /\
      forall c contents reply,
        ModelCall c contents reply ∈ evs ->
        c = chat /\ exists turns m, contents = h ++ exchanges turns ++ [FromUser m].
Proof.
  induction fuel as [|fuel IH]; intros result st res st' h Hh Hrun; [discriminate|].
  rewrite (reasoning_loop_step w _ _ _ _ _ h Hh) in Hrun.
  assert (Hstay : forall r, Some (r, st) = Some (res, st') ->
            length (chats st') = length (chats st) /\
            (forall c, c <> chat -> chats st' !! c = chats st !! c) /\
            (exists turns, chats st' !! chat = Some (h ++ exchanges turns)) /\
            exists evs,
              trace st' = trace st ++ evs /\
              forall c contents reply,
                ModelCall c contents reply ∈ evs ->
                c = chat /\ exists turns m, contents = h ++ exchanges turns ++ [FromUser m]).
  { intros r [= _ <-]. split; [reflexivity|]. split; [reflexivity|]. split.
    - exists []. simpl. now rewrite app_nil_r.
    - exists []. rewrite app_nil_r. split; [reflexivity|]. intros ? ? ? H. inversion H. }
  destruct (functionCalls result) as [[[|call calls]|]|]; eauto.
  cbv zeta in Hrun.
  set (requests := map (fun c => tools_call sessionId (fc_name c)) (call :: calls)) in *.
  set (batch := batch_events w (length (trace st)) requests) in *.
  assert (Hbatch : forall c contents reply, ModelCall c contents reply ∈ batch -> False).
  { intros c contents reply H. unfold batch in H. clear -H.
    revert H. generalize (length (trace st)). induction requests as [|r rest IHr];
      intros n H; simpl in H; [inversion H|].
    apply elem_of_cons in H as [H|H]; [discriminate | eauto]. }
  destruct (Promise_all _) as [toolResponses|].
  2:{ injection Hrun as _ <-. split; [reflexivity|]. split; [reflexivity|]. split.
      - exists []. simpl. now rewrite app_nil_r.
      - exists batch. split; [reflexivity|]. intros c contents reply H.
        destruct (Hbatch _ _ _ H). }
  set (message := FunctionResponses (functionResponses_of (call :: calls) toolResponses)) in *.
  set (st1 := add_events st batch) in *.
  destruct (generateContent w (length (trace st1)) (h ++ [FromUser message]))
    as [result'|] eqn:Ereply.
  - set (st2 := after_model_call st1 chat (h ++ [FromUser message]) (Normal result')) in *.
    assert (Hh2 : chats st2 !! chat = Some ((h ++ [FromUser message]) ++ [FromModel result'])).
    { simpl. apply list_lookup_insert_eq. eapply lookup_lt_Some; eauto. }
    destruct (IH _ _ _ _ _ Hh2 Hrun) as (Hlen & Hother & [turns Hown] & evs & Htr & Hcalls).
    split; [rewrite Hlen; simpl; apply length_insert|]. split.
    { intros c Hc. rewrite (Hother c Hc). simpl. now apply list_lookup_insert_ne. }
    split.
    { exists ((message, result') :: turns). rewrite Hown. simpl.
      now rewrite <- !app_assoc. }
    exists (batch ++ ModelCall chat (h ++ [FromUser message]) (Normal result') :: evs).
    split.
    { rewrite Htr. simpl. now rewrite <- !app_assoc. }
    intros c contents reply H. apply elem_of_app in H as [H|H].
    { destruct (Hbatch _ _ _ H). }
    apply elem_of_cons in H as [H|H].
    { injection H as -> -> _. split; [reflexivity|]. now exists [], message. }
    destruct (Hcalls _ _ _ H) as [-> (turns' & m & ->)]. split; [reflexivity|].
    exists ((message, result') :: turns'), m. simpl. now rewrite <- !app_assoc.
  - injection Hrun as _ <-. split; [reflexivity|]. split; [reflexivity|]. split.
    { exists []. simpl. now rewrite app_nil_r. }
    exists (batch ++ [ModelCall chat (h ++ [FromUser message]) Throw]). split.
    { simpl. now rewrite <- !app_assoc. }
    intros c contents reply H. apply elem_of_app in H as [H|H].
    { destruct (Hbatch _ _ _ H). }
    apply elem_of_cons in H as [H|H]; [|inversion H].
    injection H as -> -> _. split; [reflexivity|]. now exists [], message.
Qed.

Lemma with_session_other st sessionId c :
  c <> session_index st sessionId ->
  chats (with_session st sessionId) !! c = chats st !! c.
Proof.
  unfold session_index, with_session.
  destruct (Map_get (chatSessions st) sessionId); [reflexivity|]. simpl. intros Hc.
  destruct (decide (c < length (chats st))) as [Hlt|Hge].
  - now apply lookup_app_l.
  - rewrite !lookup_ge_None_2; [reflexivity | lia |].
    rewrite length_app. simpl. lia.
Qed.

(** The same for a whole chat request that passes the input check and the
    log line. *)
Lemma chat_handler_frame w fuel req_body message sessionId st res st' :
  chat_request req_body message sessionId ->
  admitted st sessionId ->
  chat_handler fuel w req_body st = Some (res, st') ->
  let chat := session_index st sessionId in
  let st0 := with_session st sessionId in
  chatSessions st' = chatSessions st0 /\
  length (chats st') = length (chats st0) /\
  (forall c, c <> chat -> chats st' !! c = chats st0 !! c) /\
  (forall h, chats st0 !! chat = Some h ->
     exists turns, chats st' !! chat = Some (h ++ exchanges turns)) /\
  exists evs,
    trace st' = trace st ++ evs /\
    forall c contents reply,
      ModelCall c contents reply ∈ evs ->
      c = chat /\
      exists h turns m,
        chats st0 !! chat = Some h /\ contents = h ++ exchanges turns ++ [FromUser m].
Proof.
  intros Hreq Hlog Hrun chat st0.
  destruct (session_history st sessionId) as [h|] eqn:Hh.
  2:{ destruct (chat_handler_cases _ _ _ _ _ _ Hrun)
        as [(_ & _ & Hno) | [(m & sid & ((_ & Hs & _) & _) & _ & _ & ->)
                            | (m & sid & h & evs & out & ((_ & Hs & _) & _) & Hh' & _)]].
      - exfalso. eauto.
      - destruct Hreq as (_ & Hs' & _). rewrite Hs in Hs'. injection Hs' as ->.
        fold st0. split; [reflexivity|]. split; [reflexivity|]. split; [reflexivity|].
        split.
        + intros h H. exists []. simpl. now rewrite app_nil_r.
        + exists []. unfold st0. rewrite with_session_trace, app_nil_r.
          split; [reflexivity|]. intros ? ? ? H. inversion H.
      - destruct Hreq as (_ & Hs' & _). rewrite Hs in Hs'. injection Hs' as ->.
        congruence. }
  assert (Hh0 : chats st0 !! chat = Some h).
  { unfold st0, chat. now rewrite with_session_history. }
  rewrite (chat_handler_run w fuel _ _ _ _ _ Hreq Hlog Hh) in Hrun. cbv zeta in Hrun.
  fold chat st0 in Hrun.
  set (contents := h ++ [FromUser (UserMessage message)]) in *.
  destruct (generateContent w (length (trace st)) contents) as [result|] eqn:Ereply.
  - set (st1 := after_model_call st0 chat contents (Normal result)) in *.
    assert (Hh1 : chats st1 !! chat = Some (contents ++ [FromModel result])).
    { simpl. apply list_lookup_insert_eq. eapply lookup_lt_Some; eauto. }
    destruct (reasoning_loop fuel w sessionId chat result st1) as [[out st2]|] eqn:Eloop;
      [|discriminate].
    assert (st' = st2) as -> by (destruct out; now injection Hrun).
    destruct (reasoning_loop_frame _ _ _ _ _ _ _ _ _ Hh1 Eloop)
      as (Hlen & Hother & [turns Hown] & evs & Htr & Hcalls).
    assert (Hreg : chatSessions st2 = chatSessions st0).
    { now destruct (reasoning_loop_rounds w _ _ _ _ _ _ _ _ Hh1 Eloop) as [-> _]. }
    split; [exact Hreg|]. split; [rewrite Hlen; simpl; apply length_insert|]. split.
    { intros c Hc. rewrite (Hother c Hc). simpl. now apply list_lookup_insert_ne. }
    split.
    { intros h' Hh'. rewrite Hh0 in Hh'. injection Hh' as <-.
      exists ((UserMessage message, result) :: turns). rewrite Hown. unfold contents.
      simpl. now rewrite <- !app_assoc. }
    exists (ModelCall chat contents (Normal result) :: evs). split.
    { rewrite Htr. simpl. unfold st0. rewrite with_session_trace.
      now rewrite <- app_assoc. }
    intros c contents' reply H. apply elem_of_cons in H as [H|H].
    { injection H as -> -> _. split; [reflexivity|].
      exists h, [], (UserMessage message). now split. }
    destruct (Hcalls _ _ _ H) as [-> (turns' & m & ->)]. split; [reflexivity|].
    exists h, ((UserMessage message, result) :: turns'), m. split; [exact Hh0|].
    unfold contents. simpl. now rewrite <- !app_assoc.
  - injection Hrun as _ <-. split; [reflexivity|]. split; [reflexivity|].
    split; [reflexivity|]. split.
    { intros h' Hh'. exists []. simpl. now rewrite app_nil_r. }
    exists [ModelCall chat contents Throw]. split.
    { simpl. unfold st0. now rewrite with_session_trace. }
    intros c contents' reply H. apply elem_of_cons in H as [H|H]; [|inversion H].
    injection H as -> -> _. split; [reflexivity|].
    exists h, [], (UserMessage message). now split.
Qed.

(** X1: a chat request changes no chat object but the one of its own
    session: every other history in the store is what it was, and at most one
    chat object is added. *)
Theorem chat_touches_only_its_session :
  forall w fuel req_body message sessionId st res st',
    chat_request req_body message sessionId ->
    chat_handler fuel w req_body st = Some (res, st') ->
    (forall c, c <> session_index st sessionId -> chats st' !! c = chats st !! c) /\
    length (chats st) <= length (chats st') <= S (length (chats st)).
Proof.
  intros w fuel req_body message sessionId st res st' Hreq Hrun.
  destruct (admitted_or_not st sessionId) as [Hlog | [Hnew Hlog]].
  2:{ rewrite (chat_handler_unprintable w fuel _ _ _ _ Hreq Hnew Hlog) in Hrun.
      injection Hrun as _ <-. split; [reflexivity | lia]. }
  destruct (chat_handler_frame _ _ _ _ _ _ _ _ Hreq Hlog Hrun) as (_ & Hlen & Hother & _).
  split.
  - intros c Hc. rewrite (Hother c Hc). now apply with_session_other.
  - rewrite Hlen. unfold with_session.
    destruct (Map_get (chatSessions st) sessionId); simpl; [lia|].
    rewrite length_app. simpl. lia.
Qed.

Lemma chat_touches_only_its_session_witness :
  exists res st' h,
    chat_handler 1 world (chat_body "and now?" "s1") after_others = Some (res, st') /\
    chats after_others !! 1 = Some h /\
    chats st' !! 1 = Some h /\
    chats st' !! 0 <> chats after_others !! 0.
Proof.
  destruct (chat_handler 1 world (chat_body "and now?" "s1") after_others)
    as [[res st']|] eqn:Hrun; [|vm_compute in Hrun; discriminate].
  destruct (chat_touches_only_its_session world 1 (chat_body "and now?" "s1")
              (VStr (js "and now?")) (VStr (js "s1")) after_others res st')
    as [Hother _]; [repeat split; reflexivity | exact Hrun |].
  destruct (chats after_others !! 1) as [h|] eqn:Hh; [|vm_compute in Hh; discriminate].
  exists res, st', h. split; [reflexivity|]. split; [reflexivity|]. split.
  - rewrite (Hother 1), Hh; [reflexivity|]. vm_compute. discriminate.
  - pose proof Hrun as E. vm_compute in E. injection E as _ <-. vm_compute. discriminate.
Defined.

(** How a request changes the registry and the number of chat objects. *)
Lemma handle_registry fuel w r st res st' :
  handle fuel w r st = Some (res, st') ->
  (chatSessions st' = chatSessions st /\ length (chats st') = length (chats st)) \/
  (exists sessionId,
      Map_get (chatSessions st) sessionId = None /\
      chatSessions st' = chatSessions st ++ [(sessionId, length (chats st))] /\
      length (chats st') = S (length (chats st))).
Proof.
  destruct r as [req_body | req_query]; simpl; intros Hrun.
  - destruct (chat_handler_cases _ _ _ _ _ _ Hrun)
      as [(-> & _) | [(m & sid & (Hreq & Hlog) & _)
                     | (m & sid & h & evs & out & (Hreq & Hlog) & _)]];
      [now left | |];
      destruct (chat_handler_frame _ _ _ _ _ _ _ _ Hreq Hlog Hrun) as (Hreg & Hlen & _);
      rewrite Hreg, Hlen; unfold with_session;
      (destruct (Map_get (chatSessions st) sid) eqn:E; [now left|]);
      right; exists sid; simpl; rewrite length_app; simpl;
      (split; [exact E|]); (split; [reflexivity | lia]).
  - left. destruct (dashboard_handler_cases _ _ _ _ _ Hrun) as [(-> & _) | (sid & _ & _ & ->)];
      now split.
Qed.

Lemma Map_get_None_lookup {V} (m : list (value * V)) k i k' v :
  Map_get m k = None -> m !! i = Some (k', v) -> same_value_zero k' k = false.
Proof.
  revert i. induction m as [|[k0 v0] m IH]; intros i Hget Hi; [destruct i; discriminate|].
  simpl in Hget. destruct (same_value_zero k0 k) eqn:E; [discriminate|].
  destruct i as [|i]; simpl in Hi.
  - now injection Hi as <- _.
  - eauto.
Qed.

Lemma handle_aligned fuel w r st res st' :
  aligned st /\ distinct_keys st ->
  handle fuel w r st = Some (res, st') ->
  aligned st' /\ distinct_keys st'.
Proof.
  intros [[Hlen Hidx] Hkeys] Hrun.
  destruct (handle_registry _ _ _ _ _ _ Hrun)
    as [[Hreg Hl] | (sid & Hnew & Hreg & Hl)].
  - split; [split|].
    + now rewrite Hreg, Hl.
    + intros i k chat. rewrite Hreg. apply Hidx.
    + intros i k chat. rewrite Hreg. apply Hkeys.
  - split; [split|].
    + rewrite Hreg, Hl, length_app. simpl. lia.
    + intros i k chat. rewrite Hreg. intros H.
      apply lookup_app_Some in H as [H | [Hge H]]; [eauto|].
      destruct (i - length (chatSessions st)) as [|n] eqn:En; simpl in H; [|discriminate].
      injection H as _ <-. rewrite Hlen. lia.
    + intros i k chat. rewrite Hreg. intros H.
      apply lookup_app_Some in H as [H | [Hge H]].
      * rewrite take_app_le by (apply Nat.lt_le_incl; eapply lookup_lt_Some; eauto). eauto.
      * destruct (i - length (chatSessions st)) as [|n] eqn:En; simpl in H; [|discriminate].
        injection H as <- _. assert (i = length (chatSessions st)) as -> by lia.
        now rewrite take_app_length.
Qed.

Lemma serve_aligned w requests :
  forall st st',
    aligned st /\ distinct_keys st -> serve w requests st = Some st' ->
    aligned st' /\ distinct_keys st'.
Proof.
  induction requests as [|[fuel r] rest IH]; intros st st' Hinv H; simpl in H.
  - now injection H as <-.
  - destruct (handle fuel w r st) as [[res st1]|] eqn:E; [|discriminate].
    eapply IH; [|exact H]. eapply handle_aligned; eauto.
Qed.

(** X2: in every store the server reaches from its start there are as many
    chat objects as registry entries, two entries never lead to the same
    chat object, and a string identifier has at most one entry. *)
Theorem sessions_never_share_a_chat :
  forall w requests st,
    serve w requests initial = Some st ->
    length (chats st) = length (chatSessions st) /\
    (forall i j k k' chat,
        chatSessions st !! i = Some (k, chat) ->
        chatSessions st !! j = Some (k', chat) -> i = j) /\
    (forall i j s chat chat',
        chatSessions st !! i = Some (VStr s, chat) ->
        chatSessions st !! j = Some (VStr s, chat') -> i = j).
Proof.
  intros w requests st Hserve.
  assert (Hinit : aligned initial /\ distinct_keys initial).
  { split; [split; [reflexivity|]|]; intros i ? ? H; destruct i; discriminate. }
  destruct (serve_aligned _ _ _ _ Hinit Hserve) as [[Hlen Hidx] Hkeys].
  split; [exact Hlen|]. split.
  - intros i j k k' chat Hi Hj. rewrite <- (Hidx _ _ _ Hi). now apply Hidx in Hj.
  - assert (Hlt : forall i j s chat chat',
               chatSessions st !! i = Some (VStr s, chat) ->
               chatSessions st !! j = Some (VStr s, chat') -> ~ i < j).
    { intros i j s chat chat' Hi Hj Hij.
      pose proof (Hkeys _ _ _ Hj) as Hnone.
      assert (Hti : take j (chatSessions st) !! i = Some (VStr s, chat)).
      { now rewrite lookup_take_lt. }
      pose proof (Map_get_None_lookup _ _ _ _ _ Hnone Hti) as Hne.
      simpl in Hne. now rewrite (bool_decide_eq_true_2 _ eq_refl) in Hne. }
    intros i j s chat chat' Hi Hj.
    destruct (Nat.lt_trichotomy i j) as [H | [H | H]]; [|exact H|].
    + destruct (Hlt _ _ _ _ _ Hi Hj H).
    + destruct (Hlt _ _ _ _ _ Hj Hi H).
Qed.

Lemma sessions_never_share_a_chat_witness :
  serve world [(1, PostChat (chat_body "hello" "s1"));
               (1, GetDashboard (dashboard_query "s1"));
               (1, PostChat (chat_body "hello" "s2"))] initial = Some after_others /\
  length (chats after_others) = 2 /\
  length (chatSessions after_others) = 2.
Proof.
  assert (Hserve : serve world [(1, PostChat (chat_body "hello" "s1"));
                                (1, GetDashboard (dashboard_query "s1"));
                                (1, PostChat (chat_body "hello" "s2"))] initial
                   = Some after_others) by (vm_compute; reflexivity).
  destruct (sessions_never_share_a_chat _ _ _ Hserve) as (Hlen & _).
  split; [exact Hserve|]. split; [reflexivity|]. rewrite <- Hlen. reflexivity.
Defined.

Lemma conversation_app h turns : conversation h -> conversation (h ++ exchanges turns).
Proof.
  intros [turns0 ->]. exists (turns0 ++ turns). now rewrite exchanges_app.
Qed.

Lemma with_session_conversation st sessionId c h :
  (forall c h, chats st !! c = Some h -> conversation h) ->
  chats (with_session st sessionId) !! c = Some h -> conversation h.
Proof.
  intros Hst. unfold with_session.
  destruct (Map_get (chatSessions st) sessionId); [apply Hst|]. simpl. intros H.
  apply lookup_app_Some in H as [H | [_ H]]; [eauto|].
  destruct (c - length (chats st)) as [|n]; simpl in H; [|discriminate].
  injection H as <-. now exists [].
Qed.

Lemma batch_events_is_relay w n requests e :
  e ∈ batch_events w n requests -> is_relay e = true.
Proof.
  revert n. induction requests as [|r rest IH]; intros n H; simpl in H.
  - inversion H.
  - apply elem_of_cons in H as [-> | H]; [reflexivity | eauto].
Qed.

Lemma handle_conversational fuel w r st res st' :
  conversational st -> handle fuel w r st = Some (res, st') -> conversational st'.
Proof.
  intros [Hchats Htrace]. destruct r as [req_body | req_query]; simpl; intros Hrun.
  - destruct (chat_handler_cases _ _ _ _ _ _ Hrun)
      as [(-> & _) | [(m & sid & (Hreq & Hlog) & _)
                     | (m & sid & h0 & evs0 & out & (Hreq & Hlog) & _)]];
      [now split | |];
      destruct (chat_handler_frame _ _ _ _ _ _ _ _ Hreq Hlog Hrun)
        as (_ & Hlen & Hother & Hown & evs & Htr & Hevs);
      (split;
       [ intros c h Hc;
         destruct (decide (c = session_index st sid)) as [-> | Hne];
         [ destruct (chats (with_session st sid) !! session_index st sid) as [h1|] eqn:E1;
           [ destruct (Hown _ eq_refl) as [turns Ht]; rewrite Ht in Hc; injection Hc as <-;
             apply conversation_app; eapply with_session_conversation; eauto
           | apply lookup_ge_None in E1; rewrite <- Hlen in E1;
             apply lookup_ge_None in E1; congruence ]
         | rewrite (Hother _ Hne) in Hc; eapply with_session_conversation; eauto ]
       | intros c contents reply; rewrite Htr; intros Hin;
         apply elem_of_app in Hin as [Hin | Hin]; [eauto|];
         destruct (Hevs _ _ _ Hin) as (_ & h & turns & m' & Hh & ->);
         exists (h ++ exchanges turns), m'; split;
         [ apply conversation_app; eapply with_session_conversation; eauto
         | now rewrite <- app_assoc ] ]).
  - destruct (dashboard_handler_cases _ _ _ _ _ Hrun) as [(-> & _) | (sid & _ & _ & ->)];
      [now split|]. split; [exact Hchats|].
    intros c contents reply Hin. unfold add_events in Hin. cbn [trace] in Hin.
    apply elem_of_app in Hin as [Hin | Hin]; [eauto|].
    now apply batch_events_is_relay in Hin.
Qed.

Lemma serve_conversational w requests :
  forall st st', conversational st -> serve w requests st = Some st' -> conversational st'.
Proof.
  induction requests as [|[fuel r] rest IH]; intros st st' Hinv H; simpl in H.
  - now injection H as <-.
  - destruct (handle fuel w r st) as [[res st1]|] eqn:E; [|discriminate].
    eapply IH; [|exact H]. eapply handle_conversational; eauto.
Qed.

(** X3: in every store the server reaches from its start, each history is
    the system instruction followed by completed exchanges (a message and
    the answer of the model to it), and each call to the model sent such a
    history followed by the one new message. *)
Theorem histories_are_conversations :
  forall w requests st,
    serve w requests initial = Some st ->
    (forall c h, chats st !! c = Some h -> conversation h) /\
    (forall c contents reply,
        ModelCall c contents reply ∈ trace st ->
        exists h m, conversation h /\ contents = h ++ [FromUser m]).
Proof.
  intros w requests st Hserve. eapply serve_conversational; [|exact Hserve].
  split.
  - intros c h H. destruct c; discriminate.
  - intros c contents reply H. inversion H.
Qed.

Lemma histories_are_conversations_witness :
  serve world [(1, PostChat (chat_body "hello" "s1"));
               (1, GetDashboard (dashboard_query "s1"));
               (1, PostChat (chat_body "hello" "s2"))] initial = Some after_others /\
  forall c h, chats after_others !! c = Some h -> conversation h.
Proof.
  assert (Hserve : serve world [(1, PostChat (chat_body "hello" "s1"));
                                (1, GetDashboard (dashboard_query "s1"));
                                (1, PostChat (chat_body "hello" "s2"))] initial
                   = Some after_others) by (vm_compute; reflexivity).
  split; [exact Hserve|].
  exact (proj1 (histories_are_conversations _ _ _ Hserve)).
Defined.

(** X4: when a relay call of the first batch fails, the request is answered
    with status 500, and the history of the session is left ending with the
    message of the user and the tool request of the model, to which no tool
    result was sent.  The session identifier is a string. *)
Theorem failed_relay_leaves_request_unanswered :
  forall w fuel req_body message s st h r call calls,
    chat_request req_body message (VStr s) ->
    session_history st (VStr s) = Some h ->
    generateContent w (length (trace st)) (h ++ [FromUser (UserMessage message)]) = Normal r ->
    functionCalls r = Normal (Some (call :: calls)) ->
    Promise_all (batch_promises w (S (length (trace st)))
                   (map (fun call => tools_call (VStr s) (fc_name call)) (call :: calls)))
    = Throw ->
    exists st',
      chat_handler (S fuel) w req_body st = Some (Normal chat_error, st') /\
      chats st' !! session_index st (VStr s)
      = Some (h ++ [FromUser (UserMessage message); FromModel r]).
Proof.
  intros w fuel req_body message s st h r call calls Hreq Hh Hreply Hcalls Hfail.
  set (sessionId := VStr s) in *.
  rewrite (chat_handler_run w (S fuel) _ _ _ _ _ Hreq
             (printable_admitted st (VStr s) eq_refl) Hh). cbv zeta.
  rewrite Hreply.
  set (chat := session_index st sessionId).
  set (contents := h ++ [FromUser (UserMessage message)]).
  set (st1 := after_model_call (with_session st sessionId) chat contents (Normal r)).
  assert (H1 : chats st1 !! chat = Some (contents ++ [FromModel r])).
  { simpl. apply list_lookup_insert_eq. eapply lookup_lt_Some.
    unfold chat. rewrite with_session_history. exact Hh. }
  assert (Hlen : length (trace st1) = S (length (trace st))).
  { unfold st1. rewrite after_model_call_trace, length_app, with_session_trace.
    simpl. lia. }
  rewrite (reasoning_loop_step w sessionId chat fuel r st1 _ H1), Hcalls. cbv zeta.
  rewrite Hlen, Hfail. eexists. split; [reflexivity|].
  change (chats st1 !! chat = Some (h ++ [FromUser (UserMessage message); FromModel r])).
  rewrite H1. unfold contents. now rewrite <- app_assoc.
Qed.

Lemma failed_relay_leaves_request_unanswered_witness :
  exists st',
    chat_handler 1 world_tools_down (chat_body "chart my net worth" "s1") initial
    = Some (Normal chat_error, st') /\
    chats st' !! 0
    = Some [systemInstruction;
            FromUser (UserMessage (VStr (js "chart my net worth")));
            FromModel (asks_for ["fetch_net_worth"; "fetch_credit_report"]%string)].
Proof.
  apply (failed_relay_leaves_request_unanswered world_tools_down 0
           (chat_body "chart my net worth" "s1")
           (VStr (js "chart my net worth")) (js "s1") initial [systemInstruction]
           (asks_for ["fetch_net_worth"; "fetch_credit_report"]%string)
           {| fc_name := js "fetch_net_worth"; fc_args := VObj [] |}
           [{| fc_name := js "fetch_credit_report"; fc_args := VObj [] |}]);
    try reflexivity.
  repeat split; reflexivity.
Defined.

(** ** The answers of the two endpoints *)

Lemma dashboard_answer_shape w toolPromises :
  dashboard_answer w toolPromises = dashboard_error \/
  exists netWorth assets creditScore,
    dashboard_answer w toolPromises
    = res_json (VObj [(js "netWorth", VNum netWorth);
                      (js "assets", VArr assets);
                      (js "creditScore", VNum creditScore)]).
Proof.
  unfold dashboard_answer, dashboardData, mbind, completion_bind.
  repeat match goal with
         | |- context [match ?x with Normal _ => _ | Throw => _ end] =>
             lazymatch x with
             | context [match _ with Normal _ => _ | Throw => _ end] => fail
             | _ => destruct x; [|now left]
             end
         end.
  right. eauto.
Qed.

(** X5: no exception escapes a handler.  A request that is handled to its
    end is answered, by the chat endpoint with the 400 error, the 500 error
    or [{reply}], by the dashboard endpoint with the 400 error, the 500 error
    or [{netWorth, assets, creditScore}] holding two numbers and an array,
    and an answer with status 400 leaves the store as it was. *)
Theorem every_request_is_answered :
  forall fuel w r st res st',
    handle fuel w r st = Some (res, st') ->
    exists resp,
      res = Normal resp /\
      match r with
      | PostChat _ =>
          resp = chat_bad_request \/ resp = chat_error \/
          exists finalReplyText, resp = chat_reply finalReplyText
      | GetDashboard _ =>
          resp = dashboard_bad_request \/ resp = dashboard_error \/
          exists netWorth assets creditScore,
            resp = res_json (VObj [(js "netWorth", VNum netWorth);
                                   (js "assets", VArr assets);
                                   (js "creditScore", VNum creditScore)])
      end /\
      (status resp = 400 -> st' = st).
Proof.
  intros fuel w [req_body | req_query] st res st' Hrun; simpl in Hrun.
  - destruct (chat_handler_cases _ _ _ _ _ _ Hrun)
      as [(-> & [-> | ->] & _) | [(m & sid & _ & _ & -> & _)
                                 | (m & sid & h & evs & out & _ & _ & -> & _)]].
    + exists chat_bad_request. auto.
    + exists chat_error. auto.
    + exists chat_error. split; [reflexivity|]. split; [auto | discriminate].
    + exists (chat_answer out). split; [reflexivity|].
      destruct out as [final|]; simpl; [|split; [auto | discriminate]].
      destruct (text final) as [t|]; (split; [eauto | discriminate]).
  - destruct (dashboard_handler_cases _ _ _ _ _ Hrun)
      as [(-> & [-> | ->] & _) | (sid & _ & -> & _)].
    + exists dashboard_bad_request. auto.
    + exists dashboard_error. auto.
    + eexists. split; [reflexivity|].
      destruct (dashboard_answer_shape w
                  (batch_promises w (length (trace st)) (map (tools_call sid) toolsToFetch)))
        as [E | (n & a & c & E)]; rewrite E; (split; [eauto 6 | discriminate]).
Qed.

Lemma every_request_is_answered_witness :
  exists resp,
    Normal (chat_reply fenced_answer) = Normal resp /\
    (resp = chat_bad_request \/ resp = chat_error \/
     exists finalReplyText, resp = chat_reply finalReplyText) /\
    (status resp = 400 -> after_hello = initial).
Proof.
  apply (every_request_is_answered 1 world (PostChat (chat_body "hello" "s1")) initial
           (Normal (chat_reply fenced_answer)) after_hello).
  vm_compute. reflexivity.
Defined.

Lemma Map_get_object {V} (m : list (value * V)) k :
  (exists fields, k = VObj fields) \/ (exists elements, k = VArr elements) ->
  Map_get m k = None.
Proof.
  intros Hk. induction m as [|[k' v] m IH]; [reflexivity|]. simpl.
  assert (same_value_zero k' k = false) as ->; [|exact IH].
  destruct Hk as [[x ->] | [x ->]]; destruct k' as [| | |[]| | |]; reflexivity.
Qed.

(** X6: a session identifier that is an object passes the input check but
    is never found in the registry, where keys are compared by identity:
    each chat request that carries one starts a new chat and adds an entry
    that no later request finds.  The object has no [toString] field, so
    that the log line of the handler can print it. *)
Theorem object_session_is_never_found :
  forall w fuel req_body message fields st res st',
    chat_request req_body message (VObj fields) ->
    lookup_field (js "toString") fields = VUndefined ->
    chat_handler fuel w req_body st = Some (res, st') ->
    chatSessions st' = chatSessions st ++ [(VObj fields, length (chats st))] /\
    length (chats st') = S (length (chats st)) /\
    Map_get (chatSessions st') (VObj fields) = None.
Proof.
  intros w fuel req_body message fields st res st' Hreq Hfield Hrun.
  assert (Hobj : (exists x, VObj fields = VObj x) \/ (exists x, VObj fields = VArr x))
    by (left; eauto).
  assert (Hlog : admitted st (VObj fields)).
  { intros _. simpl. unfold has_field. now rewrite Hfield. }
  destruct (chat_handler_frame _ _ _ _ _ _ _ _ Hreq Hlog Hrun) as (Hreg & Hlen & _).
  rewrite Hreg, Hlen. unfold with_session.
  rewrite (Map_get_object (chatSessions st) _ Hobj). simpl.
  rewrite length_app. simpl.
  split; [reflexivity|]. split; [lia|]. now apply Map_get_object.
Qed.

Lemma object_session_is_never_found_witness :
  exists res st',
    chat_handler 1 world
      (VObj [(js "message", VStr (js "hello")); (js "sessionId", VObj [])]) after_hello
    = Some (res, st') /\
    chatSessions st' = chatSessions after_hello ++ [(VObj [], 1)] /\
    length (chats st') = 2 /\
    Map_get (chatSessions st') (VObj []) = None.
Proof.
  destruct (chat_handler 1 world
              (VObj [(js "message", VStr (js "hello")); (js "sessionId", VObj [])])
              after_hello) as [[res st']|] eqn:Hrun; [|vm_compute in Hrun; discriminate].
  exists res, st'. split; [reflexivity|].
  apply (object_session_is_never_found world 1
           (VObj [(js "message", VStr (js "hello")); (js "sessionId", VObj [])])
           (VStr (js "hello")) [] after_hello res st').
  - repeat split; reflexivity.
  - reflexivity.
  - exact Hrun.
Defined.

(** ** Further ways of the dashboard data *)

Section MoreShape.

Context (w : World).

Lemma is_not_liability_kept item entry :
  describes_kept w item entry ->
  is_not_liability item = Normal (negb (is_liability entry)).
Proof. intros [Htag _]. unfold is_not_liability. now rewrite Htag. Qed.

Lemma assets_of_kept_entries elements entries :
  Forall2 (describes_kept w) elements entries ->
  (kept ← filter_elements is_not_liability elements; map_elements (shape_asset w) kept)
  = Normal (asset_of <$> List.filter (fun e => negb (is_liability e)) entries).
Proof.
  induction 1 as [|item entry elements entries Hitem _ IH]; [reflexivity|].
  cbn [filter_elements List.filter].
  rewrite (is_not_liability_kept _ _ Hitem).
  unfold mbind, completion_bind in IH |- *.
  destruct (filter_elements is_not_liability elements) as [kept|]; [|discriminate].
  destruct (is_liability entry) eqn:El; cbn [negb]; [exact IH|].
  cbn [map_elements].
  rewrite (shape_asset_entry w item entry) by (destruct Hitem; split; auto).
  unfold mbind, completion_bind.
  destruct (map_elements (shape_asset w) kept) as [shaped|]; [|discriminate].
  injection IH as ->. reflexivity.
Qed.

Lemma dashboardData_kept netWorthRaw creditReportRaw netWorthValue elements entries
    report creditScoreValue :
  reads w netWorthRaw ["netWorthResponse"; "totalNetWorthValue"; "units"]%string
    netWorthValue ->
  path netWorthRaw ["netWorthResponse"; "assetValues"]%string = Normal (VArr elements) ->
  Forall2 (describes_kept w) elements entries ->
  (creditReports ← get creditReportRaw "creditReports"; get0 creditReports)
    = Normal report ->
  reads w report ["creditReportData"; "score"; "bureauScore"]%string creditScoreValue ->
  dashboardData w netWorthRaw creditReportRaw =
  Normal (VObj [(js "netWorth", VNum netWorthValue);
                (js "assets",
                 VArr (asset_of <$> List.filter (fun e => negb (is_liability e)) entries));
                (js "creditScore", VNum creditScoreValue)]).
Proof.
  intros Htotal Hassets Hentries Hreport Hscore.
  apply (dashboardData_fields w _ _ _ _ report); try assumption.
  pose proof (assets_of_kept_entries _ _ Hentries) as Hkept.
  unfold path, mbind, completion_bind in *.
  destruct (get netWorthRaw "netWorthResponse") as [netWorthResponse|]; [|discriminate].
  destruct (get netWorthResponse "assetValues") as [assetValues|]; [|discriminate].
  injection Hassets as ->. exact Hkept.
Qed.

Lemma filter_elements_throw f (l : list value) item :
  item ∈ l -> f item = Throw -> filter_elements f l = Throw.
Proof.
  intros Hin Hf. induction l as [|x l IH]; [inversion Hin|].
  cbn [filter_elements]. unfold mbind, completion_bind.
  apply elem_of_cons in Hin as [<- | Hin]; [now rewrite Hf|].
  rewrite (IH Hin). now destruct (f x).
Qed.

Lemma filter_elements_keeps f (l kept : list value) item :
  filter_elements f l = Normal kept -> item ∈ l -> f item = Normal true -> item ∈ kept.
Proof.
  revert kept. induction l as [|x l IH]; intros kept Hl Hin Hf; [inversion Hin|].
  cbn [filter_elements] in Hl. unfold mbind, completion_bind in Hl.
  destruct (f x) as [keep|] eqn:Ex; [|discriminate].
  destruct (filter_elements f l) as [rest|]; [|discriminate].
  injection Hl as <-.
  apply elem_of_cons in Hin as [-> | Hin].
  - rewrite Hf in Ex. injection Ex as <-. apply list_elem_of_here.
  - specialize (IH rest eq_refl Hin Hf). destruct keep; [now apply list_elem_of_further|exact IH].
Qed.

Lemma map_elements_throw f (l : list value) item :
  item ∈ l -> f item = Throw -> map_elements f l = Throw.
Proof.
  intros Hin Hf. induction l as [|x l IH]; [inversion Hin|].
  cbn [map_elements]. unfold mbind, completion_bind.
  apply elem_of_cons in Hin as [<- | Hin]; [now rewrite Hf|].
  rewrite (IH Hin). now destruct (f x).
Qed.

Lemma is_not_liability_throws item :
  (forall tag, get item "netWorthAttribute" <> Normal (VStr tag)) ->
  is_not_liability item = Throw.
Proof.
  intros H. unfold is_not_liability, mbind, completion_bind.
  destruct (get item "netWorthAttribute") as [[]|]; try reflexivity.
  now destruct (H s).
Qed.

Lemma shape_asset_throws item val :
  get item "value" = Normal val -> nullish val -> shape_asset w item = Throw.
Proof.
  intros Hval Hnull. unfold shape_asset, mbind, completion_bind.
  destruct (get item "netWorthAttribute") as [attribute|]; [|reflexivity].
  destruct (call_replace attribute _ _); [|reflexivity].
  rewrite Hval. now rewrite (get_nullish val "units" Hnull).
Qed.

End MoreShape.

(** X7: of an entry of [assetValues] tagged as a liability only the tag is
    read.  Such an entry may lack its [value] altogether: the dashboard
    data is built as soon as every entry has a string tag and [parseInt]
    reads something in the total, in the [value.units] of the entries that
    are kept, and in the credit score. *)
Theorem liabilities_are_read_for_their_tag_only :
  forall w netWorthRaw creditReportRaw netWorthValue elements entries report
         creditScoreValue,
    reads w netWorthRaw ["netWorthResponse"; "totalNetWorthValue"; "units"]%string
      netWorthValue ->
    path netWorthRaw ["netWorthResponse"; "assetValues"]%string = Normal (VArr elements) ->
    Forall2 (describes_kept w) elements entries ->
    (creditReports ← get creditReportRaw "creditReports"; get0 creditReports)
      = Normal report ->
    reads w report ["creditReportData"; "score"; "bureauScore"]%string creditScoreValue ->
    dashboardData w netWorthRaw creditReportRaw =
    Normal (VObj [(js "netWorth", VNum netWorthValue);
                  (js "assets",
                   VArr ((fun entry =>
                            VObj [(js "type", VStr (label (fst entry)));
                                  (js "value", VNum (snd entry))])
                           <$> List.filter (fun e => negb (is_liability e)) entries));
                  (js "creditScore", VNum creditScoreValue)]).
Proof.
  intros w netWorthRaw creditReportRaw netWorthValue elements entries report
    creditScoreValue Htotal Hassets Hentries Hreport Hscore.
  now apply (dashboardData_kept w _ _ _ elements entries report).
Qed.

Lemma liabilities_are_read_for_their_tag_only_witness :
  dashboardData world
    (VObj [(js "netWorthResponse",
            VObj [(js "assetValues",
                   VArr [VObj [(js "netWorthAttribute", VStr (js "LIABILITY_TYPE_HOME_LOAN"))];
                         VObj [(js "netWorthAttribute", VStr (js "ASSET_TYPE_EPF"));
                               (js "value", VObj [(js "units", VStr (js "211111"))])]]);
                  (js "totalNetWorthValue", VObj [(js "units", VStr (js "658305"))])])])
    (VObj [(js "creditReports",
            VArr [VObj [(js "creditReportData",
                         VObj [(js "score", VObj [(js "bureauScore", VStr (js "746"))])])]])])
  = Normal (VObj [(js "netWorth", VNum (Num 658305));
                  (js "assets",
                   VArr [VObj [(js "type", VStr (js "EPF")); (js "value", VNum (Num 211111))]]);
                  (js "creditScore", VNum (Num 746))]).
Proof.
  rewrite (liabilities_are_read_for_their_tag_only world _ _
             (Num 658305)
             [VObj [(js "netWorthAttribute", VStr (js "LIABILITY_TYPE_HOME_LOAN"))];
              VObj [(js "netWorthAttribute", VStr (js "ASSET_TYPE_EPF"));
                    (js "value", VObj [(js "units", VStr (js "211111"))])]]
             [(js "LIABILITY_TYPE_HOME_LOAN", NaN);
              (js "ASSET_TYPE_EPF", Num 211111)]
             (VObj [(js "creditReportData",
                     VObj [(js "score", VObj [(js "bureauScore", VStr (js "746"))])])])
             (Num 746)); try reflexivity.
  - exists (VStr (js "658305")). split; reflexivity.
  - constructor; [|constructor; [|constructor]].
    + split; [reflexivity|]. intros H. vm_compute in H. discriminate.
    + split; [reflexivity|]. intros _.
      exists (VStr (js "211111")). split; reflexivity.
  - exists (VStr (js "746")). split; reflexivity.
Defined.

(** X8: three more ways for a dashboard request to fail once the tool
    results are parsed: an entry of [assetValues] whose tag is not a string,
    an entry that is kept but has no [value] object, and an empty list of
    credit reports.  One such entry fails the whole request, whatever the
    other entries are. *)
Theorem malformed_entry_fails_the_dashboard :
  forall w netWorthRaw creditReportRaw,
    (forall elements item,
        path netWorthRaw ["netWorthResponse"; "assetValues"]%string
          = Normal (VArr elements) ->
        item ∈ elements ->
        (forall tag, get item "netWorthAttribute" <> Normal (VStr tag)) ->
        dashboardData w netWorthRaw creditReportRaw = Throw) /\
    (forall elements item tag val,
        path netWorthRaw ["netWorthResponse"; "assetValues"]%string
          = Normal (VArr elements) ->
        item ∈ elements ->
        get item "netWorthAttribute" = Normal (VStr tag) ->
        startsWith tag (js "LIABILITY_TYPE") = false ->
        get item "value" = Normal val -> nullish val ->
        dashboardData w netWorthRaw creditReportRaw = Throw) /\
    (get creditReportRaw "creditReports" = Normal (VArr []) ->
     dashboardData w netWorthRaw creditReportRaw = Throw).
Proof.
  intros w netWorthRaw creditReportRaw. split; [|split].
  - intros elements item Hassets Hin Htag.
    unfold dashboardData. unfold path, mbind, completion_bind in *.
    destruct (get netWorthRaw "netWorthResponse") as [netWorthResponse|]; [|reflexivity].
    destruct (get netWorthResponse "totalNetWorthValue") as [totalNetWorthValue|];
      [|reflexivity].
    destruct (get totalNetWorthValue "units") as [units|]; [|reflexivity].
    destruct (parseInt w units) as [netWorthValue|]; [|reflexivity].
    destruct (get netWorthResponse "assetValues") as [assetValues|]; [|discriminate].
    injection Hassets as ->. cbn [call_filter].
    now rewrite (filter_elements_throw _ _ item Hin (is_not_liability_throws item Htag)).
  - intros elements item tag val Hassets Hin Htag Hkeep Hval Hnull.
    unfold dashboardData. unfold path, mbind, completion_bind in *.
    destruct (get netWorthRaw "netWorthResponse") as [netWorthResponse|]; [|reflexivity].
    destruct (get netWorthResponse "totalNetWorthValue") as [totalNetWorthValue|];
      [|reflexivity].
    destruct (get totalNetWorthValue "units") as [units|]; [|reflexivity].
    destruct (parseInt w units) as [netWorthValue|]; [|reflexivity].
    destruct (get netWorthResponse "assetValues") as [assetValues|]; [|discriminate].
    injection Hassets as ->. cbn [call_filter].
    destruct (filter_elements is_not_liability elements) as [kept|] eqn:Ek; [|reflexivity].
    assert (Hitem : is_not_liability item = Normal true).
    { unfold is_not_liability, mbind, completion_bind. rewrite Htag.
      cbn [call_startsWith]. now rewrite Hkeep. }
    pose proof (filter_elements_keeps _ _ _ _ Ek Hin Hitem) as Hkept.
    now rewrite (map_elements_throw _ _ item Hkept (shape_asset_throws w item val Hval Hnull)).
  - intros Hreports.
    unfold dashboardData. unfold mbind, completion_bind.
    repeat match goal with
           | |- context [match ?x with Normal _ => _ | Throw => _ end] =>
               lazymatch x with
               | context [match _ with Normal _ => _ | Throw => _ end] => fail
               | get creditReportRaw "creditReports" => fail
               | _ => destruct x; [|reflexivity]
               end
           end.
    rewrite Hreports. reflexivity.
Qed.

Lemma malformed_entry_fails_the_dashboard_witness :
  dashboardData world
    (VObj [(js "netWorthResponse",
            VObj [(js "assetValues",
                   VArr [VObj [(js "netWorthAttribute", VStr (js "ASSET_TYPE_EPF"));
                               (js "value", VObj [(js "units", VStr (js "211111"))])];
                         VObj [(js "netWorthAttribute", VStr (js "ASSET_TYPE_GOLD"))]]);
                  (js "totalNetWorthValue", VObj [(js "units", VStr (js "658305"))])])])
    (VObj [(js "creditReports", VArr [])])
  = Throw.
Proof.
  apply (proj1 (proj2 (malformed_entry_fails_the_dashboard world _ _))
           [VObj [(js "netWorthAttribute", VStr (js "ASSET_TYPE_EPF"));
                  (js "value", VObj [(js "units", VStr (js "211111"))])];
            VObj [(js "netWorthAttribute", VStr (js "ASSET_TYPE_GOLD"))]]
           (VObj [(js "netWorthAttribute", VStr (js "ASSET_TYPE_GOLD"))])
           (js "ASSET_TYPE_GOLD") VUndefined);
    try reflexivity; [|now left].
  apply list_elem_of_further, list_elem_of_here.
Defined.

(** ** The cleaning step *)

Lemma replace_fences_from_sublist s :
  forall skip, replace_fences_from skip s `sublist_of` s.
Proof.
  induction s as [|c s IH]; intros skip; [constructor|].
  cbn [replace_fences_from]. destruct skip as [|k]; [|apply sublist_cons, IH].
  destruct (startsWith (c :: s) fence_json); [apply sublist_cons, IH|].
  destruct (startsWith (c :: s) fence); [apply sublist_cons, IH|].
  apply sublist_skip, IH.
Qed.

Lemma trim_sublist s : trim s `sublist_of` s.
Proof.
  destruct (trim_infix s) as (pre & post & H). rewrite H at 2.
  apply sublist_inserts_l, sublist_inserts_r. reflexivity.
Qed.

Lemma white_space_not_tick c : is_white_space c = true -> c <> 96%N.
Proof. intros H ->. discriminate H. Qed.

Lemma replace_fences_from_plain x y :
  96%N ∉ x -> replace_fences_from 0 (x ++ y) = x ++ replace_fences_from 0 y.
Proof.
  induction x as [|c x IH]; intros Hx; [reflexivity|].
  apply not_elem_of_cons in Hx as [Hc Hx].
  cbn [app replace_fences_from].
  assert (E : (c =? 96)%N = false) by (apply N.eqb_neq; congruence).
  assert (startsWith (c :: x ++ y) fence_json = false) as ->.
  { unfold fence_json. cbn [startsWith]. now rewrite E. }
  assert (startsWith (c :: x ++ y) fence = false) as ->.
  { unfold fence. cbn [startsWith]. now rewrite E. }
  now rewrite IH.
Qed.

Lemma white_space_plain x : Forall (fun c => is_white_space c = true) x -> 96%N ∉ x.
Proof.
  intros H Hin. rewrite Forall_forall in H. now apply (white_space_not_tick _ (H _ Hin)).
Qed.

Lemma trimStart_white_space a x :
  Forall (fun c => is_white_space c = true) a -> trimStart (a ++ x) = trimStart x.
Proof.
  induction 1 as [|c a Hc _ IH]; [reflexivity|]. cbn [app trimStart]. now rewrite Hc.
Qed.

Lemma trim_exact a core e :
  Forall (fun c => is_white_space c = true) a ->
  Forall (fun c => is_white_space c = true) e ->
  (forall c, head core = Some c -> is_white_space c = false) ->
  (forall c, last core = Some c -> is_white_space c = false) ->
  trim (a ++ core ++ e) = core.
Proof.
  intros Ha He Hhead Hlast. unfold trim. rewrite (trimStart_white_space a _ Ha).
  destruct core as [|c core].
  - cbn [app]. rewrite <- (app_nil_r e), (trimStart_white_space e [] He). reflexivity.
  - rewrite trimStart_id by (intros c' H; apply Hhead; exact H).
    unfold trimEnd. rewrite rev_app_distr.
    rewrite trimStart_white_space by (now apply Forall_rev).
    rewrite trimStart_id; [apply rev_involutive|].
    intros c' H. rewrite head_rev_last in H. now apply Hlast.
Qed.

(** X9: cleaning is idempotent: a reply that went through the cleaning step
    is left as it is by a second pass. *)
Theorem cleaning_is_idempotent :
  forall finalReplyText,
    cleanedReply (cleanedReply finalReplyText) = cleanedReply finalReplyText.
Proof.
  intros t. apply cleanedReply_id.
  - apply cleanedReply_no_fence.
  - apply trim_head.
  - apply trim_last.
Qed.

(** X10: the cleaning step only deletes: the reply is a subsequence of the
    text of the model, so no code unit is added, changed or moved. *)
Theorem cleaning_only_deletes :
  forall finalReplyText,
    cleanedReply finalReplyText `sublist_of` finalReplyText /\
    length (cleanedReply finalReplyText) <= length finalReplyText.
Proof.
  intros t.
  assert (H : cleanedReply t `sublist_of` t).
  { unfold cleanedReply. etransitivity; [apply trim_sublist|].
    apply replace_fences_from_sublist. }
  split; [exact H | now apply sublist_length].
Qed.

(** X11: a fenced block is unwrapped exactly.  When the text of the model is
    a block opened by the fence with its language tag and closed by a fence,
    with nothing but white space around the fences and around the content,
    and the content holds no backtick, the reply is the content. *)
Theorem fenced_block_is_unwrapped :
  forall before inside content inside' after,
    Forall (fun c => is_white_space c = true) before ->
    Forall (fun c => is_white_space c = true) inside ->
    Forall (fun c => is_white_space c = true) inside' ->
    Forall (fun c => is_white_space c = true) after ->
    96%N ∉ content ->
    (forall c, head content = Some c -> is_white_space c = false) ->
    (forall c, last content = Some c -> is_white_space c = false) ->
    cleanedReply (before ++ fence_json ++ inside ++ content ++ inside' ++ fence ++ after)
    = content.
Proof.
  intros a b core c e Ha Hb Hc He Hcore Hhead Hlast.
  unfold cleanedReply, replace_fences.
  rewrite replace_fences_from_plain by (now apply white_space_plain).
  assert (Hopen : forall y, replace_fences_from 0 (fence_json ++ y) = replace_fences_from 0 y).
  { intros y. reflexivity. }
  rewrite Hopen.
  rewrite replace_fences_from_plain by (now apply white_space_plain).
  rewrite replace_fences_from_plain by exact Hcore.
  rewrite replace_fences_from_plain by (now apply white_space_plain).
  assert (Hclose : replace_fences_from 0 (fence ++ e) = e).
  { destruct He as [|x e Hx He]; [reflexivity|].
    assert (Ex : (x =? 106)%N = false).
    { apply N.eqb_neq. intros ->. discriminate Hx. }
    change (fence ++ x :: e) with (96%N :: 96%N :: 96%N :: x :: e).
    cbn [replace_fences_from].
    assert (startsWith (96%N :: 96%N :: 96%N :: x :: e) fence_json = false) as ->.
    { unfold fence_json. cbn [startsWith N.eqb Pos.eqb andb]. now rewrite Ex. }
    assert (startsWith (96%N :: 96%N :: 96%N :: x :: e) fence = true) as -> by reflexivity.
    fold (replace_fences_from 0 (x :: e)).
    change (replace_fences_from 0 (x :: e) = x :: e).
    rewrite <- (app_nil_r (x :: e)) at 1.
    rewrite replace_fences_from_plain by (apply white_space_plain; now constructor).
    now rewrite app_nil_r. }
  rewrite Hclose.
  change (trim (a ++ b ++ core ++ c ++ e) = core).
  rewrite (app_assoc a b).
  apply trim_exact; auto using Forall_app_2.
Qed.

Lemma fenced_block_is_unwrapped_witness :
  cleanedReply (js " " ++ fence_json ++ [] ++ jq "{'type': 'chart'}" ++ [10%N] ++ fence
                ++ [10%N])
  = jq "{'type': 'chart'}".
Proof.
  apply (fenced_block_is_unwrapped (js " ") [] (jq "{'type': 'chart'}") [10%N] [10%N]).
  - repeat constructor.
  - constructor.
  - repeat constructor.
  - repeat constructor.
  - vm_compute. intros H. repeat (apply elem_of_cons in H as [H|H]; [discriminate H|]).
    inversion H.
  - intros c H. vm_compute in H. injection H as <-. reflexivity.
  - intros c H. vm_compute in H. injection H as <-. reflexivity.
Defined.

(** ** What [parseInt] makes of a field *)

Lemma digit_value_other c : is_digit c = false -> digit_value 10 c = None.
Proof.
  unfold is_digit, digit_value. intros ->.
  destruct ((97 <=? c) && (c <=? 122))%N eqn:E1.
  { apply andb_true_iff in E1 as [H1 H2]. apply N.leb_le in H1, H2.
    destruct (Z.ltb_spec (Z.of_N c - 87) 10); [lia | reflexivity]. }
  destruct ((65 <=? c) && (c <=? 90))%N eqn:E2; [|reflexivity].
  apply andb_true_iff in E2 as [H1 H2]. apply N.leb_le in H1, H2.
  destruct (Z.ltb_spec (Z.of_N c - 55) 10); [lia | reflexivity].
Qed.

Lemma parse_digits_stops rest acc :
  (forall c, head rest = Some c -> is_digit c = false) -> parse_digits 10 acc rest = acc.
Proof.
  destruct rest as [|c rest]; [reflexivity|]. intros H. cbn [parse_digits].
  now rewrite (digit_value_other c (H c eq_refl)).
Qed.

Lemma parse_digits_prefix digits rest :
  forallb is_digit digits = true ->
  (forall c, head rest = Some c -> is_digit c = false) ->
  forall acc,
    parse_digits 10 acc (digits ++ rest) =
    match digits with
    | [] => acc
    | _ => Some (numeral_value (default 0%Z acc) digits)
    end.
Proof.
  intros Hdigits Hrest. induction digits as [|d digits IH]; intros acc.
  - now apply parse_digits_stops.
  - simpl in Hdigits. apply andb_true_iff in Hdigits as [Hd Hdigits].
    cbn [app parse_digits]. rewrite (digit_value_digit d Hd), (IH Hdigits).
    destruct digits; reflexivity.
Qed.

Lemma numeral_value_nonneg digits :
  forall acc, (0 <= acc)%Z -> forallb is_digit digits = true ->
              (0 <= numeral_value acc digits)%Z.
Proof.
  induction digits as [|d digits IH]; intros acc Hacc H; [exact Hacc|]. simpl in H |- *.
  apply andb_true_iff in H as [Hd H]. apply IH; [|exact H].
  unfold is_digit in Hd. apply andb_true_iff in Hd as [Hd1 _]. apply N.leb_le in Hd1. lia.
Qed.

Lemma to_Number_signed negative m :
  (0 <= m < 2 ^ 53)%Z -> to_Number negative m = Num (if negative then - m else m)%Z.
Proof.
  intros [H0 H53]. unfold to_Number, round53.
  assert (Hlog : (Z.log2 m - 52 <= 0)%Z).
  { destruct (Z.eq_dec m 0%Z) as [->|Hne]; [simpl; lia|].
    assert (Z.log2 m < 53)%Z by (apply Z.log2_lt_pow2; lia). lia. }
  destruct (Z.leb_spec (Z.log2 m - 52) 0); [|lia].
  destruct (Z.leb_spec (2 ^ 1024) m) as [Hbig|]; [|reflexivity].
  exfalso. assert (2 ^ 53 < 2 ^ 1024)%Z by (apply Z.pow_lt_mono_r; lia). lia.
Qed.

Lemma not_hex_prefix s x :
  (forall c, head s = Some c -> c <> 48%N) \/
  (forall c, head (drop 1 s) = Some c -> c <> x) ->
  startsWith s [48%N; x] = false.
Proof.
  destruct s as [|c s]; [reflexivity|]. cbn [startsWith]. intros [H | H].
  - specialize (H c eq_refl). apply N.eqb_neq in H. now rewrite H.
  - destruct s as [|c' s]; [apply andb_false_r|].
    specialize (H c' eq_refl). apply N.eqb_neq in H. rewrite H. apply andb_false_r.
Qed.

Lemma not_sign_prefix s x :
  (forall c, head s = Some c -> c <> x) -> startsWith s [x] = false.
Proof.
  destruct s as [|c s]; [reflexivity|]. cbn [startsWith]. intros H.
  specialize (H c eq_refl). apply N.eqb_neq in H. now rewrite H.
Qed.

(** After white space and sign: the digits of a decimal numeral, then
    something that is neither a digit nor the [x] of a hexadecimal prefix. *)
Lemma parseInt_after_sign negative digits rest :
  digits <> [] -> forallb is_digit digits = true ->
  (numeral_value 0 digits < 2 ^ 53)%Z ->
  (forall c, head rest = Some c -> is_digit c = false /\ c <> 120%N /\ c <> 88%N) ->
  let S1 := digits ++ rest in
  let hex := startsWith S1 [48%N; 120%N] || startsWith S1 [48%N; 88%N] in
  match parse_digits (if hex then 16%Z else 10%Z) None (if hex then drop 2 S1 else S1) with
  | None => NaN
  | Some mathInt => to_Number negative mathInt
  end = Num (if negative then - numeral_value 0 digits else numeral_value 0 digits)%Z.
Proof.
  intros Hne Hdigits Hsmall Hrest. cbv zeta.
  assert (Hx : forall x, (x = 120 \/ x = 88)%N -> startsWith (digits ++ rest) [48%N; x] = false).
  { intros x Hx. apply not_hex_prefix. right.
    destruct digits as [|d [|d' digits]]; [contradiction| |].
    - cbn [app drop]. intros c Hc.
      destruct (Hrest c Hc) as (_ & H1 & H2). destruct Hx; congruence.
    - cbn [app drop]. intros c [= <-]. simpl in Hdigits.
      apply andb_true_iff in Hdigits as [_ Hd].
      apply andb_true_iff in Hd as [Hd _]. unfold is_digit in Hd.
      apply andb_true_iff in Hd as [H1 H2]. apply N.leb_le in H1, H2.
      destruct Hx; lia. }
  rewrite (Hx 120%N), (Hx 88%N) by auto. cbn [orb].
  rewrite (parse_digits_prefix digits rest Hdigits (fun c H => proj1 (Hrest c H))).
  destruct digits as [|d digits]; [contradiction|]. cbn [default].
  apply to_Number_signed. split; [|exact Hsmall].
  now apply numeral_value_nonneg.
Qed.

(** X12: [parseInt] reads the leading integer of a field and drops the
    rest.  White space before it is skipped, one sign is taken into account,
    and whatever follows the digits (a fraction, a unit, any other text) is
    ignored, for a numeral below [2^53] that is not followed by [x] or [X]. *)
Theorem parseInt_reads_the_leading_integer :
  forall w space sign digits rest,
    Forall (fun c => is_white_space c = true) space ->
    sign = [] \/ sign = [45%N] \/ sign = [43%N] ->
    digits <> [] -> forallb is_digit digits = true ->
    (numeral_value 0 digits < 2 ^ 53)%Z ->
    (forall c, head rest = Some c -> is_digit c = false /\ c <> 120%N /\ c <> 88%N) ->
    parseInt w (VStr (space ++ sign ++ digits ++ rest))
    = Normal (Num (if bool_decide (sign = [45%N])
                   then - numeral_value 0 digits else numeral_value 0 digits)%Z).
Proof.
  intros w space sign digits rest Hspace Hsign Hne Hdigits Hsmall Hrest.
  rewrite parseInt_VStr. f_equal. unfold parseInt_string.
  rewrite (trimStart_white_space space _ Hspace).
  destruct Hsign as [-> | [-> | ->]].
  - cbn [app]. destruct digits as [|d ds]; [contradiction|].
    assert (Hd : is_digit d = true).
    { simpl in Hdigits. now apply andb_true_iff in Hdigits as [H _]. }
    assert (Hrange := Hd). unfold is_digit in Hrange.
    apply andb_true_iff in Hrange as [H1 H2]. apply N.leb_le in H1, H2.
    rewrite trimStart_id
      by (intros c Hc; injection Hc as <-; now apply digit_not_white_space).
    rewrite !not_sign_prefix by (intros c Hc; injection Hc as <-; lia).
    cbn [orb]. rewrite bool_decide_eq_false_2 by discriminate.
    now apply (parseInt_after_sign false).
  - cbn [app trimStart]. change (is_white_space 45) with false. cbv iota.
    change (startsWith (45%N :: digits ++ rest) [45%N]) with true.
    cbn [orb drop]. rewrite bool_decide_eq_true_2 by reflexivity.
    now apply (parseInt_after_sign true).
  - cbn [app trimStart]. change (is_white_space 43) with false. cbv iota.
    change (startsWith (43%N :: digits ++ rest) [45%N]) with false.
    change (startsWith (43%N :: digits ++ rest) [43%N]) with true.
    cbn [orb drop]. rewrite bool_decide_eq_false_2 by discriminate.
    now apply (parseInt_after_sign false).
Qed.

Lemma parseInt_reads_the_leading_integer_witness :
  parseInt world (VStr (js "  -84613.75 INR")) = Normal (Num (-84613)).
Proof.
  apply (parseInt_reads_the_leading_integer world (js "  ") [45%N] (js "84613")
           (js ".75 INR")).
  - repeat constructor.
  - right. left. reflexivity.
  - discriminate.
  - reflexivity.
  - reflexivity.
  - intros c H. injection H as <-. repeat split; discriminate.
Defined.

(** A string that, after white space and at most one sign, does not go on
    with a digit. *)
Lemma parseInt_string_without_digits space sign rest :
  Forall (fun c => is_white_space c = true) space ->
  sign = [] \/ sign = [45%N] \/ sign = [43%N] ->
  (forall c, head rest = Some c -> is_digit c = false) ->
  (sign = [] ->
   forall c, head rest = Some c -> is_white_space c = false /\ c <> 45%N /\ c <> 43%N) ->
  parseInt_string (space ++ sign ++ rest) = NaN.
Proof.
  intros Hspace Hsign Hrest Hplain.
  assert (Htail : forall negative,
             let hex := startsWith rest [48%N; 120%N] || startsWith rest [48%N; 88%N] in
             match parse_digits (if hex then 16%Z else 10%Z) None
                     (if hex then drop 2 rest else rest) with
             | None => NaN
             | Some mathInt => to_Number negative mathInt
             end = NaN).
  { intros negative. cbv zeta.
    rewrite !not_hex_prefix
      by (left; intros c Hc ->; now specialize (Hrest _ Hc)).
    cbn [orb]. now rewrite parse_digits_stops. }
  unfold parseInt_string.
  rewrite (trimStart_white_space space _ Hspace).
  destruct Hsign as [-> | [-> | ->]].
  - cbn [app]. specialize (Hplain eq_refl).
    rewrite trimStart_id by (intros c Hc; now apply Hplain).
    rewrite !not_sign_prefix by (intros c Hc; now apply Hplain).
    cbn [orb]. apply Htail.
  - cbn [app trimStart]. change (is_white_space 45) with false. cbv iota.
    change (startsWith (45%N :: rest) [45%N]) with true.
    cbn [orb drop]. apply Htail.
  - cbn [app trimStart]. change (is_white_space 43) with false. cbv iota.
    change (startsWith (43%N :: rest) [45%N]) with false.
    change (startsWith (43%N :: rest) [43%N]) with true.
    cbn [orb drop]. apply Htail.
Qed.

(** X13: [parseInt] yields [NaN] for a string that, after white space and
    at most one sign, does not go on with a digit: an empty string, a word, a
    second sign, or white space after the sign.  When the total of the net
    worth is such a string and the tool results are well formed otherwise,
    the dashboard request is answered with status 200 and a [netWorth] that
    is [NaN] in the object handed to [res.json]. *)
Theorem parseInt_without_digits_is_NaN :
  forall w space sign rest,
    Forall (fun c => is_white_space c = true) space ->
    sign = [] \/ sign = [45%N] \/ sign = [43%N] ->
    (forall c, head rest = Some c -> is_digit c = false) ->
    (sign = [] ->
     forall c, head rest = Some c -> is_white_space c = false /\ c <> 45%N /\ c <> 43%N) ->
    parseInt w (VStr (space ++ sign ++ rest)) = Normal NaN /\
    forall req_query sessionId st netWorth creditReport netWorthText creditReportText
           netWorthRaw creditReportRaw elements entries report creditScoreValue,
      dashboard_request req_query sessionId ->
      go_adk w (length (trace st)) (tools_call sessionId (js "fetch_net_worth"))
        = Normal netWorth ->
      go_adk w (S (length (trace st))) (tools_call sessionId (js "fetch_credit_report"))
        = Normal creditReport ->
      nested_text netWorth = Normal (VStr netWorthText) ->
      nested_text creditReport = Normal (VStr creditReportText) ->
      JSON_parse w netWorthText = Normal netWorthRaw ->
      JSON_parse w creditReportText = Normal creditReportRaw ->
      path netWorthRaw ["netWorthResponse"; "totalNetWorthValue"; "units"]%string
        = Normal (VStr (space ++ sign ++ rest)) ->
      path netWorthRaw ["netWorthResponse"; "assetValues"]%string
        = Normal (VArr elements) ->
      Forall2 (describes_kept w) elements entries ->
      (creditReports ← get creditReportRaw "creditReports"; get0 creditReports)
        = Normal report ->
      reads w report ["creditReportData"; "score"; "bureauScore"]%string
        creditScoreValue ->
      exists resp st',
        dashboard_handler w req_query st = Some (Normal resp, st') /\
        status resp = 200 /\
        body resp =
        VObj [(js "netWorth", VNum NaN);
              (js "assets",
               VArr ((fun entry =>
                        VObj [(js "type", VStr (label (fst entry)));
                              (js "value", VNum (snd entry))])
                       <$> List.filter (fun e => negb (is_liability e)) entries));
              (js "creditScore", VNum creditScoreValue)].
Proof.
  intros w space sign rest Hspace Hsign Hrest Hplain.
  assert (Hnan : parseInt w (VStr (space ++ sign ++ rest)) = Normal NaN).
  { rewrite parseInt_VStr. f_equal. now apply parseInt_string_without_digits. }
  split; [exact Hnan|].
  intros req_query sessionId st netWorth creditReport netWorthText creditReportText
    netWorthRaw creditReportRaw elements entries report creditScoreValue
    Hreq H0 H1 Ht0 Ht1 Hp0 Hp1 Htotal Hassets Hentries Hreport Hscore.
  rewrite (dashboard_handler_run w _ _ st Hreq). cbv zeta.
  unfold toolsToFetch. cbn [map batch_promises]. rewrite H0, H1.
  rewrite (dashboard_answer_texts w _ _ _ _ Ht0 Ht1), Hp0, Hp1.
  unfold mbind, completion_bind.
  rewrite (dashboardData_kept w _ _ NaN elements entries report creditScoreValue);
    try assumption.
  - eexists _, _. split; [reflexivity|]. split; reflexivity.
  - eexists. split; [exact Htotal | exact Hnan].
Qed.

Lemma parseInt_without_digits_is_NaN_witness :
  parseInt world (VStr (js "N/A")) = Normal NaN /\
  exists st',
    dashboard_handler world_unknown_total (dashboard_query "s1") initial
    = Some (Normal {| status := 200;
                      body := VObj [(js "netWorth", VNum NaN);
                                    (js "assets", VArr []);
                                    (js "creditScore", VNum (Num 746))] |}, st').
Proof.
  assert (Hspace : Forall (fun c => is_white_space c = true) []) by constructor.
  assert (Hsign : @nil N = [] \/ @nil N = [45%N] \/ @nil N = [43%N]) by now left.
  assert (Hrest : forall c, head (js "N/A") = Some c -> is_digit c = false).
  { intros c H. injection H as <-. reflexivity. }
  assert (Hplain : @nil N = [] ->
                   forall c, head (js "N/A") = Some c ->
                             is_white_space c = false /\ c <> 45%N /\ c <> 43%N).
  { intros _ c H. injection H as <-. repeat split; discriminate. }
  split.
  - exact (proj1 (parseInt_without_digits_is_NaN world [] [] (js "N/A")
                    Hspace Hsign Hrest Hplain)).
  - pose (nw := match json_parse net_worth_unknown_total with
                | Normal v => v
                | Throw => VNull
                end).
    pose (cr := match json_parse credit_report_text with Normal v => v | Throw => VNull end).
    pose (report := match (r ← get cr "creditReports"; get0 r) with
                    | Normal v => v
                    | Throw => VNull
                    end).
    destruct (proj2 (parseInt_without_digits_is_NaN world_unknown_total [] [] (js "N/A")
                       Hspace Hsign Hrest Hplain)
                (dashboard_query "s1") (VStr (js "s1")) initial
                (tool_result net_worth_unknown_total) (tool_result credit_report_text)
                net_worth_unknown_total credit_report_text nw cr [] [] report (Num 746))
      as (resp & st' & Hrun & Hstatus & Hbody);
      try (vm_compute; reflexivity).
    + repeat split; reflexivity.
    + constructor.
    + exists (VStr (js "746")). split; vm_compute; reflexivity.
    + exists st'. rewrite Hrun. destruct resp as [code content].
      simpl in Hstatus, Hbody. subst code content. reflexivity.
Defined.

(** ** The label of an asset *)

Lemma replace_at_start pat post rep : replace (pat ++ post) pat rep = rep ++ post.
Proof.
  assert (H : startsWith (pat ++ post) pat = true) by (apply startsWith_spec; eauto).
  destruct (pat ++ post) as [|c s] eqn:E; cbn [replace]; rewrite H, <- E;
    now rewrite drop_app_length.
Qed.

Lemma replace_first_unit first rest x rep :
  x ∉ first -> replace (first ++ x :: rest) [x] rep = first ++ rep ++ rest.
Proof.
  induction first as [|c first IH]; intros Hx.
  - apply (replace_at_start [x] rest rep).
  - apply not_elem_of_cons in Hx as [Hc Hx]. cbn [app replace startsWith].
    assert ((c =? x)%N = false) as -> by (apply N.eqb_neq; congruence).
    cbn [andb]. now rewrite IH.
Qed.

Lemma replace_absent_unit s x rep : x ∉ s -> replace s [x] rep = s.
Proof.
  induction s as [|c s IH]; intros Hx; [reflexivity|].
  apply not_elem_of_cons in Hx as [Hc Hx]. cbn [replace startsWith].
  assert ((c =? x)%N = false) as -> by (apply N.eqb_neq; congruence).
  cbn [andb]. now rewrite IH.
Qed.

(** X14: the label of a tag that starts with [ASSET_TYPE_] is what follows
    the prefix with its first underscore turned into a space: a name without
    underscore is kept as it is, and underscores after the first stay. *)
Theorem label_of_an_asset_tag :
  (forall name, 95%N ∉ name -> label (js "ASSET_TYPE_" ++ name) = name) /\
  (forall first rest,
      95%N ∉ first ->
      label (js "ASSET_TYPE_" ++ first ++ 95%N :: rest) = first ++ 32%N :: rest).
Proof.
  split.
  - intros name Hname. unfold label.
    rewrite (replace_at_start (js "ASSET_TYPE_") name (js "")).
    now apply replace_absent_unit.
  - intros first rest Hfirst. unfold label.
    rewrite (replace_at_start (js "ASSET_TYPE_") (first ++ 95%N :: rest) (js "")).
    apply (replace_first_unit first rest 95%N (js " ") Hfirst).
Qed.

Lemma label_of_an_asset_tag_witness :
  label (js "ASSET_TYPE_EPF") = js "EPF" /\
  label (js "ASSET_TYPE_US_SECURITIES_ETF") = js "US SECURITIES_ETF".
Proof.
  split.
  - apply (proj1 label_of_an_asset_tag (js "EPF")).
    intros H. repeat (apply elem_of_cons in H as [H|H]; [discriminate H|]). inversion H.
  - apply (proj2 label_of_an_asset_tag (js "US") (js "SECURITIES_ETF")).
    intros H. repeat (apply elem_of_cons in H as [H|H]; [discriminate H|]). inversion H.
Defined.

(** ** Values that cannot be printed *)

Lemma parseInt_unprintable w v : printable v = false -> parseInt w v = Throw.
Proof.
  intros H. pose proof (ToString_printable w v) as Hs. rewrite H in Hs.
  unfold parseInt. now rewrite Hs.
Qed.

Lemma shape_asset_unprintable w item units :
  path item ["value"; "units"]%string = Normal units -> printable units = false ->
  shape_asset w item = Throw.
Proof.
  intros Hunits Hprint. unfold shape_asset. unfold path, mbind, completion_bind in *.
  destruct (get item "netWorthAttribute") as [attribute|]; [|reflexivity].
  destruct (call_replace attribute _ _); [|reflexivity].
  destruct (get item "value") as [val|]; [|discriminate].
  destruct (get val "units") as [u|]; [|discriminate].
  injection Hunits as ->. now rewrite (parseInt_unprintable w units Hprint).
Qed.

(** X15: a session identifier that cannot be printed (an object with a
    [toString] field of its own, or an array that holds one) stops the
    request at its log line.  A chat request that would start a session
    with it is answered with the 500 error before the session is created
    and before any call goes out, and so is a dashboard request. *)
Theorem unprintable_identifier_stops_the_request :
  (forall w fuel req_body message sessionId st,
      chat_request req_body message sessionId ->
      Map_get (chatSessions st) sessionId = None ->
      printable sessionId = false ->
      chat_handler fuel w req_body st = Some (Normal chat_error, st)) /\
  (forall w req_query sessionId st,
      get req_query "sessionId" = Normal sessionId ->
      truthy sessionId = true ->
      printable sessionId = false ->
      dashboard_handler w req_query st = Some (Normal dashboard_error, st)) /\
  (forall fields,
      lookup_field (js "toString") fields <> VUndefined ->
      printable (VObj fields) = false /\ printable (VArr [VObj fields]) = false).
Proof.
  split; [|split].
  - intros w fuel req_body message sessionId st Hreq Hnew Hlog.
    now apply chat_handler_unprintable with message sessionId.
  - intros w req_query sessionId st Hs Ht Hlog.
    unfold dashboard_handler, try_catch, mbind, M_bind, lift. rewrite Hs, Ht.
    cbn [negb]. now rewrite (template_literal_unprintable w sessionId Hlog).
  - intros fields Hfield. simpl. unfold has_field.
    destruct (lookup_field (js "toString") fields);
      try (split; reflexivity). now destruct Hfield.
Qed.

Lemma unprintable_identifier_stops_the_request_witness :
  chat_handler 1 world
    (VObj [(js "message", VStr (js "hello"));
           (js "sessionId", VObj [(js "toString", VNum (Num 1))])]) initial
  = Some (Normal chat_error, initial).
Proof.
  apply (proj1 unprintable_identifier_stops_the_request world 1 _
           (VStr (js "hello")) (VObj [(js "toString", VNum (Num 1))]) initial).
  - repeat split; reflexivity.
  - reflexivity.
  - reflexivity.
Defined.

(** X16: a field handed to [parseInt] that cannot be printed fails the
    dashboard data as a whole: the total of the net worth, the [units] of an
    entry that is kept, or the credit score. *)
Theorem unprintable_field_fails_the_dashboard :
  forall w netWorthRaw creditReportRaw,
    (forall total,
        path netWorthRaw ["netWorthResponse"; "totalNetWorthValue"; "units"]%string
          = Normal total ->
        printable total = false ->
        dashboardData w netWorthRaw creditReportRaw = Throw) /\
    (forall elements item tag units,
        path netWorthRaw ["netWorthResponse"; "assetValues"]%string
          = Normal (VArr elements) ->
        item ∈ elements ->
        get item "netWorthAttribute" = Normal (VStr tag) ->
        startsWith tag (js "LIABILITY_TYPE") = false ->
        path item ["value"; "units"]%string = Normal units ->
        printable units = false ->
        dashboardData w netWorthRaw creditReportRaw = Throw) /\
    (forall report bureauScore,
        (creditReports ← get creditReportRaw "creditReports"; get0 creditReports)
          = Normal report ->
        path report ["creditReportData"; "score"; "bureauScore"]%string
          = Normal bureauScore ->
        printable bureauScore = false ->
        dashboardData w netWorthRaw creditReportRaw = Throw).
Proof.
  intros w netWorthRaw creditReportRaw. split; [|split].
  - intros total Htotal Hprint.
    unfold dashboardData. unfold path, mbind, completion_bind in *.
    destruct (get netWorthRaw "netWorthResponse") as [netWorthResponse|]; [|reflexivity].
    destruct (get netWorthResponse "totalNetWorthValue") as [totalNetWorthValue|];
      [|reflexivity].
    destruct (get totalNetWorthValue "units") as [units|]; [|reflexivity].
    injection Htotal as ->. now rewrite (parseInt_unprintable w total Hprint).
  - intros elements item tag units Hassets Hin Htag Hkeep Hunits Hprint.
    unfold dashboardData. unfold mbind, completion_bind.
    unfold path, mbind, completion_bind in Hassets.
    destruct (get netWorthRaw "netWorthResponse") as [netWorthResponse|]; [|reflexivity].
    destruct (get netWorthResponse "totalNetWorthValue") as [totalNetWorthValue|];
      [|reflexivity].
    destruct (get totalNetWorthValue "units") as [total|]; [|reflexivity].
    destruct (parseInt w total) as [netWorthValue|]; [|reflexivity].
    destruct (get netWorthResponse "assetValues") as [assetValues|]; [|discriminate].
    injection Hassets as ->. cbn [call_filter].
    destruct (filter_elements is_not_liability elements) as [kept|] eqn:Ek; [|reflexivity].
    assert (Hitem : is_not_liability item = Normal true).
    { unfold is_not_liability, mbind, completion_bind. rewrite Htag.
      cbn [call_startsWith]. now rewrite Hkeep. }
    pose proof (filter_elements_keeps _ _ _ _ Ek Hin Hitem) as Hkept.
    now rewrite (map_elements_throw _ _ item Hkept
                   (shape_asset_unprintable w item units Hunits Hprint)).
  - intros report bureauScore Hreport Hscore Hprint.
    unfold dashboardData. unfold path, mbind, completion_bind in *.
    destruct (get netWorthRaw "netWorthResponse") as [netWorthResponse|]; [|reflexivity].
    destruct (get netWorthResponse "totalNetWorthValue") as [totalNetWorthValue|];
      [|reflexivity].
    destruct (get totalNetWorthValue "units") as [total|]; [|reflexivity].
    destruct (parseInt w total) as [netWorthValue|]; [|reflexivity].
    destruct (get netWorthResponse "assetValues") as [assetValues|]; [|reflexivity].
    destruct (call_filter assetValues is_not_liability) as [kept|]; [|reflexivity].
    destruct (map_elements (shape_asset w) kept) as [assetsArray|]; [|reflexivity].
    destruct (get creditReportRaw "creditReports") as [creditReports|]; [|discriminate].
    rewrite Hreport.
    destruct (get report "creditReportData") as [creditReportData|]; [|discriminate].
    destruct (get creditReportData "score") as [score|]; [|discriminate].
    destruct (get score "bureauScore") as [b|]; [|discriminate].
    injection Hscore as ->. now rewrite (parseInt_unprintable w bureauScore Hprint).
Qed.

Lemma unprintable_field_fails_the_dashboard_witness :
  dashboardData world
    (VObj [(js "netWorthResponse",
            VObj [(js "assetValues", VArr []);
                  (js "totalNetWorthValue",
                   VObj [(js "units", VObj [(js "toString", VNum (Num 1))])])])])
    (VObj [(js "creditReports",
            VArr [VObj [(js "creditReportData",
                         VObj [(js "score", VObj [(js "bureauScore", VStr (js "746"))])])]])])
  = Throw.
Proof.
  apply (proj1 (unprintable_field_fails_the_dashboard world _ _)
           (VObj [(js "toString", VNum (Num 1))])); reflexivity.
Defined.
